(** * sqlime: the OPFS picker (src/js/components/opfs-picker.js) and the
      tree snapshot builder (src/js/opfs.js)

    A shallow embedding of the column-navigation state machine of the
    [<opfs-picker>] custom element: path helpers, node lookup in the
    snapshot, the back history, the three column renderers and the event
    handlers wired in [render()].

    JavaScript strings are modelled by [string], arrays by [list], the
    number [historyIndex] by [Z], [null]/[undefined] by [None].  A
    [TypeError] raised by reading [.children] of [null] is modelled by the
    [Throw] completion of the handler monad; the fields mutated before the
    throw keep their new values, as in the source.  Only the CSS
    ["selected"] marker of a row ([highlightPath], the class toggling of a
    single click) and the breadcrumb separators are left out: they carry no
    navigation state. *)

From Stdlib Require Import String Ascii List ZArith Lia Bool.
Import ListNotations.

Set Warnings "-register-all".

Local Open Scope string_scope.
Local Open Scope Z_scope.

(* ================================================================== *)
(** ** JavaScript string and array primitives used by the picker       *)
(* ================================================================== *)

Module Js.

(** [s.startsWith(p)] *)
Definition startsWith (s p : string) : bool := String.prefix p s.

(** [s.endsWith(suf)]: some suffix of [s] is [suf]. *)
Fixpoint endsWith (s suf : string) : bool :=
  String.eqb s suf ||
  match s with
  | EmptyString => false
  | String _ s' => endsWith s' suf
  end.

(** Relative index of [slice]: a negative index counts from the end, and
    everything is clamped to [0 .. len]. *)
Definition rel_index (len i : Z) : Z :=
  if i <? 0 then Z.max (len + i) 0 else Z.min i len.

(** [s.slice(b, e)] on strings. *)
Definition slice (s : string) (b e : Z) : string :=
  let len := Z.of_nat (String.length s) in
  let from := rel_index len b in
  let to := rel_index len e in
  String.substring (Z.to_nat from) (Z.to_nat (to - from)) s.

(** [a.slice(b, e)] and [a.slice(b)] on arrays. *)
Definition aslice {A} (a : list A) (b e : Z) : list A :=
  let len := Z.of_nat (List.length a) in
  let from := rel_index len b in
  let to := rel_index len e in
  firstn (Z.to_nat (to - from)) (skipn (Z.to_nat from) a).

Definition aslice_from {A} (a : list A) (b : Z) : list A :=
  aslice a b (Z.of_nat (List.length a)).

(** [s.lastIndexOf(c)] for a one-character needle; [-1] when absent. *)
Fixpoint lastIndexOf_from (c : ascii) (s : string) (i acc : Z) : Z :=
  match s with
  | EmptyString => acc
  | String d s' =>
      lastIndexOf_from c s' (i + 1) (if Ascii.eqb d c then i else acc)
  end.

Definition lastIndexOf (s : string) (c : ascii) : Z :=
  lastIndexOf_from c s 0 (-1).

(** [s.substring(0, e)]: a negative end counts as 0, a large one as the
    length. *)
Definition substring0 (s : string) (e : Z) : string :=
  String.substring 0 (Z.to_nat e) s.

(** [s.split(c)] for a one-character separator.  The result is never
    empty: [''.split('/')] is [['']]. *)
Fixpoint split (c : ascii) (s : string) : list string :=
  match s with
  | EmptyString => [EmptyString]
  | String d s' =>
      if Ascii.eqb d c then EmptyString :: split c s'
      else match split c s' with
           | h :: t => String d h :: t
           | [] => [String d EmptyString]
           end
  end.

(** [Boolean(s)] on a string: the empty string is the only falsy one. *)
Definition truthy (s : string) : bool := negb (String.eqb s "").

(** [a.join(sep)] *)
Fixpoint join (sep : string) (a : list string) : string :=
  match a with
  | [] => ""
  | [x] => x
  | x :: rest => x ++ sep ++ join sep rest
  end.

(** [s.trim()] over the one-byte white space characters. *)
Definition is_space (c : ascii) : bool :=
  let n := nat_of_ascii c in
  ((9 <=? n) && (n <=? 13) || (n =? 32) || (n =? 160))%nat.

Fixpoint trimStart (s : string) : string :=
  match s with
  | String c s' => if is_space c then trimStart s' else s
  | EmptyString => EmptyString
  end.

Fixpoint trimEnd (s : string) : string :=
  match s with
  | EmptyString => EmptyString
  | String c s' =>
      match trimEnd s' with
      | EmptyString => if is_space c then EmptyString else String c EmptyString
      | t => String c t
      end
  end.

Definition trim (s : string) : string := trimEnd (trimStart s).

(** [s.includes(c)] for a one-character needle. *)
Fixpoint includes (s : string) (c : ascii) : bool :=
  match s with
  | EmptyString => false
  | String d s' => Ascii.eqb d c || includes s' c
  end.

(** [a || b] where [a] is a string or [null]. *)
Definition or_else (a : option string) (b : string) : string :=
  match a with
  | Some s => if truthy s then s else b
  | None => b
  end.

End Js.

(* ================================================================== *)
(** ** Basic helpers: normalize, parentOf                              *)
(* ================================================================== *)

(** [normalize(path)], lines 32-37.  [None] is a [null] or missing
    argument. *)
Definition normalize (path : option string) : string :=
  match path with
  | None => "/"
  | Some path =>
      if negb (Js.truthy path) then "/"
      else
        let path := if negb (Js.startsWith path "/") then "/" ++ path else path in
        let path :=
          if (Z.of_nat (String.length path) >? 1) && Js.endsWith path "/"
          then Js.slice path 0 (-1) else path in
        path
  end.

(** [parentOf(path)], lines 46-52. *)
Definition parentOf (path : option string) : option string :=
  let path := normalize path in
  if String.eqb path "/" then None
  else
    let idx := Js.lastIndexOf path "/" in
    if idx =? 0 then Some "/"
    else Some (Js.substring0 path idx).

(** [path.split("/").filter(Boolean)] *)
Definition segments (path : string) : list string :=
  filter Js.truthy (Js.split "/" path).

(* ================================================================== *)
(** ** The storage collaborator and the snapshot ([dirtree], opfs.js)  *)
(* ================================================================== *)

(** What [navigator.storage.getDirectory()] hands out: a file handle, or
    a directory handle with the pairs that [entries()] yields, in order. *)
Inductive Handle : Type :=
| FileSystemFileHandle
| FileSystemDirectoryHandle (entries : list (string * Handle)).

(** Nodes of the snapshot: the object literals built in [walk].  A file
    has no [children] property.  [EmptyObject] is the [{}] that the
    constructor stores in [fullTree] until the first load completes. *)
Inductive TreeNode : Type :=
| Directory (name path : string) (children : list TreeNode)
| File (name path : string)
| EmptyObject.

Definition node_name (n : TreeNode) : option string :=
  match n with
  | Directory name _ _ | File name _ => Some name
  | EmptyObject => None
  end.

Definition node_path (n : TreeNode) : option string :=
  match n with
  | Directory _ path _ | File _ path => Some path
  | EmptyObject => None
  end.

Definition node_children (n : TreeNode) : option (list TreeNode) :=
  match n with
  | Directory _ _ children => Some children
  | File _ _ | EmptyObject => None
  end.

(** [item.type === "file"] *)
Definition is_file (n : TreeNode) : bool :=
  match n with
  | File _ _ => true
  | _ => false
  end.

(** [walk(dirHandle, name, currentPath)], opfs.js lines 4-30.  It is only
    ever applied to directory handles (the storage root, a result of
    [getDirectoryHandle], a child whose [kind] is not ["file"]); a file
    handle has no entries to iterate. *)
Fixpoint walk (dirHandle : Handle) (name currentPath : string) : TreeNode :=
  Directory name currentPath
    (match dirHandle with
     | FileSystemFileHandle => []
     | FileSystemDirectoryHandle entries =>
         (fix loop (es : list (string * Handle)) : list TreeNode :=
            match es with
            | [] => []
            | (childName, childHandle) :: rest =>
                let childpath :=
                  if String.eqb currentPath "/" then "/" ++ childName
                  else currentPath ++ "/" ++ childName in
                match childHandle with
                | FileSystemFileHandle => File childName childpath
                | FileSystemDirectoryHandle _ =>
                    walk childHandle childName childpath
                end :: loop rest
            end) entries
     end).

(** [dir.getDirectoryHandle(p)]: the entry called [p] when it is a
    directory; [None] stands for the rejected promise. *)
Definition getDirectoryHandle (dir : Handle) (p : string) : option Handle :=
  match dir with
  | FileSystemFileHandle => None
  | FileSystemDirectoryHandle entries =>
      match find (fun e => String.eqb (fst e) p) entries with
      | Some (_, FileSystemDirectoryHandle sub) =>
          Some (FileSystemDirectoryHandle sub)
      | _ => None
      end
  end.

Fixpoint resolve (start : Handle) (clean : list string) : option Handle :=
  match clean with
  | [] => Some start
  | p :: rest =>
      match getDirectoryHandle start p with
      | Some d => resolve d rest
      | None => None
      end
  end.

(** [dirtree(path)], opfs.js lines 1-42; [root] holds the entries of the
    directory that [navigator.storage.getDirectory()] resolves to. *)
Definition dirtree (root : list (string * Handle)) (path : string)
  : option TreeNode :=
  let clean := if String.eqb path "/" then [] else segments path in
  match resolve (FileSystemDirectoryHandle root) clean with
  | None => None
  | Some start =>
      let dirName := last clean "" in
      Some (walk start dirName
              (if String.eqb path "/" then "/" else "/" ++ Js.join "/" clean))
  end.

(* ================================================================== *)
(** ** Node lookup                                                     *)
(* ================================================================== *)

(** [cur.children.find(c => c.name === p)] *)
Definition find_child (children : list TreeNode) (p : string)
  : option TreeNode :=
  find (fun c => match node_name c with
                 | Some n => String.eqb n p
                 | None => false
                 end) children.

(** The [for] loop of [findNode], lines 77-82. *)
Fixpoint descend (cur : TreeNode) (parts : list string) : option TreeNode :=
  match parts with
  | [] => Some cur
  | p :: rest =>
      match node_children cur with
      | None => None
      | Some children =>
          match find_child children p with
          | None => None
          | Some c => descend c rest
          end
      end
  end.

(** [findNode(path)], lines 70-83, on the snapshot [fullTree].  The test
    [!this.fullTree] never fires: [fullTree] is always an object. *)
Definition findNode (fullTree : TreeNode) (path : option string)
  : option TreeNode :=
  let path := normalize path in
  if String.eqb path "/" then Some fullTree
  else descend fullTree (segments path).

(** [n?.children || []] *)
Definition children_or_empty (n : option TreeNode) : list TreeNode :=
  match n with
  | Some n => match node_children n with Some cs => cs | None => [] end
  | None => []
  end.

(* ================================================================== *)
(** ** The picker object and the handler monad                         *)
(* ================================================================== *)

(** The [CustomEvent]s dispatched to the host: ["open-file"] with
    [detail.fullpath], ["opfs-file"] with [detail.filePath], ["close"]. *)
Inductive Signal : Type :=
| OpenFile (fullpath : string)
| OpfsFile (filePath : string)
| CloseEvent.

Inductive ColId : Type := Col1 | Col2 | Col3.

(** A [.breadcrumb-segment] span: its text, the path its [dblclick]
    listener closes over, and whether it got the [active-segment] class. *)
Record Crumb : Type := mkCrumb {
  label : string;
  target : string;
  active : bool
}.

(** The fields of an [OpfsPicker] and what its shadow DOM shows: the
    items rendered in the three columns, the breadcrumb bar, and whether
    the Close button has hidden the element. *)
Record Picker : Type := mkPicker {
  fullTree : TreeNode;
  selectedPath : option string;
  pathParts : list string;
  history : list string;
  historyIndex : Z;
  col1 : list TreeNode;
  col2 : list TreeNode;
  col3 : list TreeNode;
  breadcrumb : list Crumb;
  hidden : bool
}.

Definition column (id : ColId) (s : Picker) : list TreeNode :=
  match id with
  | Col1 => col1 s
  | Col2 => col2 s
  | Col3 => col3 s
  end.

Definition columns (s : Picker) : list TreeNode * list TreeNode * list TreeNode :=
  (col1 s, col2 s, col3 s).

Definition set_fullTree (t : TreeNode) (s : Picker) : Picker :=
  mkPicker t (selectedPath s) (pathParts s) (history s) (historyIndex s)
           (col1 s) (col2 s) (col3 s) (breadcrumb s) (hidden s).

Definition set_selectedPath (p : option string) (s : Picker) : Picker :=
  mkPicker (fullTree s) p (pathParts s) (history s) (historyIndex s)
           (col1 s) (col2 s) (col3 s) (breadcrumb s) (hidden s).

Definition set_pathParts (l : list string) (s : Picker) : Picker :=
  mkPicker (fullTree s) (selectedPath s) l (history s) (historyIndex s)
           (col1 s) (col2 s) (col3 s) (breadcrumb s) (hidden s).

Definition set_history (h : list string) (s : Picker) : Picker :=
  mkPicker (fullTree s) (selectedPath s) (pathParts s) h (historyIndex s)
           (col1 s) (col2 s) (col3 s) (breadcrumb s) (hidden s).

Definition set_historyIndex (i : Z) (s : Picker) : Picker :=
  mkPicker (fullTree s) (selectedPath s) (pathParts s) (history s) i
           (col1 s) (col2 s) (col3 s) (breadcrumb s) (hidden s).

Definition set_column (id : ColId) (items : list TreeNode) (s : Picker)
  : Picker :=
  mkPicker (fullTree s) (selectedPath s) (pathParts s) (history s)
           (historyIndex s)
           (match id with Col1 => items | _ => col1 s end)
           (match id with Col2 => items | _ => col2 s end)
           (match id with Col3 => items | _ => col3 s end)
           (breadcrumb s) (hidden s).

Definition set_breadcrumb (b : list Crumb) (s : Picker) : Picker :=
  mkPicker (fullTree s) (selectedPath s) (pathParts s) (history s)
           (historyIndex s) (col1 s) (col2 s) (col3 s) b (hidden s).

Definition set_hidden (b : bool) (s : Picker) : Picker :=
  mkPicker (fullTree s) (selectedPath s) (pathParts s) (history s)
           (historyIndex s) (col1 s) (col2 s) (col3 s) (breadcrumb s) b.

(** How a method call ends: normally with a value, or with the
    [TypeError] of a property read on [null]. *)
Inductive Completion (A : Type) : Type :=
| Normal (a : A)
| Throw.
Arguments Normal {A} a.
Arguments Throw {A}.

(** A method of the picker: from the object before the call to the
    completion, the object after it and the events dispatched meanwhile. *)
Definition M (A : Type) : Type :=
  Picker -> Completion A * Picker * list Signal.

Definition ret {A} (a : A) : M A := fun s => (Normal a, s, []).

Definition bind {A B} (m : M A) (f : A -> M B) : M B :=
  fun s =>
    match m s with
    | (Normal a, s', ev) =>
        let '(c, s'', ev') := f a s' in (c, s'', (ev ++ ev')%list)
    | (Throw, s', ev) => (Throw, s', ev)
    end.

Declare Scope picker_scope.
Delimit Scope picker_scope with picker.
Notation "x <- c1 ;; c2" := (bind c1 (fun x => c2))
  (at level 61, c1 at next level, right associativity) : picker_scope.
Notation "c1 ;; c2" := (bind c1 (fun _ => c2))
  (at level 61, right associativity) : picker_scope.
Local Open Scope picker_scope.

Definition gets {A} (f : Picker -> A) : M A := fun s => (Normal (f s), s, []).
Definition modify (f : Picker -> Picker) : M unit :=
  fun s => (Normal tt, f s, []).
Definition dispatchEvent (e : Signal) : M unit :=
  fun s => (Normal tt, s, [e]).
Definition throwTypeError {A} : M A := fun s => (Throw, s, []).

(** [n.children]: a [TypeError] when [n] is [null]. *)
Definition children_of (n : option TreeNode) : M (option (list TreeNode)) :=
  match n with
  | Some n => ret (node_children n)
  | None => throwTypeError
  end.

(** [cs || []] *)
Definition or_empty (cs : option (list TreeNode)) : list TreeNode :=
  match cs with
  | Some cs => cs
  | None => []
  end.

(** The state part and the events part of a finished call. *)
Definition after {A} (r : Completion A * Picker * list Signal) : Picker :=
  snd (fst r).
Definition emitted {A} (r : Completion A * Picker * list Signal)
  : list Signal := snd r.
Definition completed {A} (r : Completion A * Picker * list Signal) : bool :=
  match fst (fst r) with
  | Normal _ => true
  | Throw => false
  end.

(* ================================================================== *)
(** ** History                                                         *)
(* ================================================================== *)

(** [pushHistory(path)], lines 89-95. *)
Definition pushHistory (path : string) : M unit :=
  modify (fun s =>
    let s :=
      if historyIndex s <? Z.of_nat (List.length (history s)) - 1
      then set_history (Js.aslice (history s) 0 (historyIndex s + 1)) s
      else s in
    let s := set_history (history s ++ [path])%list s in
    set_historyIndex (Z.of_nat (List.length (history s)) - 1) s).

(** [history[i]]: [undefined] outside the array. *)
Definition at_index {A} (a : list A) (i : Z) : option A :=
  if i <? 0 then None else nth_error a (Z.to_nat i).

(* ================================================================== *)
(** ** Column rendering and breadcrumb                                 *)
(* ================================================================== *)

(** [renderColumn(colId, items = [])], lines 118-143: the column shows
    one row per item, each with its click and dblclick listeners. *)
Definition renderColumn (colId : ColId) (items : list TreeNode) : M unit :=
  modify (set_column colId items).

(** [makeBreadcrumbSegment(label, path)], lines 190-206. *)
Definition makeBreadcrumbSegment (label path : string) : M Crumb :=
  sel <- gets selectedPath ;;
  ret (mkCrumb label path
         (String.eqb (normalize (Some path)) (normalize sel))).

(** The [parts.forEach] of [updateBreadcrumb], lines 174-187. *)
Fixpoint breadcrumbSegments (current : string) (parts : list string)
  : M (list Crumb) :=
  match parts with
  | [] => ret []
  | p :: rest =>
      let current := current ++ "/" ++ p in
      segment <- makeBreadcrumbSegment p current ;;
      more <- breadcrumbSegments current rest ;;
      ret (segment :: more)
  end.

(** [updateBreadcrumb(path)], lines 159-188. *)
Definition updateBreadcrumb (path : option string) : M unit :=
  let path := normalize path in
  let parts := segments path in
  if (List.length parts =? 0)%nat then
    rootBtn <- makeBreadcrumbSegment "/" "/" ;;
    modify (set_breadcrumb [rootBtn])
  else
    bar <- breadcrumbSegments "" parts ;;
    modify (set_breadcrumb bar).

(* ================================================================== *)
(** ** Jump-to-path, history back                                      *)
(* ================================================================== *)

(** [jumpToPath(full, { pushHistory = true })], lines 320-358. *)
Definition jumpToPath (full : option string) (pushHistoryOpt : bool) : M unit :=
  let full := normalize full in
  let parts := segments full in
  let visible :=
    if (List.length parts <=? 3)%nat then parts
    else Js.aslice_from parts (-3) in
  let parentPath :=
    if (3 <? List.length parts)%nat then
      let parentParts :=
        Js.aslice parts 0
          (Z.of_nat (List.length parts) - Z.of_nat (List.length visible)) in
      let parentPath := "/" ++ Js.join "/" parentParts in
      if String.eqb parentPath "" then "/" else parentPath
    else "/" in
  tree <- gets fullTree ;;
  let parentNode := findNode tree (Some parentPath) in
  renderColumn Col1 (children_or_empty parentNode) ;;
  (if (2 <=? List.length visible)%nat then
     let p2 := "/" ++ Js.join "/" (Js.aslice visible 0 2) in
     let n2 := findNode tree (Some p2) in
     renderColumn Col2 (children_or_empty n2)
   else renderColumn Col2 []) ;;
  (if (3 <=? List.length visible)%nat then
     let p3 := "/" ++ Js.join "/" (Js.aslice visible 0 3) in
     let n3 := findNode tree (Some p3) in
     renderColumn Col3 (children_or_empty n3)
   else renderColumn Col3 []) ;;
  modify (set_selectedPath (Some full)) ;;
  updateBreadcrumb (Some full) ;;
  if pushHistoryOpt then pushHistory full else ret tt.

(** [back()], lines 97-102. *)
Definition back : M unit :=
  idx <- gets historyIndex ;;
  if idx <=? 0 then ret tt
  else
    modify (set_historyIndex (idx - 1)) ;;
    hist <- gets history ;;
    let prev := at_index hist (idx - 1) in
    jumpToPath prev false.

(* ================================================================== *)
(** ** Breadcrumb navigation and double-click sliding                  *)
(* ================================================================== *)

(** [navigateFromBreadcrumb(path)], lines 208-242. *)
Definition navigateFromBreadcrumb (path : string) : M unit :=
  let path := normalize (Some path) in
  let parent := Js.or_else (parentOf (Some path)) "/" in
  let grandparent := parentOf (Some parent) in
  tree <- gets fullTree ;;
  let node := findNode tree (Some path) in
  let parentNode := findNode tree (Some parent) in
  let grandparentNode := findNode tree grandparent in
  (if String.eqb parent "/" then
     renderColumn Col1 (children_or_empty parentNode) ;;
     renderColumn Col2 (children_or_empty node) ;;
     renderColumn Col3 []
   else
     match node with
     | Some _ =>
         cs1 <- children_of grandparentNode ;;
         renderColumn Col1 (or_empty cs1) ;;
         cs2 <- children_of parentNode ;;
         renderColumn Col2 (or_empty cs2) ;;
         cs3 <- children_of node ;;
         renderColumn Col3 (or_empty cs3)
     | None => renderColumn Col3 []
     end) ;;
  modify (set_selectedPath (Some path)) ;;
  modify (set_pathParts (Js.split "/" path)) ;;
  updateBreadcrumb (Some path) ;;
  pushHistory path.

(** [slideLeft(path)], lines 277-292. *)
Definition slideLeft (path : string) : M unit :=
  let path := normalize (Some path) in
  let parent := Js.or_else (parentOf (Some path)) "/" in
  let grandparent := Js.or_else (parentOf (Some parent)) "/" in
  tree <- gets fullTree ;;
  let node := findNode tree (Some path) in
  let parentNode := findNode tree (Some parent) in
  let grandparentNode := findNode tree (Some grandparent) in
  cs1 <- children_of grandparentNode ;;
  renderColumn Col1 (or_empty cs1) ;;
  cs2 <- children_of parentNode ;;
  renderColumn Col2 (or_empty cs2) ;;
  cs3 <- children_of node ;;
  renderColumn Col3 (or_empty cs3).

(** [slideRight(path)], lines 294-314. *)
Definition slideRight (path : string) : M unit :=
  let path := normalize (Some path) in
  let parent := Js.or_else (parentOf (Some path)) "/" in
  let grandparent := Js.or_else (parentOf (Some parent)) "/" in
  tree <- gets fullTree ;;
  let node := findNode tree (Some path) in
  let parentNode := findNode tree (Some parent) in
  let grandparentNode := findNode tree (Some grandparent) in
  if String.eqb parent "/" then
    renderColumn Col1 (children_or_empty parentNode) ;;
    cs2 <- children_of node ;;
    renderColumn Col2 (or_empty cs2) ;;
    renderColumn Col3 []
  else
    cs1 <- children_of grandparentNode ;;
    renderColumn Col1 (or_empty cs1) ;;
    cs2 <- children_of parentNode ;;
    renderColumn Col2 (or_empty cs2) ;;
    renderColumn Col3 (children_or_empty node).

(** [handleDoubleClickItem(colId, item)], lines 248-275. *)
Definition handleDoubleClickItem (colId : ColId) (item : TreeNode) : M unit :=
  let path := normalize (node_path item) in
  if is_file item then dispatchEvent (OpenFile path)
  else
    tree <- gets fullTree ;;
    let node := findNode tree (Some path) in
    match node with
    | None => ret tt
    | Some _ =>
        match colId with
        | Col1 => slideRight path
        | Col2 =>
            cs <- children_of node ;;
            renderColumn Col3 (or_empty cs)
        | Col3 => slideLeft path
        end ;;
        modify (set_selectedPath (Some path)) ;;
        updateBreadcrumb (Some path) ;;
        pushHistory path
    end.

(* ================================================================== *)
(** ** Construction, loading, and the wired controls                   *)
(* ================================================================== *)

(** The object after [constructor()] and [render()]: lines 4-13, and the
    empty columns and breadcrumb bar of the template. *)
Definition constructor : Picker :=
  mkPicker EmptyObject None [] [] (-1) [] [] [] [] false.

(** [loadTree()], lines 108-112, once [dirtree("/")] has settled; the
    promise for ["/"] is never rejected, so the first branch is dead. *)
Definition loadTree (root : list (string * Handle)) : M unit :=
  match dirtree root "/" with
  | None => throwTypeError
  | Some tree =>
      modify (set_fullTree tree) ;;
      renderColumn Col1 (or_empty (node_children tree)) ;;
      updateBreadcrumb (Some "/")
  end.

(** The [click] listener of a row, lines 129-133. *)
Definition row_click (item : TreeNode) : M unit :=
  modify (set_selectedPath (node_path item)).

(** [closeBtn.onclick], lines 467-470. *)
Definition closeBtn_onclick : M unit :=
  modify (set_hidden true) ;;
  dispatchEvent CloseEvent.

(** [openBtn.onclick], lines 472-476. *)
Definition openBtn_onclick : M unit :=
  sel <- gets selectedPath ;;
  match sel with
  | None => ret tt
  | Some p => if negb (Js.truthy p) then ret tt else dispatchEvent (OpfsFile p)
  end.

(** [backBtn.onclick], line 478. *)
Definition backBtn_onclick : M unit := back.

(** [upBtn.onclick], lines 480-483. *)
Definition upBtn_onclick : M unit :=
  sel <- gets selectedPath ;;
  let parent := parentOf (Some (Js.or_else sel "/")) in
  match parent with
  | None => ret tt
  | Some p => if Js.truthy p then jumpToPath (Some p) true else ret tt
  end.

(** The [keydown] listener of the path input, lines 485-490; [value] is
    [e.target.value]. *)
Definition pathInput_keydown (key value : string) : M unit :=
  if String.eqb key "Enter" then
    let v := Js.trim value in
    if Js.truthy v then jumpToPath (Some v) true else ret tt
  else ret tt.

(** What the user can do.  Rows and breadcrumb segments are addressed by
    their position: only what is currently rendered has listeners. *)
Inductive Action : Type :=
| LoadCompleted (root : list (string * Handle))
| RowClick (col : ColId) (row : nat)
| RowDblClick (col : ColId) (row : nat)
| BreadcrumbDblClick (segment : nat)
| CloseClick
| OpenClick
| BackClick
| UpClick
| PathKeydown (key value : string).

Definition step (a : Action) : M unit :=
  match a with
  | LoadCompleted root => loadTree root
  | RowClick col row =>
      items <- gets (column col) ;;
      match nth_error items row with
      | Some item => row_click item
      | None => ret tt
      end
  | RowDblClick col row =>
      items <- gets (column col) ;;
      match nth_error items row with
      | Some item => handleDoubleClickItem col item
      | None => ret tt
      end
  | BreadcrumbDblClick i =>
      bar <- gets breadcrumb ;;
      match nth_error bar i with
      | Some segment => navigateFromBreadcrumb (target segment)
      | None => ret tt
      end
  | CloseClick => closeBtn_onclick
  | OpenClick => openBtn_onclick
  | BackClick => backBtn_onclick
  | UpClick => upBtn_onclick
  | PathKeydown key value => pathInput_keydown key value
  end.

(** The picker after a sequence of user actions; a handler that throws
    leaves the object as it was at the throw. *)
Fixpoint run (actions : list Action) (s : Picker) : Picker :=
  match actions with
  | [] => s
  | a :: rest => run rest (after (step a s))
  end.

(* ================================================================== *)
(** ** Predicates used in the statements                               *)
(* ================================================================== *)

(** The inputs on which a second [normalize] strips a second slash: the
    strings that end in two slashes, ["//"] itself excepted. *)
Definition double_trailing_slash (path : option string) : bool :=
  match path with
  | Some s => Js.endsWith s "//" && negb (String.eqb s "//")
  | None => false
  end.

(** A name that a storage directory can hold: not empty, no slash. *)
Definition valid_name (s : string) : bool :=
  Js.truthy s && negb (Js.includes s "/").

(** Every node along [parts], from the root to the target, resolves to a
    directory that lists at least one entry. *)
Definition populated (tree : TreeNode) (parts : list string) : bool :=
  forallb
    (fun k =>
       match descend tree (firstn k parts) with
       | Some (Directory _ _ (_ :: _)) => true
       | _ => false
       end)
    (seq 0 (S (List.length parts))).

(** A storage with the chain [/a/b/c/d/e] and a few files beside it. *)
Definition sample_storage : list (string * Handle) :=
  [("a", FileSystemDirectoryHandle
      [("b", FileSystemDirectoryHandle
          [("c", FileSystemDirectoryHandle
              [("d", FileSystemDirectoryHandle
                  [("e", FileSystemFileHandle)])])]);
       ("x", FileSystemFileHandle)]);
   ("y", FileSystemFileHandle)].

(** The picker once the first load has completed on that storage. *)
Definition sample_picker : Picker :=
  after (loadTree sample_storage constructor).

(** The sample picker after the path bar has jumped to [full]. *)
Definition jumped_picker (full : string) : Picker :=
  after (jumpToPath (Some full) true sample_picker).

(** The item of the first row of a column. *)
Definition first_row (items : list TreeNode) : TreeNode :=
  nth 0 items EmptyObject.

(** The history invariant of the data model. *)
Definition hist_inv (s : Picker) : Prop :=
  history s <> [] ->
  0 <= historyIndex s < Z.of_nat (List.length (history s)).

(** A method [respects] a relation between the object before and after
    a call when every call, thrown or not, relates the two. *)
Definition respects (R : Picker -> Picker -> Prop) {A} (m : M A) : Prop :=
  forall s, R s (after (m s)).

(** What a handler may do to the history: leave it alone, or end with an
    entry pushed and the index on it. *)
Definition history_kept_or_pushed (s s' : Picker) : Prop :=
  (history s' = history s /\ historyIndex s' = historyIndex s) \/
  (history s' <> [] /\
   historyIndex s' = Z.of_nat (List.length (history s')) - 1).

(** Every node below [n] that has a path has a non-empty one. *)
Fixpoint paths_truthy (n : TreeNode) : bool :=
  match n with
  | Directory _ path children =>
      Js.truthy path && forallb paths_truthy children
  | File _ path => Js.truthy path
  | EmptyObject => true
  end.

(** What the rows on display can put into [selectedPath]: the snapshot
    and the rendered items carry non-empty paths, and the selection is
    not the empty string. *)
Definition selectable (s : Picker) : Prop :=
  paths_truthy (fullTree s) = true /\
  forallb paths_truthy (col1 s) = true /\
  forallb paths_truthy (col2 s) = true /\
  forallb paths_truthy (col3 s) = true /\
  selectedPath s <> Some "".

Definition keeps_selectable (s s' : Picker) : Prop :=
  selectable s -> selectable s'.

(** No string occurs twice. *)
Fixpoint unique (l : list string) : bool :=
  match l with
  | [] => true
  | x :: rest => negb (existsb (String.eqb x) rest) && unique rest
  end.

(** What a storage directory guarantees about its entries, at every
    level: valid names, no name twice. *)
Fixpoint wf_handle (h : Handle) : bool :=
  match h with
  | FileSystemFileHandle => true
  | FileSystemDirectoryHandle entries =>
      forallb valid_name (map fst entries) &&
      unique (map fst entries) &&
      forallb (fun e => wf_handle (snd e)) entries
  end.

(** [present tree n]: the node [n] occurs in the snapshot [tree]. *)
Inductive present : TreeNode -> TreeNode -> Prop :=
| present_here (n : TreeNode) : present n n
| present_below (name path : string) (children : list TreeNode)
                (c n : TreeNode) :
    In c children -> present c n ->
    present (Directory name path children) n.

(** The path that [walk] gives to the node reached by [segs]. *)
Definition path_of (segs : list string) : string :=
  match segs with
  | [] => "/"
  | _ => "/" ++ Js.join "/" segs
  end.

(** The node that [walk] pushes for one entry of a directory at
    [currentPath]. *)
Definition child_node (currentPath : string) (e : string * Handle)
  : TreeNode :=
  let childpath :=
    if String.eqb currentPath "/" then "/" ++ fst e
    else currentPath ++ "/" ++ fst e in
  match snd e with
  | FileSystemFileHandle => File (fst e) childpath
  | FileSystemDirectoryHandle _ => walk (snd e) (fst e) childpath
  end.

(** The sample picker after double clicks on [/a] in column 1 and on
    [/a/b] in column 2: column 3 lists [/a/b/c]. *)
Definition drilled_picker : Picker :=
  run [LoadCompleted sample_storage; RowDblClick Col1 0; RowDblClick Col2 0]
      constructor.

From Stdlib Require Import Permutation.

(* ================================================================== *)
(** ** The other exports of opfs.js                                    *)
(* ================================================================== *)

(** [handle.kind] *)
Definition kind (h : Handle) : string :=
  match h with
  | FileSystemFileHandle => "file"
  | FileSystemDirectoryHandle _ => "directory"
  end.

(** [handle.kind === "file"] *)
Definition is_file_handle (h : Handle) : bool :=
  match h with
  | FileSystemFileHandle => true
  | FileSystemDirectoryHandle _ => false
  end.

(* ================================================================== *)
(** ** The breadcrumb bar as a function of the selection and the path  *)
(* ================================================================== *)

(** The segments that the [parts.forEach] of [updateBreadcrumb] appends
    when [this.selectedPath] is [sel]: the same loop as
    [breadcrumbSegments], read as a function. *)
Fixpoint crumb_list (sel : option string) (current : string)
         (parts : list string) : list Crumb :=
  match parts with
  | [] => []
  | p :: rest =>
      let current := current ++ "/" ++ p in
      mkCrumb p current (String.eqb (normalize (Some current)) (normalize sel))
      :: crumb_list sel current rest
  end.

(** The bar that [updateBreadcrumb(path)] paints when
    [this.selectedPath] is [sel]. *)
Definition crumbs_of (sel path : option string) : list Crumb :=
  let path := normalize path in
  let parts := segments path in
  if (List.length parts =? 0)%nat
  then [mkCrumb "/" "/" (String.eqb (normalize (Some "/")) (normalize sel))]
  else crumb_list sel "" parts.


(** Every entry of the back log starts with a slash. *)
Definition history_absolute (s : Picker) : Prop :=
  Forall (fun e => Js.startsWith e "/" = true) (history s).

Definition keeps_absolute (s s' : Picker) : Prop :=
  history_absolute s -> history_absolute s'.

(* ================================================================== *)
(** ** listdir (opfs.js lines 45-73)                                   *)
(* ================================================================== *)

(** An element of the array that [listdir] returns. *)
Record DirEntry : Type := mkDirEntry {
  entry_name : string;
  entry_type : string;
  entry_path : string
}.

(** The [for await] loop of [listdir], lines 59-67.  The loop assigns to
    [path] itself, so each iteration starts from the path that the
    previous one built. *)
Fixpoint listdir_loop (path : string) (entries : list (string * Handle))
  : list DirEntry :=
  match entries with
  | [] => []
  | (name, handle) :: rest =>
      let path := if String.eqb path "/" then "/" ++ name
                  else path ++ "/" ++ name in
      mkDirEntry name (kind handle) path :: listdir_loop path rest
  end.

Section Sort.

Context {A : Type}.

(** [Array.prototype.sort(comparefn)]: the array is sorted stably when
    [comparefn] is a consistent comparator, and the order is left to the
    implementation when it is not; a stable insertion sort has both
    behaviours.  [comparefn a b < 0] puts [a] first. *)
Variable comparefn : A -> A -> Z.

Fixpoint sort_insert (x : A) (sorted : list A) : list A :=
  match sorted with
  | [] => [x]
  | y :: rest =>
      if comparefn x y <? 0 then x :: y :: rest
      else y :: sort_insert x rest
  end.

Definition array_sort (a : list A) : list A :=
  fold_left (fun sorted x => sort_insert x sorted) a [].

End Sort.

Section Listdir.

(** [String.prototype.localeCompare] depends on the locale of the
    browser; it is a parameter here. *)
Variable localeCompare : string -> string -> Z.

(** The comparator of line 70: [a || b] on numbers takes [b] when [a]
    is 0. *)
Definition listdir_compare (a b : DirEntry) : Z :=
  let byType := localeCompare (entry_type a) (entry_type b) in
  if byType =? 0 then localeCompare (entry_name a) (entry_name b)
  else byType.

(** [listdir(path)], lines 45-73; [None] is the rejected promise of a
    [getDirectoryHandle] that fails on the way. *)
Definition listdir (root : list (string * Handle)) (path : option string)
  : option (list DirEntry) :=
  let path := Js.or_else path "/" in
  let clean := if String.eqb path "/" then [] else segments path in
  match resolve (FileSystemDirectoryHandle root) clean with
  | Some (FileSystemDirectoryHandle entries) =>
      Some (array_sort listdir_compare (listdir_loop path entries))
  | _ => None
  end.

End Listdir.

(* ================================================================== *)
(** ** mkdir (opfs.js lines 75-88)                                     *)
(* ================================================================== *)

(** The handle behind the path [segs] below [h], file or directory. *)
Fixpoint entry_at (h : Handle) (segs : list string) : option Handle :=
  match segs with
  | [] => Some h
  | p :: rest =>
      match h with
      | FileSystemFileHandle => None
      | FileSystemDirectoryHandle entries =>
          match find (fun e => String.eqb (fst e) p) entries with
          | Some (_, child) => entry_at child rest
          | None => None
          end
      end
  end.

(** The path [segs] leads to a directory of the storage. *)
Definition is_directory (root : list (string * Handle)) (segs : list string)
  : bool :=
  match resolve (FileSystemDirectoryHandle root) segs with
  | Some _ => true
  | None => false
  end.

(** [a] is [b] cut after some segment. *)
Fixpoint is_prefix (a b : list string) : bool :=
  match a, b with
  | [], _ => true
  | x :: a', y :: b' => String.eqb x y && is_prefix a' b'
  | _ :: _, [] => false
  end.

(** The entries of a directory after the handle of its entry [p] has
    changed to [h]. *)
Fixpoint set_entry (p : string) (h : Handle)
         (entries : list (string * Handle)) : list (string * Handle) :=
  match entries with
  | [] => []
  | (n, old) :: rest =>
      if String.eqb n p then (n, h) :: rest
      else (n, old) :: set_entry p h rest
  end.

Section Mkdir.

(** The names that the user agent accepts for an entry; it rejects the
    others with a [TypeError] before it looks at the directory. *)
Variable validFileName : string -> bool.

(** The loop of [mkdir], lines 84-86, from the directory [dir] whose
    entries are [entries]: [dir.getDirectoryHandle(p, {create: true})]
    takes the directory called [p], makes it when no entry has that name,
    and rejects when the entry is a file; the loop goes on inside it.  A
    directory made below [dir] changes the storage, so the function
    returns the entries of [dir] after the loop, with [true] when every
    iteration went through and [false] when one rejected. *)
Fixpoint mkdir_loop (clean : list string) (entries : list (string * Handle))
  : bool * list (string * Handle) :=
  match clean with
  | [] => (true, entries)
  | p :: rest =>
      if validFileName p then
        match find (fun e => String.eqb (fst e) p) entries with
        | Some (_, FileSystemFileHandle) => (false, entries)
        | Some (_, FileSystemDirectoryHandle sub) =>
            let (ok, sub') := mkdir_loop rest sub in
            (ok, set_entry p (FileSystemDirectoryHandle sub') entries)
        | None =>
            let (ok, sub') := mkdir_loop rest [] in
            (ok, (entries ++ [(p, FileSystemDirectoryHandle sub')])%list)
        end
      else (false, entries)
  end.

(** [mkdir(path)]: the value of the promise ([None] when it rejects) and
    the entries of the storage root afterwards. *)
Definition mkdir (root : list (string * Handle)) (path : option string)
  : option string * list (string * Handle) :=
  let path := Js.or_else path "/" in
  let clean := if String.eqb path "/" then [] else segments path in
  let (ok, root') := mkdir_loop clean root in
  ((if ok then Some "ok" else None), root').

End Mkdir.

(** A user agent that refuses the two dot names. *)
Definition no_dot_names (s : string) : bool :=
  negb (String.eqb s ".") && negb (String.eqb s "..").

(* ================================================================== *)
(** ** getFileHandle (opfs.js lines 123-144)                           *)
(* ================================================================== *)

Section GetFileHandle.

Variable validFileName : string -> bool.

(** The loop of [getFileHandle], lines 134-141, from the directory whose
    entries are [entries], with [create] for [options.create]: the last
    segment goes to [dir.getFileHandle(p, options)], which takes the file
    called [p], makes it when [create] is set and no entry has that name,
    and rejects otherwise; the segments before it go to
    [dir.getDirectoryHandle(p, options)].  The first component is the
    value of [file] after the loop ([Some None] for [undefined]) or [None]
    when a call rejected; the second one is the entries of the directory
    afterwards. *)
Fixpoint getFileHandle_loop (create : bool) (clean : list string)
         (entries : list (string * Handle))
  : option (option Handle) * list (string * Handle) :=
  match clean with
  | [] => (Some None, entries)
  | [p] =>
      if validFileName p then
        match find (fun e => String.eqb (fst e) p) entries with
        | Some (_, FileSystemFileHandle) =>
            (Some (Some FileSystemFileHandle), entries)
        | Some (_, FileSystemDirectoryHandle _) => (None, entries)
        | None =>
            if create
            then (Some (Some FileSystemFileHandle),
                  (entries ++ [(p, FileSystemFileHandle)])%list)
            else (None, entries)
        end
      else (None, entries)
  | p :: ((_ :: _) as rest) =>
      if validFileName p then
        match find (fun e => String.eqb (fst e) p) entries with
        | Some (_, FileSystemFileHandle) => (None, entries)
        | Some (_, FileSystemDirectoryHandle sub) =>
            let (file, sub') := getFileHandle_loop create rest sub in
            (file, set_entry p (FileSystemDirectoryHandle sub') entries)
        | None =>
            if create
            then let (file, sub') := getFileHandle_loop create rest [] in
                 (file,
                  (entries ++ [(p, FileSystemDirectoryHandle sub')])%list)
            else (None, entries)
        end
      else (None, entries)
  end.

(** [getFileHandle(path, options)] *)
Definition getFileHandle (create : bool) (root : list (string * Handle))
           (path : option string)
  : option (option Handle) * list (string * Handle) :=
  let path := Js.or_else path "/" in
  let clean := if String.eqb path "/" then [] else segments path in
  getFileHandle_loop create clean root.

End GetFileHandle.

(** What [getFileHandle] gives for the handle at a path with segments: the
    handle when it is a file, a rejection otherwise. *)
Definition file_or_rejected (h : option Handle) : option (option Handle) :=
  match h with
  | Some FileSystemFileHandle => Some (Some FileSystemFileHandle)
  | _ => None
  end.


(* ================================================================== *)
(** ** The documented examples of the helpers                          *)
(* ================================================================== *)

Example normalize_doc_null : normalize None = "/".
Proof. reflexivity. Qed.
Example normalize_doc_abc : normalize (Some "abc") = "/abc".
Proof. reflexivity. Qed.
Example normalize_doc_trailing : normalize (Some "abc/def/") = "/abc/def".
Proof. reflexivity. Qed.
Example normalize_doc_abs : normalize (Some "/abc/hjk") = "/abc/hjk".
Proof. reflexivity. Qed.
Example parentOf_doc_root : parentOf (Some "/") = None.
Proof. reflexivity. Qed.
Example parentOf_doc_abc : parentOf (Some "/abc") = Some "/".
Proof. reflexivity. Qed.
Example parentOf_doc_deep : parentOf (Some "/abc/efg/hjk") = Some "/abc/efg".
Proof. reflexivity. Qed.
Example segments_example : segments "/a//b/" = ["a"; "b"].
Proof. reflexivity. Qed.
Example trim_example : Js.trim "  /a b  " = "/a b".
Proof. reflexivity. Qed.

(* ================================================================== *)
(** ** Strings: suffixes, slices, splitting                            *)
(* ================================================================== *)

Section StringFacts.

Lemma append_nil_r (s : string) : s ++ "" = s.
Proof. induction s as [|c s IH]; simpl; [reflexivity | now rewrite IH]. Qed.

Lemma append_assoc (a b c : string) : (a ++ b) ++ c = a ++ (b ++ c).
Proof. induction a as [|x a IH]; simpl; [reflexivity | now rewrite IH]. Qed.

Lemma length_append (a b : string) :
  String.length (a ++ b) = (String.length a + String.length b)%nat.
Proof. induction a as [|x a IH]; simpl; [reflexivity | now rewrite IH]. Qed.

Lemma endsWith_append (a b : string) : Js.endsWith (a ++ b) b = true.
Proof.
  induction a as [|x a IH].
  - destruct b; simpl; [reflexivity|].
    rewrite Ascii.eqb_refl, String.eqb_refl. reflexivity.
  - change (Js.endsWith (String x a ++ b) b)
      with ((String x (a ++ b) =? b)%string || Js.endsWith (a ++ b) b).
    rewrite IH. apply orb_true_r.
Qed.

Lemma endsWith_inv (s suf : string) :
  Js.endsWith s suf = true -> exists q, s = q ++ suf.
Proof.
  induction s as [|x s IH]; intros H.
  - destruct suf; simpl in H; [now exists "" | discriminate].
  - change (Js.endsWith (String x s) suf)
      with ((String x s =? suf)%string || Js.endsWith s suf) in H.
    apply orb_true_iff in H. destruct H as [H | H].
    + apply String.eqb_eq in H. exists "". now rewrite H.
    + destruct (IH H) as [q ->]. now exists (String x q).
Qed.

Lemma substring_prefix (q r : string) :
  String.substring 0 (String.length q) (q ++ r) = q.
Proof.
  induction q as [|x q IH]; simpl.
  - now destruct r.
  - now rewrite IH.
Qed.

(** [(q + c).slice(0, -1)] is [q]. *)
Lemma slice_drop_last (q : string) (c : ascii) :
  Js.slice (q ++ String c "") 0 (-1) = q.
Proof.
  unfold Js.slice, Js.rel_index. rewrite length_append. simpl String.length.
  replace (0 <? 0) with false by reflexivity.
  replace (-1 <? 0) with true by reflexivity.
  rewrite Z.min_l by lia. rewrite Z.max_l by lia.
  replace (Z.to_nat 0) with 0%nat by reflexivity.
  replace (Z.to_nat _) with (String.length q) by lia.
  apply substring_prefix.
Qed.

Lemma startsWith_cons (c : ascii) (s : string) :
  Js.startsWith (String c s) "/" = Ascii.eqb c "/".
Proof.
  unfold Js.startsWith.
  change (prefix "/" (String c s))
    with (if ascii_dec "/" c then prefix "" s else false).
  destruct (ascii_dec "/" c) as [<- | n].
  - now destruct s.
  - symmetry. apply Ascii.eqb_neq. congruence.
Qed.

Lemma startsWith_append (q r : string) :
  q <> "" -> Js.startsWith (q ++ r) "/" = Js.startsWith q "/".
Proof.
  destruct q as [|c q]; [congruence | intros _].
  change (String c q ++ r) with (String c (q ++ r)).
  now rewrite !startsWith_cons.
Qed.

End StringFacts.

(* ================================================================== *)
(** ** normalize                                                       *)
(* ================================================================== *)

Section Normalize.

Lemma truthy_iff (s : string) : Js.truthy s = true <-> s <> "".
Proof.
  unfold Js.truthy. rewrite negb_true_iff. apply String.eqb_neq.
Qed.

(** A non-empty absolute path without a trailing slash (or the root
    itself) is left alone. *)
Lemma normalize_fixed (q : string) :
  q <> "" -> Js.startsWith q "/" = true ->
  (String.length q <= 1)%nat \/ Js.endsWith q "/" = false ->
  normalize (Some q) = q.
Proof.
  intros Hq Hs Hend. unfold normalize.
  apply truthy_iff in Hq. rewrite Hq, Hs. cbn [negb].
  destruct Hend as [Hl | He].
  - replace (Z.of_nat (String.length q) >? 1) with false; [reflexivity|].
    rewrite Z.gtb_ltb. symmetry. apply Z.ltb_ge. lia.
  - rewrite He, andb_false_r. reflexivity.
Qed.

(** The two steps of [normalize] on a non-empty string: [p1] is the path
    made absolute, and either nothing is stripped or [p1 = q + "/"]. *)
Lemma normalize_cases (s : string) :
  s <> "" ->
  exists p1,
    p1 <> "" /\ Js.startsWith p1 "/" = true /\
    (p1 = s \/ (p1 = "/" ++ s /\ Js.startsWith s "/" = false)) /\
    ((normalize (Some s) = p1 /\
      ((String.length p1 <= 1)%nat \/ Js.endsWith p1 "/" = false)) \/
     (exists q, p1 = q ++ "/" /\ q <> "" /\ normalize (Some s) = q)).
Proof.
  intros Hs. unfold normalize.
  pose proof (proj2 (truthy_iff s) Hs) as Ht. rewrite Ht. cbn [negb].
  set (p1 := if negb (Js.startsWith s "/") then "/" ++ s else s).
  assert (Hp1 : p1 <> "").
  { subst p1. destruct (Js.startsWith s "/"); cbn [negb]; [assumption|].
    discriminate. }
  assert (Hst : Js.startsWith p1 "/" = true).
  { subst p1. destruct (Js.startsWith s "/") eqn:E; cbn [negb]; [assumption|].
    change ("/" ++ s) with (String "/" s). now rewrite startsWith_cons. }
  assert (Hor : p1 = s \/ (p1 = "/" ++ s /\ Js.startsWith s "/" = false)).
  { subst p1. destruct (Js.startsWith s "/"); cbn [negb]; auto. }
  exists p1. repeat split; try assumption.
  destruct (Z.of_nat (String.length p1) >? 1) eqn:Hlen.
  - destruct (Js.endsWith p1 "/") eqn:Hend; cbn [andb].
    + right. destruct (endsWith_inv _ _ Hend) as [q Hq].
      exists q. split; [assumption|]. split.
      * intros ->. rewrite Hq in Hlen. discriminate.
      * rewrite Hq. apply slice_drop_last.
    + left. auto.
  - cbn [andb]. left. split; [reflexivity|]. left.
    rewrite Z.gtb_ltb in Hlen. apply Z.ltb_ge in Hlen. lia.
Qed.

Lemma append_inj_length (a b c d : string) :
  a ++ b = c ++ d -> String.length b = String.length d -> a = c /\ b = d.
Proof.
  revert c. induction a as [|x a IH]; intros c H Hl.
  - destruct c as [|y c]; [auto|]. exfalso.
    simpl in H. rewrite H in Hl. simpl in Hl. rewrite length_append in Hl. lia.
  - destruct c as [|y c].
    + exfalso. simpl in H. rewrite <- H in Hl. simpl in Hl.
      rewrite length_append in Hl. lia.
    + simpl in H. injection H as -> H. destruct (IH c H Hl) as [-> ->]. auto.
Qed.

Lemma normalize_idempotent_on (s : string) :
  Js.endsWith s "//" = false \/ s = "//" ->
  normalize (Some (normalize (Some s))) = normalize (Some s).
Proof.
  intros Hyp. destruct (string_dec s "") as [-> | Hs]; [reflexivity|].
  destruct (normalize_cases s Hs)
    as (p1 & Hp1 & Hst & Hor & [[Hn Hfix] | (q & Hq & Hqne & Hn)]).
  - rewrite Hn. now apply normalize_fixed.
  - rewrite Hn. apply normalize_fixed; [assumption| |].
    + rewrite <- (startsWith_append q "/" Hqne), <- Hq. exact Hst.
    + destruct (Js.endsWith q "/") eqn:Hend; [left | now right].
      destruct (endsWith_inv _ _ Hend) as [q' Hq'].
      assert (Hp : p1 = q' ++ "//").
      { rewrite Hq, Hq'. now rewrite append_assoc. }
      destruct Hor as [E | [E Hns]].
      * rewrite E in Hp. destruct Hyp as [Hf | Heq].
        -- rewrite Hp, endsWith_append in Hf. discriminate.
        -- rewrite Heq in Hp.
           destruct (append_inj_length "" "//" q' "//" Hp eq_refl) as [<- _].
           rewrite Hq'. simpl. lia.
      * destruct q' as [|c q''].
        -- rewrite E in Hp. simpl in Hp. injection Hp as ->. discriminate.
        -- rewrite E in Hp. simpl in Hp. injection Hp as <- Hs'.
           destruct Hyp as [Hf | Heq].
           ++ rewrite Hs', endsWith_append in Hf. discriminate.
           ++ rewrite Heq in Hns. discriminate.
Qed.

Lemma append_length_neq (r t : string) : t <> "" -> r <> r ++ t.
Proof.
  intros Ht E. apply (f_equal String.length) in E.
  rewrite length_append in E. destruct t; [congruence | simpl in E; lia].
Qed.

(** On the other inputs, those that end in two slashes, the second call
    does strip one more slash. *)
Lemma normalize_strips_again (s : string) :
  Js.endsWith s "//" = true -> s <> "//" ->
  normalize (Some (normalize (Some s))) <> normalize (Some s).
Proof.
  intros Hend Hne. destruct (endsWith_inv _ _ Hend) as [q Hq].
  assert (Hqne : q <> "") by (intros ->; now apply Hne).
  assert (Hs : s <> "") by (rewrite Hq; destruct q; discriminate).
  destruct (normalize_cases s Hs)
    as (p1 & _ & Hst & Hor & [[_ Hfix] | (q' & Hq' & _ & Hn)]).
  - exfalso.
    assert (Hp1 : exists r, r <> "" /\ p1 = (r ++ "/") ++ "/").
    { destruct Hor as [-> | [-> _]].
      - exists q. split; [exact Hqne|]. now rewrite Hq, append_assoc.
      - exists ("/" ++ q). split; [discriminate|].
        rewrite Hq. simpl. now rewrite append_assoc. }
    destruct Hp1 as (r & Hr & ->). destruct Hfix as [Hl | He].
    + rewrite !length_append in Hl. simpl in Hl. lia.
    + rewrite endsWith_append in He. discriminate.
  - assert (Hp1 : exists r, r <> "" /\ Js.startsWith r "/" = true /\
                            p1 = (r ++ "/") ++ "/").
    { destruct Hor as [E | [E Hns]].
      - exists q. split; [exact Hqne|]. split.
        + rewrite <- (startsWith_append q "//" Hqne), <- Hq, <- E. exact Hst.
        + now rewrite E, Hq, append_assoc.
      - exists ("/" ++ q). split; [discriminate|]. split.
        + change ("/" ++ q) with (String "/" q). now rewrite startsWith_cons.
        + rewrite E, Hq. simpl. now rewrite append_assoc. }
    destruct Hp1 as (r & Hr & Hrs & Hp1). rewrite Hp1 in Hq'.
    destruct (append_inj_length _ _ _ _ Hq' eq_refl) as [<- _].
    rewrite Hn.
    assert (Hstep : normalize (Some (r ++ "/")) = r).
    { unfold normalize.
      assert (Ht : Js.truthy (r ++ "/") = true)
        by (apply truthy_iff; destruct r; discriminate).
      rewrite Ht. cbn [negb].
      rewrite (startsWith_append r "/" Hr), Hrs. cbn [negb].
      rewrite endsWith_append, andb_true_r.
      replace (Z.of_nat (String.length (r ++ "/")) >? 1) with true.
      - apply slice_drop_last.
      - symmetry. rewrite Z.gtb_ltb. apply Z.ltb_lt.
        rewrite length_append. simpl. destruct r; [congruence | simpl; lia]. }
    rewrite Hstep. apply append_length_neq. discriminate.
Qed.

End Normalize.

(* ================================================================== *)
(** ** split, filter(Boolean), join                                    *)
(* ================================================================== *)

Section Segments.

Lemma split_not_nil (c : ascii) (s : string) : Js.split c s <> [].
Proof.
  destruct s as [|d s]; simpl; [discriminate|].
  destruct (Ascii.eqb d c); [discriminate|].
  destruct (Js.split c s); discriminate.
Qed.

(** Splitting distributes over a separator. *)
Lemma split_append_sep (c : ascii) (a b : string) :
  Js.split c (a ++ String c b) = (Js.split c a ++ Js.split c b)%list.
Proof.
  induction a as [|d a IH]; simpl.
  - now rewrite Ascii.eqb_refl.
  - destruct (Ascii.eqb d c); [now rewrite IH|].
    rewrite IH. pose proof (split_not_nil c a) as Hne.
    destruct (Js.split c a); [congruence | reflexivity].
Qed.

Lemma segments_append_slash (a b : string) :
  segments (a ++ String "/" b) = (segments a ++ segments b)%list.
Proof. unfold segments. now rewrite split_append_sep, filter_app. Qed.

Lemma segments_leading_slash (s : string) :
  segments (String "/" s) = segments s.
Proof. apply (segments_append_slash "" s). Qed.

Lemma segments_trailing_slash (q : string) : segments (q ++ "/") = segments q.
Proof. rewrite segments_append_slash. apply app_nil_r. Qed.

(** [normalize] does not change the segments of a path. *)
Lemma segments_normalize (s : string) :
  segments (normalize (Some s)) = segments s.
Proof.
  destruct (string_dec s "") as [-> | Hs]; [reflexivity|].
  destruct (normalize_cases s Hs)
    as (p1 & _ & _ & Hor & [[Hn _] | (q & Hq & _ & Hn)]).
  - rewrite Hn. destruct Hor as [-> | [-> _]]; [reflexivity|].
    apply segments_leading_slash.
  - rewrite Hn. rewrite <- (segments_trailing_slash q), <- Hq.
    destruct Hor as [-> | [-> _]]; [reflexivity|].
    apply segments_leading_slash.
Qed.

Lemma split_without_slash (x : string) :
  Js.includes x "/" = false -> Js.split "/" x = [x].
Proof.
  induction x as [|d x IH]; simpl; [reflexivity|].
  intros H. apply orb_false_iff in H. destruct H as [Hd Hx].
  rewrite Hd, (IH Hx). reflexivity.
Qed.

Lemma split_pieces_without_slash (s : string) :
  Forall (fun x => Js.includes x "/" = false) (Js.split "/" s).
Proof.
  induction s as [|d s IH]; simpl.
  - constructor; [reflexivity | constructor].
  - destruct (Ascii.eqb d "/") eqn:E.
    + constructor; [reflexivity | assumption].
    + destruct (Js.split "/" s) as [|h t].
      * constructor; [simpl; now rewrite E | constructor].
      * inversion IH; subst. constructor; [simpl; now rewrite E | assumption].
Qed.

(** Every segment of a path is a valid name. *)
Lemma segments_valid (s : string) :
  Forall (fun x => valid_name x = true) (segments s).
Proof.
  unfold segments. pose proof (split_pieces_without_slash s) as H.
  induction H as [|x l Hx Hl IH]; simpl; [constructor|].
  destruct (Js.truthy x) eqn:E; [|assumption].
  constructor; [|assumption]. unfold valid_name. now rewrite E, Hx.
Qed.

Lemma segments_valid_name (x : string) :
  valid_name x = true -> segments x = [x].
Proof.
  unfold valid_name. intros H. apply andb_true_iff in H. destruct H as [Ht Hs].
  apply negb_true_iff in Hs. unfold segments.
  rewrite (split_without_slash x Hs). simpl. now rewrite Ht.
Qed.

(** Joining valid names and splitting again gives the names back. *)
Lemma segments_join (xs : list string) :
  Forall (fun x => valid_name x = true) xs ->
  segments (Js.join "/" xs) = xs.
Proof.
  induction 1 as [|x l Hx Hl IH]; [reflexivity|].
  destruct l as [|y r].
  - simpl. now apply segments_valid_name.
  - change (Js.join "/" (x :: y :: r)) with (x ++ String "/" (Js.join "/" (y :: r))).
    rewrite segments_append_slash, IH, (segments_valid_name x Hx). reflexivity.
Qed.

Lemma segments_absolute_join (xs : list string) :
  Forall (fun x => valid_name x = true) xs ->
  segments ("/" ++ Js.join "/" xs) = xs.
Proof.
  intros H. change ("/" ++ Js.join "/" xs) with (String "/" (Js.join "/" xs)).
  rewrite segments_leading_slash. now apply segments_join.
Qed.

End Segments.

(* ================================================================== *)
(** ** parentOf                                                        *)
(* ================================================================== *)

Section ParentOf.

(** [lastIndexOf] either finds no occurrence, or cuts the string at the
    last one. *)
Lemma lastIndexOf_from_spec (c : ascii) (s : string) :
  forall i acc,
    (Js.includes s c = false /\ Js.lastIndexOf_from c s i acc = acc) \/
    (exists pre post,
        s = pre ++ String c post /\ Js.includes post c = false /\
        Js.lastIndexOf_from c s i acc = i + Z.of_nat (String.length pre)).
Proof.
  induction s as [|d s IH]; intros i acc; simpl.
  - left. auto.
  - destruct (IH (i + 1) (if Ascii.eqb d c then i else acc))
      as [[Hno Hr] | (pre & post & Hs & Hpost & Hr)].
    + destruct (Ascii.eqb d c) eqn:E.
      * right. apply Ascii.eqb_eq in E. subst d.
        exists "", s. simpl. repeat split; [assumption|]. rewrite Hr. lia.
      * left. simpl. auto.
    + right. exists (String d pre), post. subst s. simpl.
      repeat split; [assumption|]. rewrite Hr. lia.
Qed.

Lemma includes_startsWith (s : string) :
  Js.startsWith s "/" = true -> Js.includes s "/" = true.
Proof.
  destruct s as [|d s]; [discriminate|].
  rewrite startsWith_cons. simpl. now intros ->.
Qed.

(** What [parentOf] returns on a path that does not normalize to the
    root: the normalized path cut at its last slash. *)
Lemma parentOf_cut (p : option string) :
  normalize p <> "/" ->
  exists pre post,
    normalize p = pre ++ String "/" post /\
    Js.includes post "/" = false /\
    parentOf p = Some (if String.eqb pre "" then "/" else pre).
Proof.
  intros Hroot. unfold parentOf.
  destruct (String.eqb (normalize p) "/") eqn:E.
  { apply String.eqb_eq in E. contradiction. }
  assert (Hst : Js.startsWith (normalize p) "/" = true).
  { destruct p as [s|]; [|reflexivity].
    destruct (string_dec s "") as [-> | Hs]; [reflexivity|].
    destruct (normalize_cases s Hs)
      as (p1 & Hp1 & Hst & _ & [[Hn _] | (q & Hq & Hqne & Hn)]).
    - now rewrite Hn.
    - rewrite Hn, <- (startsWith_append q "/" Hqne), <- Hq. exact Hst. }
  unfold Js.lastIndexOf.
  destruct (lastIndexOf_from_spec "/" (normalize p) 0 (-1))
    as [[Hno _] | (pre & post & Hs & Hpost & Hr)].
  { rewrite (includes_startsWith _ Hst) in Hno. discriminate. }
  exists pre, post. repeat split; try assumption.
  rewrite Hr. destruct pre as [|x pre].
  - reflexivity.
  - replace (0 + Z.of_nat (String.length (String x pre)) =? 0) with false.
    2:{ symmetry. apply Z.eqb_neq. simpl String.length. lia. }
    unfold Js.substring0. rewrite Hs.
    replace (Z.to_nat _) with (String.length (String x pre)) by lia.
    now rewrite substring_prefix.
Qed.

(** The segments of the parent (the root standing in for a missing one)
    are the segments of the path without the last one. *)
Lemma parent_segments (p : string) :
  exists rest,
    segments p
    = (segments (Js.or_else (parentOf (Some p)) "/") ++ rest)%list.
Proof.
  destruct (string_dec (normalize (Some p)) "/") as [E | Hne].
  - unfold parentOf. rewrite E. simpl. now exists (segments p).
  - destruct (parentOf_cut (Some p) Hne) as (pre & post & Hn & _ & ->).
    exists (segments post).
    rewrite <- (segments_normalize p), Hn, segments_append_slash.
    f_equal. destruct pre; reflexivity.
Qed.

End ParentOf.

(* ================================================================== *)
(** ** findNode                                                        *)
(* ================================================================== *)

Section FindNode.

Variable tree : TreeNode.

(** [findNode] walks the segments of its argument; the shortcut for the
    root agrees with the loop. *)
Lemma findNode_descend (p : string) :
  findNode tree (Some p) = descend tree (segments p).
Proof.
  unfold findNode. rewrite <- (segments_normalize p).
  destruct (String.eqb (normalize (Some p)) "/") eqn:E; [|reflexivity].
  apply String.eqb_eq in E. now rewrite E.
Qed.

Lemma findNode_null : findNode tree None = Some tree.
Proof. reflexivity. Qed.

Lemma findNode_normalize (p : string) :
  findNode tree (Some (normalize (Some p))) = findNode tree (Some p).
Proof. now rewrite !findNode_descend, segments_normalize. Qed.

Lemma findNode_join (xs : list string) :
  Forall (fun x => valid_name x = true) xs ->
  findNode tree (Some ("/" ++ Js.join "/" xs)) = descend tree xs.
Proof. intros H. now rewrite findNode_descend, segments_absolute_join. Qed.

End FindNode.

Lemma descend_app (t : TreeNode) (a b : list string) :
  descend t (a ++ b)
  = match descend t a with
    | Some m => descend m b
    | None => None
    end.
Proof.
  revert t. induction a as [|x a IH]; intros t; simpl; [reflexivity|].
  destruct (node_children t) as [cs|]; [|reflexivity].
  destruct (find_child cs x) as [c|]; [apply IH | reflexivity].
Qed.

(** Lookup is prefix closed: below a node that resolves, the parent
    resolves too. *)
Lemma findNode_parent (t : TreeNode) (p : string) (n : TreeNode) :
  findNode t (Some p) = Some n ->
  exists m, findNode t (Some (Js.or_else (parentOf (Some p)) "/")) = Some m.
Proof.
  rewrite !findNode_descend. destruct (parent_segments p) as [rest ->].
  rewrite descend_app.
  destruct (descend t (segments _)) as [m|]; [eauto | discriminate].
Qed.

(* ================================================================== *)
(** ** Running the handler monad                                       *)
(* ================================================================== *)

Section MonadFacts.

Lemma bind_normal {A B} (m : M A) (f : A -> M B) s a s' ev :
  m s = (Normal a, s', ev) ->
  bind m f s = (fst (fst (f a s')), snd (fst (f a s')), (ev ++ snd (f a s'))%list).
Proof. unfold bind. intros ->. now destruct (f a s') as [[c s''] ev']. Qed.

Lemma bind_silent {A B} (m : M A) (f : A -> M B) s a s' :
  m s = (Normal a, s', []) -> bind m f s = f a s'.
Proof. unfold bind. intros ->. now destruct (f a s') as [[c s''] ev']. Qed.

Lemma bind_throw {A B} (m : M A) (f : A -> M B) s s' ev :
  m s = (Throw, s', ev) -> bind m f s = (Throw, s', ev).
Proof. unfold bind. now intros ->. Qed.

Lemma bind_gets {A B} (g : Picker -> A) (f : A -> M B) s :
  bind (gets g) f s = f (g s) s.
Proof. now apply bind_silent. Qed.

Lemma bind_modify {B} (g : Picker -> Picker) (f : unit -> M B) s :
  bind (modify g) f s = f tt (g s).
Proof. now apply bind_silent. Qed.

Lemma bind_ret {A B} (a : A) (f : A -> M B) s : bind (ret a) f s = f a s.
Proof. now apply bind_silent. Qed.

Lemma bind_renderColumn {B} id items (f : unit -> M B) s :
  bind (renderColumn id items) f s = f tt (set_column id items s).
Proof. now apply bind_silent. Qed.

Lemma makeBreadcrumbSegment_run l p s :
  makeBreadcrumbSegment l p s
  = (Normal (mkCrumb l p (String.eqb (normalize (Some p))
                            (normalize (selectedPath s)))), s, []).
Proof. reflexivity. Qed.

Lemma breadcrumbSegments_run parts : forall current s,
  exists bar, breadcrumbSegments current parts s = (Normal bar, s, []).
Proof.
  induction parts as [|p rest IH]; intros current s; simpl.
  - now exists [].
  - rewrite (bind_silent _ _ _ _ _ (makeBreadcrumbSegment_run _ _ _)).
    destruct (IH (current ++ "/" ++ p) s) as [more Hmore].
    rewrite (bind_silent _ _ _ _ _ Hmore). eexists. reflexivity.
Qed.

(** [updateBreadcrumb] only repaints the breadcrumb bar. *)
Lemma updateBreadcrumb_run p s :
  exists bar, updateBreadcrumb p s = (Normal tt, set_breadcrumb bar s, []).
Proof.
  unfold updateBreadcrumb.
  destruct (List.length (segments (normalize p)) =? 0)%nat.
  - rewrite (bind_silent _ _ _ _ _ (makeBreadcrumbSegment_run _ _ _)).
    eexists. reflexivity.
  - destruct (breadcrumbSegments_run (segments (normalize p)) "" s)
      as [bar Hbar].
    rewrite (bind_silent _ _ _ _ _ Hbar). eexists. reflexivity.
Qed.

Lemma bind_updateBreadcrumb {B} p (f : unit -> M B) s :
  exists bar, bind (updateBreadcrumb p) f s = f tt (set_breadcrumb bar s).
Proof.
  destruct (updateBreadcrumb_run p s) as [bar H]. exists bar.
  now apply bind_silent.
Qed.

End MonadFacts.

Ltac step_updateBreadcrumb :=
  match goal with
  | |- context [bind (updateBreadcrumb ?p) ?f ?s] =>
      let bar := fresh "bar" in
      let H := fresh "Hbar" in
      destruct (bind_updateBreadcrumb p f s) as [bar H]; rewrite H; clear H
  | |- context [updateBreadcrumb ?p ?s] =>
      let bar := fresh "bar" in
      let H := fresh "Hbar" in
      destruct (updateBreadcrumb_run p s) as [bar H]; rewrite H; clear H
  end.

Ltac exec :=
  repeat first
    [ rewrite bind_gets
    | rewrite bind_modify
    | rewrite bind_ret
    | rewrite bind_renderColumn
    | step_updateBreadcrumb ].

Section JumpToPath.

Variables (full : option string) (flag : bool) (s : Picker).

Let parts := segments (normalize full).
Let visible :=
  if (List.length parts <=? 3)%nat then parts else Js.aslice_from parts (-3).
Let parentPath :=
  if (3 <? List.length parts)%nat then
    "/" ++ Js.join "/"
      (Js.aslice parts 0
         (Z.of_nat (List.length parts) - Z.of_nat (List.length visible)))
  else "/".

(** What [jumpToPath] leaves behind. *)
Lemma jumpToPath_run :
  exists bar,
    jumpToPath full flag s
    = (if flag then pushHistory (normalize full) else ret tt)
        (set_breadcrumb bar
          (set_selectedPath (Some (normalize full))
            (set_column Col3
               (if (3 <=? List.length visible)%nat
                then children_or_empty
                       (findNode (fullTree s)
                          (Some ("/" ++ Js.join "/" (Js.aslice visible 0 3))))
                else [])
               (set_column Col2
                  (if (2 <=? List.length visible)%nat
                   then children_or_empty
                          (findNode (fullTree s)
                             (Some ("/" ++ Js.join "/" (Js.aslice visible 0 2))))
                   else [])
                  (set_column Col1
                     (children_or_empty
                        (findNode (fullTree s) (Some parentPath))) s))))).
Proof.
  unfold jumpToPath. fold parts. fold visible.
  assert (Hpp :
    (if (3 <? List.length parts)%nat then
       (if String.eqb ("/" ++ Js.join "/"
              (Js.aslice parts 0
                 (Z.of_nat (List.length parts) - Z.of_nat (List.length visible)))) ""
        then "/"
        else "/" ++ Js.join "/"
               (Js.aslice parts 0
                  (Z.of_nat (List.length parts) - Z.of_nat (List.length visible))))
     else "/") = parentPath).
  { unfold parentPath. destruct (3 <? List.length parts)%nat; reflexivity. }
  rewrite Hpp. clear Hpp.
  exec.
  destruct (2 <=? List.length visible)%nat, (3 <=? List.length visible)%nat;
    exec; eexists; reflexivity.
Qed.

End JumpToPath.

(* ================================================================== *)
(** ** Array slices                                                    *)
(* ================================================================== *)

Section Slices.

Context {A : Type}.

Lemma aslice_prefix (l : list A) (e : Z) :
  0 <= e -> Js.aslice l 0 e = firstn (Z.to_nat e) l.
Proof.
  intros He. unfold Js.aslice, Js.rel_index.
  replace (0 <? 0) with false by reflexivity.
  replace (e <? 0) with false by (symmetry; apply Z.ltb_ge; lia).
  rewrite (Z.min_l 0) by lia. rewrite Z.sub_0_r. simpl skipn.
  destruct (Z.le_ge_cases e (Z.of_nat (List.length l))) as [Hle | Hge].
  - now rewrite Z.min_l by lia.
  - rewrite Z.min_r by lia. rewrite Nat2Z.id.
    rewrite firstn_all. symmetry. apply firstn_all2. lia.
Qed.

Lemma aslice_from_last3 (l : list A) :
  (3 <= List.length l)%nat ->
  Js.aslice_from l (-3) = skipn (List.length l - 3) l.
Proof.
  intros Hl. unfold Js.aslice_from, Js.aslice, Js.rel_index.
  replace (-3 <? 0) with true by reflexivity.
  replace (Z.of_nat (List.length l) <? 0) with false
    by (symmetry; apply Z.ltb_ge; lia).
  rewrite Z.max_l by lia. rewrite Z.min_l by lia.
  replace (Z.to_nat (Z.of_nat (List.length l) + -3))
    with (List.length l - 3)%nat by lia.
  apply firstn_all2. rewrite length_skipn. lia.
Qed.

End Slices.

Lemma Forall_firstn_skipn {A} (P : A -> Prop) (n : nat) (l : list A) :
  Forall P l -> Forall P (firstn n l) /\ Forall P (skipn n l).
Proof. intros H. apply Forall_app. now rewrite firstn_skipn. Qed.

(** What [populated] says about the [k]-th ancestor. *)
Lemma populated_prefix (tree : TreeNode) (parts : list string) (k : nat) :
  populated tree parts = true -> (k <= List.length parts)%nat ->
  exists name path c cs,
    descend tree (firstn k parts) = Some (Directory name path (c :: cs)).
Proof.
  unfold populated. intros H Hk.
  pose proof (proj1 (forallb_forall _ _) H k) as Hk'.
  assert (Hin : In k (seq 0 (S (List.length parts)))) by (apply in_seq; lia).
  specialize (Hk' Hin). cbv beta in Hk'.
  destruct (descend tree (firstn k parts)) as [n|]; [|discriminate].
  destruct n as [name path children | |]; try discriminate.
  destruct children as [|c cs]; [discriminate|].
  now exists name, path, c, cs.
Qed.

(* ================================================================== *)
(** ** The columns after a jump                                        *)
(* ================================================================== *)

Section JumpColumns.

Variables (full : string) (flag : bool) (s : Picker).

Let tree := fullTree s.
Let parts := segments full.
Let k := List.length parts.
Let visible := if (k <=? 3)%nat then parts else skipn (k - 3) parts.

Lemma optional_push_frame (p : string) (s' : Picker) :
  let r := (if flag then pushHistory p else ret tt) s' in
  completed r = true /\ emitted r = [] /\
  columns (after r) = columns s' /\
  selectedPath (after r) = selectedPath s' /\
  fullTree (after r) = fullTree s'.
Proof.
  destruct flag; [|repeat split; reflexivity].
  unfold pushHistory, modify, after, columns, completed, emitted. simpl.
  destruct (historyIndex s' <? _); repeat split; reflexivity.
Qed.

(** The three columns after [jumpToPath], in terms of the walk from the
    root: column 1 lists the ancestor that holds the first visible
    segment; columns 2 and 3 walk the first two and three *visible*
    segments from the root. *)
Lemma jumpToPath_columns :
  let r := jumpToPath (Some full) flag s in
  completed r = true /\ emitted r = [] /\
  selectedPath (after r) = Some (normalize (Some full)) /\
  col1 (after r) = children_or_empty (descend tree (firstn (k - 3) parts)) /\
  col2 (after r)
  = (if (2 <=? List.length visible)%nat
     then children_or_empty (descend tree (firstn 2 visible)) else []) /\
  col3 (after r)
  = (if (3 <=? List.length visible)%nat
     then children_or_empty (descend tree (firstn 3 visible)) else []).
Proof.
  intros r. subst r.
  destruct (jumpToPath_run (Some full) flag s) as [bar Hrun].
  cbv zeta in Hrun. rewrite !segments_normalize in Hrun.
  fold parts in Hrun. fold k in Hrun. fold tree in Hrun.
  pose proof (segments_valid full) as Hval. fold parts in Hval.
  assert (Hvis : (if (k <=? 3)%nat then parts else Js.aslice_from parts (-3))
                 = visible).
  { unfold visible. destruct (k <=? 3)%nat eqn:E; [reflexivity|].
    apply Nat.leb_gt in E. apply aslice_from_last3. unfold k in E. lia. }
  rewrite Hvis in Hrun.
  assert (Hvval : Forall (fun x => valid_name x = true) visible).
  { unfold visible. destruct (k <=? 3)%nat; [assumption|].
    now apply Forall_firstn_skipn. }
  rewrite (aslice_prefix visible 2), (aslice_prefix visible 3) in Hrun by lia.
  change (Z.to_nat 2) with 2%nat in Hrun.
  change (Z.to_nat 3) with 3%nat in Hrun.
  rewrite !findNode_join in Hrun
    by (apply Forall_firstn_skipn; assumption).
  assert (Hparent :
    findNode tree
      (Some (if (3 <? k)%nat
             then "/" ++ Js.join "/"
                    (Js.aslice parts 0
                       (Z.of_nat k - Z.of_nat (List.length visible)))
             else "/"))
    = descend tree (firstn (k - 3) parts)).
  { destruct (3 <? k)%nat eqn:E.
    - apply Nat.ltb_lt in E.
      assert (Hlen : List.length visible = 3%nat).
      { unfold visible.
        replace (k <=? 3)%nat with false by (symmetry; apply Nat.leb_gt; lia).
        rewrite length_skipn. fold k. lia. }
      rewrite Hlen, aslice_prefix by lia.
      rewrite findNode_join by (apply Forall_firstn_skipn; assumption).
      f_equal. f_equal. lia.
    - apply Nat.ltb_ge in E. replace (k - 3)%nat with 0%nat by lia.
      reflexivity. }
  rewrite Hparent in Hrun. rewrite Hrun.
  destruct (optional_push_frame (normalize (Some full))
              (set_breadcrumb bar
                 (set_selectedPath (Some (normalize (Some full)))
                    (set_column Col3
                       (if (3 <=? List.length visible)%nat
                        then children_or_empty (descend tree (firstn 3 visible))
                        else [])
                       (set_column Col2
                          (if (2 <=? List.length visible)%nat
                           then children_or_empty (descend tree (firstn 2 visible))
                           else [])
                          (set_column Col1
                             (children_or_empty
                                (descend tree (firstn (k - 3) parts))) s))))))
    as (Hc & He & Hcols & Hsel & _).
  unfold columns in Hcols. simpl in Hcols. injection Hcols as H1 H2 H3.
  repeat split; assumption.
Qed.

End JumpColumns.

(* ================================================================== *)
(** ** Double-click sliding                                            *)
(* ================================================================== *)

Section Sliding.

Variables (s : Picker) (p : string) (node : TreeNode).

Let tree := fullTree s.
Let parent := Js.or_else (parentOf (Some p)) "/".
Let grandparent := Js.or_else (parentOf (Some parent)) "/".

Hypothesis p_normal : normalize (Some p) = p.
Hypothesis p_resolves : findNode tree (Some p) = Some node.

Lemma parent_resolves : exists m, findNode tree (Some parent) = Some m.
Proof. exact (findNode_parent tree p node p_resolves). Qed.

Lemma grandparent_resolves :
  exists g, findNode tree (Some grandparent) = Some g.
Proof.
  destruct parent_resolves as [m Hm].
  exact (findNode_parent tree parent m Hm).
Qed.

(** [slideLeft] does not throw below a node that resolves. *)
Lemma slideLeft_run :
  slideLeft p s
  = (Normal tt,
     set_column Col3 (children_or_empty (findNode tree (Some p)))
       (set_column Col2 (children_or_empty (findNode tree (Some parent)))
          (set_column Col1
             (children_or_empty (findNode tree (Some grandparent))) s)),
     []).
Proof.
  unfold slideLeft. rewrite p_normal. fold parent. fold grandparent.
  rewrite bind_gets. fold tree.
  destruct parent_resolves as [m Hm]. destruct grandparent_resolves as [g Hg].
  rewrite Hm, Hg, p_resolves. cbn [children_of].
  repeat (rewrite ?bind_ret, ?bind_renderColumn). reflexivity.
Qed.

(** [slideRight] does not throw below a node that resolves. *)
Lemma slideRight_run :
  slideRight p s
  = (Normal tt,
     (if String.eqb parent "/"
      then set_column Col3 []
             (set_column Col2 (children_or_empty (findNode tree (Some p)))
                (set_column Col1
                   (children_or_empty (findNode tree (Some parent))) s))
      else set_column Col3 (children_or_empty (findNode tree (Some p)))
             (set_column Col2 (children_or_empty (findNode tree (Some parent)))
                (set_column Col1
                   (children_or_empty (findNode tree (Some grandparent))) s))),
     []).
Proof.
  unfold slideRight. rewrite p_normal. fold parent. fold grandparent.
  rewrite bind_gets. fold tree.
  destruct parent_resolves as [m Hm]. destruct grandparent_resolves as [g Hg].
  rewrite Hm, Hg, p_resolves. cbn [children_of].
  destruct (String.eqb parent "/");
    repeat (rewrite ?bind_ret, ?bind_renderColumn); reflexivity.
Qed.

End Sliding.

Lemma pushHistory_frame (p : string) (s : Picker) :
  completed (pushHistory p s) = true /\
  emitted (pushHistory p s) = [] /\
  col1 (after (pushHistory p s)) = col1 s /\
  col2 (after (pushHistory p s)) = col2 s /\
  col3 (after (pushHistory p s)) = col3 s /\
  selectedPath (after (pushHistory p s)) = selectedPath s /\
  fullTree (after (pushHistory p s)) = fullTree s /\
  breadcrumb (after (pushHistory p s)) = breadcrumb s.
Proof.
  unfold pushHistory, modify, after, completed, emitted. simpl.
  destruct (historyIndex s <? _); repeat split; reflexivity.
Qed.

(** A double click on a directory row whose path resolves: the slide of
    its column, then the selection, the breadcrumb and the history. *)
Lemma handleDoubleClickItem_run (colId : ColId) (item : TreeNode)
      (s : Picker) (p : string) (node : TreeNode) :
  is_file item = false ->
  node_path item = Some p ->
  normalize (Some p) = p ->
  findNode (fullTree s) (Some p) = Some node ->
  exists bar s',
    match colId with
    | Col1 => slideRight p s
    | Col2 => renderColumn Col3 (children_or_empty (Some node)) s
    | Col3 => slideLeft p s
    end = (Normal tt, s', []) /\
    handleDoubleClickItem colId item s
    = pushHistory p (set_breadcrumb bar (set_selectedPath (Some p) s')).
Proof.
  intros Hfile Hpath Hnorm Hnode.
  unfold handleDoubleClickItem. rewrite Hfile, Hpath, Hnorm.
  rewrite bind_gets, Hnode.
  destruct colId.
  - pose proof (slideRight_run s p node Hnorm Hnode) as Hrun.
    cbv zeta in Hrun.
    rewrite (bind_silent _ _ _ _ _ Hrun). exec.
    eexists. eexists. split; [exact Hrun | reflexivity].
  - assert (Hrun :
      (cs <- children_of (Some node) ;; renderColumn Col3 (or_empty cs)) s
      = (Normal tt, set_column Col3 (children_or_empty (Some node)) s, []))
      by reflexivity.
    rewrite (bind_silent _ _ _ _ _ Hrun). exec.
    eexists. eexists. split; reflexivity.
  - pose proof (slideLeft_run s p node Hnorm Hnode) as Hrun.
    cbv zeta in Hrun.
    rewrite (bind_silent _ _ _ _ _ Hrun). exec.
    eexists. eexists. split; [exact Hrun | reflexivity].
Qed.

(* ================================================================== *)
(** ** History                                                         *)
(* ================================================================== *)

Section History.

(** [pushHistory] with the index inside the log: the forward entries are
    dropped, the path is appended and the index moves onto it. *)
Lemma pushHistory_history (p : string) (s : Picker) :
  -1 <= historyIndex s < Z.of_nat (List.length (history s)) ->
  history (after (pushHistory p s))
  = (firstn (Z.to_nat (historyIndex s + 1)) (history s) ++ [p])%list /\
  historyIndex (after (pushHistory p s)) = historyIndex s + 1.
Proof.
  intros Hi. unfold pushHistory, modify, after. simpl.
  destruct (historyIndex s <? Z.of_nat (List.length (history s)) - 1) eqn:E;
    simpl.
  - apply Z.ltb_lt in E. rewrite aslice_prefix by lia.
    split; [reflexivity|].
    rewrite length_app, length_firstn. simpl. lia.
  - apply Z.ltb_ge in E.
    replace (Z.to_nat (historyIndex s + 1)) with (List.length (history s))
      by lia.
    rewrite firstn_all. split; [reflexivity|].
    rewrite length_app. simpl. lia.
Qed.

(** Whatever the object looked like, [pushHistory] ends with a non-empty
    log and the index on its last entry. *)
Lemma pushHistory_pushed (p : string) (s : Picker) :
  history (after (pushHistory p s)) <> [] /\
  historyIndex (after (pushHistory p s))
  = Z.of_nat (List.length (history (after (pushHistory p s)))) - 1.
Proof.
  unfold pushHistory, modify, after. simpl.
  destruct (historyIndex s <? Z.of_nat (List.length (history s)) - 1); simpl;
    (split; [|reflexivity]); intros H; apply app_eq_nil in H;
    destruct H; discriminate.
Qed.

Lemma jumpToPath_history (full : option string) (flag : bool) (s : Picker) :
  let s' := after (jumpToPath full flag s) in
  selectedPath s' = Some (normalize full) /\
  fullTree s' = fullTree s /\
  (flag = false ->
   history s' = history s /\ historyIndex s' = historyIndex s) /\
  (flag = true ->
   history s' = history (after (pushHistory (normalize full) s)) /\
   historyIndex s' = historyIndex (after (pushHistory (normalize full) s))).
Proof.
  destruct (jumpToPath_run full flag s) as [bar Hrun]. cbv zeta in Hrun.
  cbv zeta. rewrite Hrun. clear Hrun.
  destruct flag.
  - unfold pushHistory, modify, after. simpl.
    destruct (historyIndex s <? _); repeat split; try reflexivity;
      discriminate.
  - repeat split; try reflexivity; discriminate.
Qed.

Lemma back_at_start (s : Picker) :
  historyIndex s <= 0 -> back s = (Normal tt, s, []).
Proof.
  intros H. unfold back. rewrite bind_gets.
  replace (historyIndex s <=? 0) with true
    by (symmetry; apply Z.leb_le; lia).
  reflexivity.
Qed.

Lemma back_run (s : Picker) :
  0 < historyIndex s ->
  back s
  = jumpToPath (at_index (history s) (historyIndex s - 1)) false
      (set_historyIndex (historyIndex s - 1) s).
Proof.
  intros H. unfold back. rewrite bind_gets.
  replace (historyIndex s <=? 0) with false
    by (symmetry; apply Z.leb_gt; lia).
  rewrite bind_modify, bind_gets. reflexivity.
Qed.

Lemma back_history (s : Picker) :
  0 < historyIndex s ->
  history (after (back s)) = history s /\
  historyIndex (after (back s)) = historyIndex s - 1 /\
  selectedPath (after (back s))
  = Some (normalize (at_index (history s) (historyIndex s - 1))).
Proof.
  intros H. rewrite (back_run s H).
  destruct (jumpToPath_history
              (at_index (history s) (historyIndex s - 1)) false
              (set_historyIndex (historyIndex s - 1) s))
    as (Hsel & _ & Hkeep & _).
  destruct (Hkeep eq_refl) as [Hh Hi].
  repeat split; assumption.
Qed.

End History.

(* ================================================================== *)
(** ** Relations that every call respects                              *)
(* ================================================================== *)

Section Respects.

Variable R : Picker -> Picker -> Prop.
Hypothesis R_refl : forall s, R s s.
Hypothesis R_trans : forall s1 s2 s3, R s1 s2 -> R s2 s3 -> R s1 s3.

Lemma respects_ret {A} (a : A) : respects R (ret a).
Proof. intros s. apply R_refl. Qed.

Lemma respects_gets {A} (g : Picker -> A) : respects R (gets g).
Proof. intros s. apply R_refl. Qed.

Lemma respects_dispatchEvent (e : Signal) : respects R (dispatchEvent e).
Proof. intros s. apply R_refl. Qed.

Lemma respects_throw {A} : respects R (@throwTypeError A).
Proof. intros s. apply R_refl. Qed.

Lemma respects_modify (g : Picker -> Picker) :
  (forall s, R s (g s)) -> respects R (modify g).
Proof. intros H s. apply H. Qed.

Lemma respects_bind {A B} (m : M A) (f : A -> M B) :
  respects R m -> (forall a, respects R (f a)) -> respects R (bind m f).
Proof.
  intros Hm Hf s. unfold bind, after. specialize (Hm s). unfold after in Hm.
  destruct (m s) as [[[a|] s'] ev]; simpl in *.
  - specialize (Hf a s'). unfold after in Hf.
    destruct (f a s') as [[c s''] ev']. simpl in *. eapply R_trans; eassumption.
  - exact Hm.
Qed.

Lemma respects_bind_gets {A B} (g : Picker -> A) (f : A -> M B) :
  (forall s, R s (after (f (g s) s))) -> respects R (bind (gets g) f).
Proof. intros H s. rewrite bind_gets. apply H. Qed.

Lemma respects_bind_children_of {B} (n : option TreeNode)
      (f : option (list TreeNode) -> M B) :
  (forall m, n = Some m -> respects R (f (node_children m))) ->
  respects R (bind (children_of n) f).
Proof.
  intros H s. destruct n as [m|].
  - cbn [children_of]. rewrite bind_ret. now apply H.
  - apply R_refl.
Qed.

Lemma respects_updateBreadcrumb (p : option string) :
  (forall bar s, R s (set_breadcrumb bar s)) ->
  respects R (updateBreadcrumb p).
Proof.
  intros H s. destruct (updateBreadcrumb_run p s) as [bar ->]. apply H.
Qed.

End Respects.

Section HistoryFootprint.

Lemma kept_refl (s : Picker) : history_kept_or_pushed s s.
Proof. left. auto. Qed.

Lemma kept_trans (s1 s2 s3 : Picker) :
  history_kept_or_pushed s1 s2 -> history_kept_or_pushed s2 s3 ->
  history_kept_or_pushed s1 s3.
Proof.
  intros [[H1 I1] | P1] [[H2 I2] | P2].
  - left. split; congruence.
  - now right.
  - right. rewrite H2, I2. exact P1.
  - now right.
Qed.

Lemma kept_hist_inv (s s' : Picker) :
  history_kept_or_pushed s s' -> hist_inv s -> hist_inv s'.
Proof.
  unfold hist_inv. intros [[H I] | [Hne I]] Hinv Hne'.
  - rewrite H, I in *. auto.
  - rewrite I. destruct (history s'); [congruence | cbn [List.length]; lia].
Qed.

Lemma pushHistory_kept (p : string) :
  respects history_kept_or_pushed (pushHistory p).
Proof. intros s. right. apply pushHistory_pushed. Qed.

Lemma renderColumn_kept (id : ColId) (items : list TreeNode) :
  respects history_kept_or_pushed (renderColumn id items).
Proof. intros s. left. split; reflexivity. Qed.

End HistoryFootprint.

(** Decomposes a handler into its calls, for a relation that is
    reflexive and transitive. *)
Ltac respects_steps Rrefl Rtrans :=
  repeat first
    [ progress cbv zeta
    | apply (respects_ret _ Rrefl)
    | apply (respects_gets _ Rrefl)
    | apply (respects_dispatchEvent _ Rrefl)
    | apply (respects_throw _ Rrefl)
    | apply pushHistory_kept
    | apply renderColumn_kept
    | apply respects_updateBreadcrumb;
        [intros; left; split; reflexivity]
    | apply respects_modify; intros; left; split; reflexivity
    | apply (respects_bind_children_of _ Rrefl); intros
    | apply (respects_bind _ Rtrans); [|intros]
    | match goal with
      | |- respects _ (if ?c then _ else _) => destruct c
      | |- respects _ (match ?x with _ => _ end) => destruct x
      end ].

Section HistoryInvariant.

Lemma jumpToPath_kept (full : option string) (flag : bool) :
  respects history_kept_or_pushed (jumpToPath full flag).
Proof. unfold jumpToPath. respects_steps kept_refl kept_trans. Qed.

Lemma slideLeft_kept (p : string) :
  respects history_kept_or_pushed (slideLeft p).
Proof. unfold slideLeft. respects_steps kept_refl kept_trans. Qed.

Lemma slideRight_kept (p : string) :
  respects history_kept_or_pushed (slideRight p).
Proof. unfold slideRight. respects_steps kept_refl kept_trans. Qed.

Lemma navigateFromBreadcrumb_kept (p : string) :
  respects history_kept_or_pushed (navigateFromBreadcrumb p).
Proof. unfold navigateFromBreadcrumb. respects_steps kept_refl kept_trans. Qed.

Lemma handleDoubleClickItem_kept (colId : ColId) (item : TreeNode) :
  respects history_kept_or_pushed (handleDoubleClickItem colId item).
Proof.
  unfold handleDoubleClickItem.
  respects_steps kept_refl kept_trans.
Qed.

Lemma loadTree_kept (root : list (string * Handle)) :
  respects history_kept_or_pushed (loadTree root).
Proof. unfold loadTree. respects_steps kept_refl kept_trans. Qed.

Lemma back_hist_inv (s : Picker) : hist_inv s -> hist_inv (after (back s)).
Proof.
  intros Hinv. destruct (Z.le_gt_cases (historyIndex s) 0) as [Hle | Hgt].
  - now rewrite (back_at_start s Hle).
  - destruct (back_history s) as (Hh & Hi & _); [lia|].
    unfold hist_inv in *. rewrite Hh, Hi. intros Hne.
    specialize (Hinv Hne). lia.
Qed.

Lemma step_hist_inv (a : Action) (s : Picker) :
  hist_inv s -> hist_inv (after (step a s)).
Proof.
  intros Hinv. destruct a; cbn [step].
  - exact (kept_hist_inv _ _ (loadTree_kept root s) Hinv).
  - rewrite bind_gets. destruct (nth_error (column col s) row); exact Hinv.
  - rewrite bind_gets. destruct (nth_error (column col s) row) as [item|].
    + exact (kept_hist_inv _ _ (handleDoubleClickItem_kept col item s) Hinv).
    + exact Hinv.
  - rewrite bind_gets. destruct (nth_error (breadcrumb s) segment) as [c|].
    + exact (kept_hist_inv _ _ (navigateFromBreadcrumb_kept (target c) s) Hinv).
    + exact Hinv.
  - exact Hinv.
  - unfold openBtn_onclick. rewrite bind_gets.
    destruct (selectedPath s) as [p|]; [|exact Hinv].
    destruct (negb (Js.truthy p)); exact Hinv.
  - now apply back_hist_inv.
  - unfold upBtn_onclick. rewrite bind_gets.
    destruct (parentOf _) as [p|]; [|exact Hinv].
    destruct (Js.truthy p); [|exact Hinv].
    exact (kept_hist_inv _ _ (jumpToPath_kept (Some p) true s) Hinv).
  - unfold pathInput_keydown. destruct (String.eqb key "Enter"); [|exact Hinv].
    destruct (Js.truthy (Js.trim value)); [|exact Hinv].
    exact (kept_hist_inv _ _ (jumpToPath_kept _ true s) Hinv).
Qed.

Lemma run_hist_inv (actions : list Action) :
  forall s, hist_inv s -> hist_inv (run actions s).
Proof.
  induction actions as [|a rest IH]; intros s Hinv; simpl; [exact Hinv|].
  apply IH. now apply step_hist_inv.
Qed.

End HistoryInvariant.

(* ================================================================== *)
(** ** Snapshots built by dirtree                                      *)
(* ================================================================== *)

Section Snapshot.

(** Induction on handles through the entries of a directory. *)
Lemma Handle_entries_ind (P : Handle -> Prop) :
  P FileSystemFileHandle ->
  (forall entries,
      Forall (fun e => P (snd e)) entries ->
      P (FileSystemDirectoryHandle entries)) ->
  forall h, P h.
Proof.
  intros Hfile Hdir. fix IH 1. intros [|entries].
  - exact Hfile.
  - apply Hdir. induction entries as [|[n h] rest IHrest].
    + constructor.
    + constructor; [apply IH | exact IHrest].
Qed.

Lemma truthy_absolute (a b : string) : Js.truthy (a ++ String "/" b) = true.
Proof. destruct a; reflexivity. Qed.

Lemma walk_paths_truthy (h : Handle) :
  forall name currentPath,
    Js.truthy currentPath = true ->
    paths_truthy (walk h name currentPath) = true.
Proof.
  induction h as [|entries IH] using Handle_entries_ind;
    intros name currentPath Hcp.
  - simpl. now rewrite Hcp.
  - cbn [walk paths_truthy]. rewrite Hcp. cbn [andb].
    induction IH as [|[n h] rest Hh Hrest IHrest]; [reflexivity|].
    cbn [forallb]. rewrite IHrest, andb_true_r.
    assert (Hchild : Js.truthy
              (if String.eqb currentPath "/" then "/" ++ n
               else currentPath ++ "/" ++ n) = true).
    { destruct (String.eqb currentPath "/"); [reflexivity|].
      apply truthy_absolute. }
    destruct h as [|sub].
    + exact Hchild.
    + apply Hh. exact Hchild.
Qed.

Lemma dirtree_root (root : list (string * Handle)) :
  dirtree root "/" = Some (walk (FileSystemDirectoryHandle root) "" "/").
Proof. reflexivity. Qed.

End Snapshot.

(* ================================================================== *)
(** ** The selection is never the empty string                         *)
(* ================================================================== *)

Section Selectable.

Lemma normalize_truthy (p : option string) : normalize p <> "".
Proof.
  destruct p as [s|]; [|discriminate].
  destruct (string_dec s "") as [-> | Hs]; [discriminate|].
  destruct (normalize_cases s Hs)
    as (p1 & Hp1 & _ & _ & [[-> _] | (q & _ & Hq & ->)]); assumption.
Qed.

Lemma paths_truthy_children (n : TreeNode) :
  paths_truthy n = true ->
  forallb paths_truthy (or_empty (node_children n)) = true.
Proof.
  destruct n as [name path cs | |]; simpl; try reflexivity.
  intros H. now apply andb_true_iff in H.
Qed.

Lemma paths_truthy_descend (parts : list string) :
  forall t n,
    paths_truthy t = true -> descend t parts = Some n ->
    paths_truthy n = true.
Proof.
  induction parts as [|p rest IH]; intros t n Ht; simpl.
  - now intros [= <-].
  - destruct (node_children t) as [cs|] eqn:Hcs; [|discriminate].
    destruct (find_child cs p) as [c|] eqn:Hc; [|discriminate].
    apply IH. unfold find_child in Hc. apply find_some in Hc.
    pose proof (paths_truthy_children t Ht) as Hall. rewrite Hcs in Hall.
    simpl in Hall. apply (proj1 (forallb_forall _ _) Hall). tauto.
Qed.

Lemma paths_truthy_findNode (t : TreeNode) (p : option string) (n : TreeNode) :
  paths_truthy t = true -> findNode t p = Some n -> paths_truthy n = true.
Proof.
  intros Ht. destruct p as [p|].
  - rewrite findNode_descend. now apply paths_truthy_descend.
  - now intros [= <-].
Qed.

Lemma paths_truthy_listing (t : TreeNode) (p : option string) :
  paths_truthy t = true ->
  forallb paths_truthy (children_or_empty (findNode t p)) = true.
Proof.
  intros Ht. destruct (findNode t p) as [n|] eqn:E; [|reflexivity].
  apply (paths_truthy_children n). eapply paths_truthy_findNode; eassumption.
Qed.

Lemma keeps_refl (s : Picker) : keeps_selectable s s.
Proof. intros H. exact H. Qed.

Lemma keeps_trans (s1 s2 s3 : Picker) :
  keeps_selectable s1 s2 -> keeps_selectable s2 s3 -> keeps_selectable s1 s3.
Proof. unfold keeps_selectable. auto. Qed.

Lemma renderColumn_selectable (id : ColId) (items : list TreeNode) :
  forallb paths_truthy items = true ->
  respects keeps_selectable (renderColumn id items).
Proof.
  intros Hitems s (Ht & H1 & H2 & H3 & Hsel).
  destruct id; repeat split; assumption.
Qed.

Lemma select_selectable (p : string) :
  p <> "" -> respects keeps_selectable (modify (set_selectedPath (Some p))).
Proof.
  intros Hp s (Ht & H1 & H2 & H3 & Hsel).
  repeat split; try assumption. simpl. congruence.
Qed.

Lemma pushHistory_selectable (p : string) :
  respects keeps_selectable (pushHistory p).
Proof.
  intros s (Ht & H1 & H2 & H3 & Hsel).
  destruct (pushHistory_frame p s) as (_ & _ & E1 & E2 & E3 & Es & Et & _).
  unfold selectable. rewrite E1, E2, E3, Es, Et. repeat split; assumption.
Qed.

Lemma bind_tree_selectable {B} (f : TreeNode -> M B) :
  (forall t, paths_truthy t = true -> respects keeps_selectable (f t)) ->
  respects keeps_selectable (bind (gets fullTree) f).
Proof.
  intros H s. rewrite bind_gets. intros Hsel.
  exact (H (fullTree s) (proj1 Hsel) s Hsel).
Qed.

End Selectable.

Ltac listing_ok :=
  first
    [ reflexivity
    | apply paths_truthy_listing; assumption
    | apply paths_truthy_children;
      eapply paths_truthy_findNode; [|eassumption]; assumption ].

Ltac selectable_steps :=
  repeat first
    [ progress cbv zeta
    | apply (respects_ret _ keeps_refl)
    | apply (respects_dispatchEvent _ keeps_refl)
    | apply (respects_throw _ keeps_refl)
    | apply pushHistory_selectable
    | apply renderColumn_selectable; listing_ok
    | apply select_selectable; apply normalize_truthy
    | apply respects_updateBreadcrumb;
        let H := fresh in intros ? ? H; exact H
    | apply respects_modify; let H := fresh in intros ? H; exact H
    | apply bind_tree_selectable; intros
    | apply (respects_bind_children_of _ keeps_refl); intros;
        try match goal with
            | H : Some ?a = Some ?b |- _ => injection H as H; subst b
            end
    | apply (respects_bind _ keeps_trans); [|intros]
    | match goal with
      | |- respects _ (if ?c then _ else _) => destruct c eqn:?
      | |- respects _ (match ?x with _ => _ end) => destruct x eqn:?
      end ].

Section SelectableHandlers.

Lemma jumpToPath_selectable (full : option string) (flag : bool) :
  respects keeps_selectable (jumpToPath full flag).
Proof. unfold jumpToPath. selectable_steps. Qed.

Lemma navigateFromBreadcrumb_selectable (p : string) :
  respects keeps_selectable (navigateFromBreadcrumb p).
Proof. unfold navigateFromBreadcrumb. selectable_steps. Qed.

Lemma handleDoubleClickItem_selectable (colId : ColId) (item : TreeNode) :
  respects keeps_selectable (handleDoubleClickItem colId item).
Proof. unfold handleDoubleClickItem. selectable_steps. Qed.

End SelectableHandlers.

Section SelectableReachable.

Lemma loadTree_selectable (root : list (string * Handle)) :
  respects keeps_selectable (loadTree root).
Proof.
  unfold loadTree. rewrite dirtree_root.
  set (tree := walk (FileSystemDirectoryHandle root) "" "/").
  assert (Htree : paths_truthy tree = true)
    by (apply walk_paths_truthy; reflexivity).
  apply (respects_bind _ keeps_trans); [|intros].
  - intros s (_ & H1 & H2 & H3 & Hsel). repeat split; assumption.
  - apply (respects_bind _ keeps_trans); [|intros].
    + apply renderColumn_selectable. now apply paths_truthy_children.
    + apply respects_updateBreadcrumb. intros bar s H. exact H.
Qed.

Lemma selectable_row (s : Picker) (col : ColId) (row : nat) (item : TreeNode) :
  selectable s -> nth_error (column col s) row = Some item ->
  node_path item <> Some "".
Proof.
  intros (_ & H1 & H2 & H3 & _) Hrow. apply nth_error_In in Hrow.
  assert (Hitem : paths_truthy item = true).
  { destruct col; simpl in Hrow;
      [ apply (proj1 (forallb_forall _ _) H1)
      | apply (proj1 (forallb_forall _ _) H2)
      | apply (proj1 (forallb_forall _ _) H3) ]; exact Hrow. }
  destruct item as [name path cs | name path |]; simpl in *;
    try discriminate.
  - apply andb_true_iff in Hitem. destruct Hitem as [Hp _].
    apply truthy_iff in Hp. congruence.
  - apply truthy_iff in Hitem. congruence.
Qed.

Lemma step_selectable (a : Action) (s : Picker) :
  selectable s -> selectable (after (step a s)).
Proof.
  intros Hsel. destruct a; cbn [step].
  - exact (loadTree_selectable root s Hsel).
  - rewrite bind_gets.
    destruct (nth_error (column col s) row) as [item|] eqn:Hrow;
      [|exact Hsel].
    pose proof (selectable_row s col row item Hsel Hrow) as Hitem.
    destruct Hsel as (Ht & H1 & H2 & H3 & _). repeat split; assumption.
  - rewrite bind_gets. destruct (nth_error (column col s) row) as [item|].
    + exact (handleDoubleClickItem_selectable col item s Hsel).
    + exact Hsel.
  - rewrite bind_gets. destruct (nth_error (breadcrumb s) segment) as [c|].
    + exact (navigateFromBreadcrumb_selectable (target c) s Hsel).
    + exact Hsel.
  - exact Hsel.
  - unfold openBtn_onclick. rewrite bind_gets.
    destruct (selectedPath s) as [p|]; [|exact Hsel].
    destruct (negb (Js.truthy p)); exact Hsel.
  - unfold backBtn_onclick.
    destruct (Z.le_gt_cases (historyIndex s) 0) as [Hle | Hgt].
    + now rewrite (back_at_start s Hle).
    + rewrite (back_run s Hgt). apply jumpToPath_selectable. exact Hsel.
  - unfold upBtn_onclick. rewrite bind_gets.
    destruct (parentOf _) as [p|]; [|exact Hsel].
    destruct (Js.truthy p); [|exact Hsel].
    exact (jumpToPath_selectable (Some p) true s Hsel).
  - unfold pathInput_keydown. destruct (String.eqb key "Enter"); [|exact Hsel].
    destruct (Js.truthy (Js.trim value)); [|exact Hsel].
    exact (jumpToPath_selectable _ true s Hsel).
Qed.

Lemma constructor_selectable : selectable constructor.
Proof. repeat split; try reflexivity. discriminate. Qed.

Lemma run_selectable (actions : list Action) :
  forall s, selectable s -> selectable (run actions s).
Proof.
  induction actions as [|a rest IH]; intros s Hsel; simpl; [exact Hsel|].
  apply IH. now apply step_selectable.
Qed.

(** The Open button on a truthy selection. *)
Lemma openBtn_run (s : Picker) (p : string) :
  selectedPath s = Some p -> p <> "" ->
  openBtn_onclick s = (Normal tt, s, [OpfsFile p]).
Proof.
  intros Hsel Hp. unfold openBtn_onclick. rewrite bind_gets, Hsel.
  apply truthy_iff in Hp. rewrite Hp. reflexivity.
Qed.

End SelectableReachable.

(* ================================================================== *)
(** ** Lookup in a snapshot                                            *)
(* ================================================================== *)

Section SnapshotLookup.

Lemma walk_children (entries : list (string * Handle))
      (name currentPath : string) :
  walk (FileSystemDirectoryHandle entries) name currentPath
  = Directory name currentPath (map (child_node currentPath) entries).
Proof.
  cbn [walk]. f_equal.
  induction entries as [|[n h] rest IH]; [reflexivity|].
  cbn [map]. rewrite <- IH. unfold child_node. cbn [fst snd].
  destruct h; reflexivity.
Qed.

Lemma child_node_name (cp : string) (e : string * Handle) :
  node_name (child_node cp e) = Some (fst e).
Proof. unfold child_node. destruct (snd e); reflexivity. Qed.

Lemma join_snoc (segs : list string) (x : string) :
  segs <> [] ->
  Js.join "/" (segs ++ [x]) = Js.join "/" segs ++ "/" ++ x.
Proof.
  induction segs as [|y rest IH]; [congruence | intros _].
  destruct rest as [|z rest'].
  - reflexivity.
  - change (Js.join "/" ((y :: z :: rest') ++ [x]))
      with (y ++ "/" ++ Js.join "/" ((z :: rest') ++ [x])).
    rewrite IH by discriminate.
    change (Js.join "/" (y :: z :: rest'))
      with (y ++ "/" ++ Js.join "/" (z :: rest')).
    now rewrite !append_assoc.
Qed.

Lemma path_of_root_iff (segs : list string) :
  Forall (fun x => valid_name x = true) segs ->
  (path_of segs = "/" <-> segs = []).
Proof.
  intros Hval. split; [|now intros ->].
  destruct segs as [|x rest]; [reflexivity|]. intros H. exfalso.
  inversion Hval as [|? ? Hx _]; subst.
  unfold valid_name in Hx. apply andb_true_iff in Hx. destruct Hx as [Hx _].
  apply truthy_iff in Hx.
  unfold path_of in H. destruct rest as [|y rest'].
  - simpl in H. destruct x; [congruence | discriminate].
  - change (Js.join "/" (x :: y :: rest'))
      with (x ++ "/" ++ Js.join "/" (y :: rest')) in H.
    destruct x; [congruence | discriminate].
Qed.

(** The path [walk] computes for a child. *)
Lemma child_path_of (segs : list string) (x : string) :
  Forall (fun x => valid_name x = true) segs ->
  (if String.eqb (path_of segs) "/" then "/" ++ x
   else path_of segs ++ "/" ++ x) = path_of (segs ++ [x]).
Proof.
  intros Hval. destruct segs as [|y rest]; [reflexivity|].
  destruct (String.eqb (path_of (y :: rest)) "/") eqn:E.
  - apply String.eqb_eq in E. apply (path_of_root_iff _ Hval) in E.
    discriminate.
  - unfold path_of. cbn [app].
    change (y :: rest ++ [x])%list with ((y :: rest) ++ [x])%list.
    rewrite join_snoc by discriminate. now rewrite append_assoc.
Qed.

Lemma segments_path_of (segs : list string) :
  Forall (fun x => valid_name x = true) segs ->
  segments (path_of segs) = segs.
Proof.
  intros Hval. destruct segs as [|x rest]; [reflexivity|].
  now apply segments_absolute_join.
Qed.

Lemma unique_head (x : string) (l : list string) :
  unique (x :: l) = true -> ~ In x l /\ unique l = true.
Proof.
  simpl. intros H. apply andb_true_iff in H. destruct H as [Hx Hl].
  split; [|exact Hl]. intros Hin. apply negb_true_iff in Hx.
  assert (Hex : existsb (String.eqb x) l = true).
  { apply existsb_exists. exists x. split; [exact Hin | apply String.eqb_refl]. }
  congruence.
Qed.

(** With unique names, looking a name up finds the node pushed for its
    entry. *)
Lemma find_child_entry (cp : string) (entries : list (string * Handle))
      (e : string * Handle) :
  unique (map fst entries) = true -> In e entries ->
  find_child (map (child_node cp) entries) (fst e) = Some (child_node cp e).
Proof.
  induction entries as [|e0 rest IH]; intros Huniq Hin; [contradiction|].
  cbn [map] in *. apply unique_head in Huniq. destruct Huniq as [Hnot Hrest].
  unfold find_child. cbn [find]. rewrite child_node_name.
  destruct (String.eqb (fst e0) (fst e)) eqn:E.
  - apply String.eqb_eq in E. destruct Hin as [-> | Hin]; [reflexivity|].
    exfalso. apply Hnot. rewrite E. now apply in_map.
  - destruct Hin as [-> | Hin].
    + rewrite String.eqb_refl in E. discriminate.
    + now apply IH.
Qed.

Lemma wf_handle_entries (entries : list (string * Handle)) :
  wf_handle (FileSystemDirectoryHandle entries) = true ->
  unique (map fst entries) = true /\
  forall e, In e entries -> valid_name (fst e) = true /\ wf_handle (snd e) = true.
Proof.
  cbn [wf_handle]. intros H.
  apply andb_true_iff in H. destruct H as [H Hsub].
  apply andb_true_iff in H. destruct H as [Hval Huniq].
  split; [exact Huniq|]. intros e He. split.
  - apply (proj1 (forallb_forall _ _) Hval). now apply in_map.
  - exact (proj1 (forallb_forall _ _) Hsub e He).
Qed.

(** Every node of a snapshot is reached by walking the segments of its
    own path. *)
Lemma walk_present (h : Handle) :
  wf_handle h = true ->
  forall name segs,
    Forall (fun x => valid_name x = true) segs ->
    forall n,
      present (walk h name (path_of segs)) n ->
      exists more,
        Forall (fun x => valid_name x = true) more /\
        descend (walk h name (path_of segs)) more = Some n /\
        node_path n = Some (path_of (segs ++ more)).
Proof.
  induction h as [|entries IH] using Handle_entries_ind;
    intros Hwf name segs Hsegs n Hpresent.
  - inversion Hpresent as [|? ? ? c ? Hin _]; subst.
    + exists []. rewrite app_nil_r.
      split; [constructor|]. split; reflexivity.
    + contradiction.
  - rewrite walk_children in *.
    destruct (wf_handle_entries entries Hwf) as [Huniq Hentries].
    inversion Hpresent as [|? ? ? c ? Hin Hc]; subst.
    + exists []. rewrite app_nil_r.
      split; [constructor|]. split; reflexivity.
    + apply in_map_iff in Hin. destruct Hin as (e & <- & He).
      destruct (Hentries e He) as [Hname Hsub].
      assert (Hfind :
        descend (Directory name (path_of segs)
                   (map (child_node (path_of segs)) entries)) [fst e]
        = Some (child_node (path_of segs) e)).
      { cbn [descend node_children].
        now rewrite (find_child_entry _ _ _ Huniq He). }
      assert (Hsegs' : Forall (fun x => valid_name x = true) (segs ++ [fst e])).
      { apply Forall_app. split; [exact Hsegs|]. now constructor. }
      assert (Hchild :
        child_node (path_of segs) e
        = match snd e with
          | FileSystemFileHandle =>
              File (fst e) (path_of (segs ++ [fst e]))
          | FileSystemDirectoryHandle _ =>
              walk (snd e) (fst e) (path_of (segs ++ [fst e]))
          end).
      { unfold child_node. now rewrite (child_path_of segs (fst e) Hsegs). }
      rewrite Hchild in Hc, Hfind. clear Hchild.
      destruct (snd e) as [|sub] eqn:Hkind.
      * inversion Hc as [|? ? ? ? ? Hin' _]; subst.
        exists [fst e]. split; [now constructor|]. split; [exact Hfind|].
        reflexivity.
      * pose proof (proj1 (Forall_forall _ _) IH e He) as IHe.
        cbv beta in IHe. rewrite Hkind in IHe.
        destruct (IHe Hsub (fst e) (segs ++ [fst e])%list Hsegs' n Hc)
          as (more & Hmore & Hdesc & Hpath).
        exists (fst e :: more). split; [now constructor|]. split.
        -- change (fst e :: more) with ([fst e] ++ more)%list.
           rewrite descend_app, Hfind. exact Hdesc.
        -- rewrite Hpath. now rewrite <- app_assoc.
Qed.

End SnapshotLookup.

Lemma descend_present (parts : list string) :
  forall t n, descend t parts = Some n -> present t n.
Proof.
  induction parts as [|p rest IH]; intros t n; simpl.
  - intros [= <-]. constructor.
  - destruct t as [name path cs | |]; simpl; try discriminate.
    destruct (find_child cs p) as [c|] eqn:Hc; [|discriminate].
    intros Hrest. unfold find_child in Hc. apply find_some in Hc.
    eapply present_below; [exact (proj1 Hc) | now apply IH].
Qed.

(** The walk stops with [null] at a node without the next segment. *)
Lemma descend_missing (t m : TreeNode) (before rest : list string)
      (missing : string) :
  descend t before = Some m ->
  (forall c, In c (or_empty (node_children m)) -> node_name c <> Some missing) ->
  descend t (before ++ missing :: rest) = None.
Proof.
  intros Hm Hnone. rewrite descend_app, Hm. simpl.
  destruct (node_children m) as [cs|]; [|reflexivity].
  destruct (find_child cs missing) as [c|] eqn:Hc; [|reflexivity].
  exfalso. unfold find_child in Hc. apply find_some in Hc.
  destruct Hc as [Hin Hname]. apply (Hnone c Hin).
  destruct (node_name c) as [x|]; [|discriminate].
  apply String.eqb_eq in Hname. now subst.
Qed.

(* ================================================================== *)
(** ** The paths of a snapshot are normalized                          *)
(* ================================================================== *)

Section SnapshotPaths.

Lemma string_last (x : string) :
  x <> "" -> exists x' c, x = x' ++ String c "".
Proof.
  induction x as [|d x IH]; [congruence | intros _].
  destruct x as [|e x].
  - now exists "", d.
  - destruct IH as (x' & c & Hx); [discriminate|].
    exists (String d x'), c. simpl. now rewrite <- Hx.
Qed.

Lemma includes_last (x' : string) (c : ascii) :
  Js.includes (x' ++ String c "") "/" = false -> c <> "/"%char.
Proof.
  induction x' as [|d x' IH]; simpl; intros H;
    apply orb_false_iff in H; destruct H as [Hd Hrest].
  - now apply Ascii.eqb_neq.
  - now apply IH.
Qed.

Lemma endsWith_last (a : string) (c : ascii) :
  Js.endsWith (a ++ String c "") "/" = true -> c = "/"%char.
Proof.
  intros H. destruct (endsWith_inv _ _ H) as [q Hq].
  destruct (append_inj_length _ _ _ _ Hq eq_refl) as [_ E]. congruence.
Qed.

Lemma join_ends_with_last (segs : list string) (x : string) :
  exists pre, Js.join "/" (segs ++ [x]) = pre ++ x.
Proof.
  induction segs as [|y rest IH].
  - now exists "".
  - destruct IH as [pre Hpre]. exists (y ++ "/" ++ pre).
    destruct rest as [|z rest']; cbn [app] in *.
    + simpl in Hpre. change (Js.join "/" [y; x]) with (y ++ "/" ++ x).
      rewrite !append_assoc.
      assert (x = pre ++ x) as <- by exact Hpre. reflexivity.
    + change (Js.join "/" (y :: z :: (rest' ++ [x])%list))
        with (y ++ "/" ++ Js.join "/" (z :: (rest' ++ [x])%list)).
      rewrite Hpre. now rewrite !append_assoc.
Qed.

(** [normalize] leaves the path of a snapshot node alone. *)
Lemma normalize_path_of (segs : list string) :
  Forall (fun x => valid_name x = true) segs ->
  normalize (Some (path_of segs)) = path_of segs.
Proof.
  intros Hval. destruct segs as [|y rest] using rev_ind; [reflexivity|].
  clear IHrest. apply Forall_app in Hval. destruct Hval as [_ Hy].
  inversion Hy as [|? ? Hvalid _]; subst.
  unfold valid_name in Hvalid. apply andb_true_iff in Hvalid.
  destruct Hvalid as [Hne Hslash].
  apply truthy_iff in Hne. apply negb_true_iff in Hslash.
  destruct (string_last y Hne) as (y' & c & ->).
  apply includes_last in Hslash.
  assert (Hp : exists pre,
             path_of (rest ++ [y' ++ String c ""])
             = String "/" pre ++ String c "").
  { destruct (join_ends_with_last rest (y' ++ String c "")) as [pre Hpre].
    exists (pre ++ y')%string. unfold path_of.
    destruct (rest ++ [(y' ++ String c "")%string])%list eqn:E.
    - destruct rest; discriminate.
    - cbv beta iota. rewrite Hpre. simpl. now rewrite append_assoc. }
  destruct Hp as [pre ->].
  apply normalize_fixed;
    [discriminate
    | change (String "/" pre ++ String c "")
        with (String "/" (pre ++ String c ""));
      now rewrite startsWith_cons
    | right].
  destruct (Js.endsWith (String "/" pre ++ String c "") "/") eqn:E;
    [|reflexivity].
  apply endsWith_last in E. contradiction.
Qed.

Lemma snapshot_paths_normal (root : list (string * Handle))
      (tree n : TreeNode) (p : string) :
  dirtree root "/" = Some tree ->
  wf_handle (FileSystemDirectoryHandle root) = true ->
  present tree n -> node_path n = Some p ->
  normalize (Some p) = p.
Proof.
  intros Htree Hwf Hpresent Hp.
  rewrite dirtree_root in Htree. injection Htree as <-.
  destruct (walk_present _ Hwf "" [] (Forall_nil _) n Hpresent)
    as (more & Hmore & _ & Hn).
  cbn [app] in Hn. rewrite Hn in Hp. injection Hp as <-.
  now apply normalize_path_of.
Qed.

End SnapshotPaths.

(* ================================================================== *)
(** ** The depth-based jump                                            *)
(* ================================================================== *)

(** C1 (amended).  On a snapshot in which every node along the target
    path is a directory with at least one entry, [jumpToPath] on a path
    with [k] segments completes and column 1 lists the (non-empty)
    children of the ancestor at the first [k - 3] segments, the root when
    [k <= 3].  For [k <= 1] columns 2 and 3 are empty; for [k = 2] column
    2 lists the target's own children and column 3 is empty; for [k = 3]
    column 2 lists the children of the node at the first two segments and
    column 3 the target's own children, all three non-empty. *)
Theorem jumpToPath_depth_window (s : Picker) (full : string) (flag : bool) :
  let tree := fullTree s in
  let parts := segments full in
  let k := List.length parts in
  let r := jumpToPath (Some full) flag s in
  populated tree parts = true ->
  completed r = true /\
  col1 (after r) = children_or_empty (descend tree (firstn (k - 3) parts)) /\
  col1 (after r) <> [] /\
  ((k <= 1)%nat -> col2 (after r) = [] /\ col3 (after r) = []) /\
  (k = 2%nat ->
   col2 (after r) = children_or_empty (findNode tree (Some full)) /\
   col2 (after r) <> [] /\ col3 (after r) = []) /\
  (k = 3%nat ->
   col2 (after r) = children_or_empty (descend tree (firstn 2 parts)) /\
   col2 (after r) <> [] /\
   col3 (after r) = children_or_empty (findNode tree (Some full)) /\
   col3 (after r) <> []).
Proof.
  intros tree parts k r Hpop.
  destruct (jumpToPath_columns full flag s) as (Hc & _ & _ & H1 & H2 & H3).
  fold r tree parts k in Hc, H1, H2, H3.
  assert (Hlisted : forall n, (n <= k)%nat ->
            children_or_empty (descend tree (firstn n parts)) <> []).
  { intros n Hn.
    destruct (populated_prefix tree parts n Hpop Hn)
      as (name & path & c & cs & ->). discriminate. }
  assert (Htarget : findNode tree (Some full) = descend tree (firstn k parts)).
  { rewrite findNode_descend. fold parts. unfold k. now rewrite firstn_all. }
  split; [exact Hc|]. split; [exact H1|].
  split; [rewrite H1; apply Hlisted; lia|].
  split; [|split].
  - intros Hk. rewrite H2, H3.
    replace (k <=? 3)%nat with true by (symmetry; apply Nat.leb_le; lia).
    fold k.
    replace (2 <=? k)%nat with false by (symmetry; apply Nat.leb_gt; lia).
    replace (3 <=? k)%nat with false by (symmetry; apply Nat.leb_gt; lia).
    split; reflexivity.
  - intros Hk. rewrite H2, H3, Htarget.
    replace (k <=? 3)%nat with true by (symmetry; apply Nat.leb_le; lia).
    fold k. rewrite Hk. cbn [Nat.leb].
    split; [reflexivity|]. split; [|reflexivity]. apply Hlisted. lia.
  - intros Hk. rewrite H2, H3, Htarget.
    replace (k <=? 3)%nat with true by (symmetry; apply Nat.leb_le; lia).
    fold k. rewrite Hk. cbn [Nat.leb].
    split; [reflexivity|]. split; [apply Hlisted; lia|].
    split; [reflexivity|]. apply Hlisted. lia.
Qed.

Lemma jumpToPath_depth_window_witness :
  let r := jumpToPath (Some "/a/b/c") true sample_picker in
  populated (fullTree sample_picker) (segments "/a/b/c") = true /\
  col3 (after r)
  = children_or_empty (findNode (fullTree sample_picker) (Some "/a/b/c")) /\
  col3 (after r) <> [].
Proof.
  intros r.
  assert (Hpop : populated (fullTree sample_picker) (segments "/a/b/c") = true)
    by (vm_compute; reflexivity).
  split; [exact Hpop|].
  destruct (jumpToPath_depth_window sample_picker "/a/b/c" true Hpop)
    as (_ & _ & _ & _ & _ & H3).
  destruct (H3 eq_refl) as (_ & _ & Hcol3 & Hne).
  split; [exact Hcol3 | exact Hne].
Defined.

(** C1 (as stated) fails.  With one segment, the only non-empty column
    lists the root, not the target's own children; with four segments,
    columns 2 and 3 stay empty although every directory on the way is
    populated. *)
Lemma jumpToPath_depth_window_counterexample :
  let tree := fullTree sample_picker in
  (normalize (Some "/a") = "/a" /\
   List.length (segments "/a") = 1%nat /\
   populated tree (segments "/a") = true /\
   col1 (after (jumpToPath (Some "/a") true sample_picker))
   <> children_or_empty (findNode tree (Some "/a"))) /\
  (normalize (Some "/a/b/c/d") = "/a/b/c/d" /\
   List.length (segments "/a/b/c/d") = 4%nat /\
   populated tree (segments "/a/b/c/d") = true /\
   col2 (after (jumpToPath (Some "/a/b/c/d") true sample_picker)) = [] /\
   col3 (after (jumpToPath (Some "/a/b/c/d") true sample_picker)) = [] /\
   children_or_empty (findNode tree (Some "/a/b/c/d")) <> []).
Proof.
  cbv zeta. split.
  - repeat split; try (vm_compute; reflexivity).
    vm_compute. discriminate.
  - repeat split; try (vm_compute; reflexivity).
    vm_compute. discriminate.
Qed.

(* ================================================================== *)
(** ** Double click in column 1 and in column 3                        *)
(* ================================================================== *)

(** C2 (amended).  A double click in column 1 on a directory whose path
    is normalized and resolves in the snapshot completes without an
    exception.  When the parent is the root, column 1 lists the root,
    column 2 the clicked directory, and column 3 is empty.  Otherwise
    column 1 lists the grandparent [parentOf(parentOf(path))] (the root
    when there is none), column 2 the parent and column 3 the clicked
    directory itself. *)
Theorem dblclick_col1_slides_right
        (s : Picker) (item : TreeNode) (p : string) (node : TreeNode) :
  let tree := fullTree s in
  let parent := Js.or_else (parentOf (Some p)) "/" in
  let grandparent := Js.or_else (parentOf (Some parent)) "/" in
  let r := handleDoubleClickItem Col1 item s in
  is_file item = false ->
  node_path item = Some p ->
  normalize (Some p) = p ->
  findNode tree (Some p) = Some node ->
  completed r = true /\
  selectedPath (after r) = Some p /\
  (parent = "/" ->
   col1 (after r) = children_or_empty (findNode tree (Some "/")) /\
   col2 (after r) = children_or_empty (findNode tree (Some p)) /\
   col3 (after r) = []) /\
  (parent <> "/" ->
   col1 (after r) = children_or_empty (findNode tree (Some grandparent)) /\
   col2 (after r) = children_or_empty (findNode tree (Some parent)) /\
   col3 (after r) = children_or_empty (findNode tree (Some p))).
Proof.
  intros tree parent grandparent r Hfile Hpath Hnorm Hnode. subst r.
  destruct (handleDoubleClickItem_run Col1 item s p node Hfile Hpath Hnorm Hnode)
    as (bar & s' & Hslide & ->).
  rewrite (slideRight_run s p node Hnorm Hnode) in Hslide.
  cbv zeta in Hslide. fold tree parent grandparent in Hslide.
  injection Hslide as Hs'.
  destruct (pushHistory_frame p (set_breadcrumb bar (set_selectedPath (Some p) s')))
    as (Hc & _ & H1 & H2 & H3 & Hsel & _).
  split; [exact Hc|]. split; [exact Hsel|].
  rewrite H1, H2, H3. subst s'. split.
  - intros Hroot. rewrite Hroot. repeat split; reflexivity.
  - intros Hdeep. apply String.eqb_neq in Hdeep. rewrite Hdeep.
    repeat split; reflexivity.
Qed.

Lemma dblclick_col1_slides_right_witness :
  let s := jumped_picker "/a/b/c/d" in
  let item := first_row (col1 s) in
  let r := handleDoubleClickItem Col1 item s in
  node_path item = Some "/a/b" /\
  completed r = true /\ selectedPath (after r) = Some "/a/b" /\
  col3 (after r) = children_or_empty (findNode (fullTree s) (Some "/a/b")).
Proof.
  intros s item r.
  assert (Hfile : is_file item = false) by (vm_compute; reflexivity).
  assert (Hpath : node_path item = Some "/a/b") by (vm_compute; reflexivity).
  assert (Hnorm : normalize (Some "/a/b") = "/a/b") by reflexivity.
  assert (Hnode : findNode (fullTree s) (Some "/a/b") = Some item)
    by (vm_compute; reflexivity).
  destruct (dblclick_col1_slides_right s item "/a/b" item
              Hfile Hpath Hnorm Hnode) as (Hc & Hsel & _ & Hdeep).
  split; [exact Hpath|]. split; [exact Hc|]. split; [exact Hsel|].
  apply Hdeep. vm_compute. discriminate.
Defined.

(** C2 (as stated) fails: [/a/b] is listed in column 1 after a jump to
    [/a/b/c/d], its parent [/a] is not the root, and a double click on it
    puts the children of [/a] in column 2 and those of [/a/b] in column 3,
    not the children of [/a/b] in column 2 and nothing in column 3. *)
Lemma dblclick_col1_counterexample :
  let s := jumped_picker "/a/b/c/d" in
  let r := step (RowDblClick Col1 0) s in
  option_map node_path (nth_error (col1 s) 0) = Some (Some "/a/b") /\
  parentOf (Some "/a/b") = Some "/a" /\
  col2 (after r) = children_or_empty (findNode (fullTree s) (Some "/a")) /\
  col2 (after r) <> children_or_empty (findNode (fullTree s) (Some "/a/b")) /\
  col3 (after r) = children_or_empty (findNode (fullTree s) (Some "/a/b")) /\
  col3 (after r) <> [].
Proof.
  cbv zeta. repeat split; try (vm_compute; reflexivity);
    vm_compute; discriminate.
Qed.

(** C3 (amended).  A double click in column 3 on a directory whose path
    is normalized and resolves in the snapshot completes without an
    exception and lists the grandparent in column 1, the parent in column
    2 and the clicked directory itself in column 3, the root standing in
    for a parent or grandparent that does not exist.  These are not, in
    general, the columns that [jumpToPath] computes for the same path. *)
Theorem dblclick_col3_slides_left
        (s : Picker) (item : TreeNode) (p : string) (node : TreeNode) :
  let tree := fullTree s in
  let parent := Js.or_else (parentOf (Some p)) "/" in
  let grandparent := Js.or_else (parentOf (Some parent)) "/" in
  let r := handleDoubleClickItem Col3 item s in
  is_file item = false ->
  node_path item = Some p ->
  normalize (Some p) = p ->
  findNode tree (Some p) = Some node ->
  completed r = true /\
  selectedPath (after r) = Some p /\
  col1 (after r) = children_or_empty (findNode tree (Some grandparent)) /\
  col2 (after r) = children_or_empty (findNode tree (Some parent)) /\
  col3 (after r) = children_or_empty (findNode tree (Some p)).
Proof.
  intros tree parent grandparent r Hfile Hpath Hnorm Hnode. subst r.
  destruct (handleDoubleClickItem_run Col3 item s p node Hfile Hpath Hnorm Hnode)
    as (bar & s' & Hslide & ->).
  rewrite (slideLeft_run s p node Hnorm Hnode) in Hslide.
  cbv zeta in Hslide. fold tree parent grandparent in Hslide.
  injection Hslide as Hs'.
  destruct (pushHistory_frame p (set_breadcrumb bar (set_selectedPath (Some p) s')))
    as (Hc & _ & H1 & H2 & H3 & Hsel & _).
  split; [exact Hc|]. split; [exact Hsel|].
  rewrite H1, H2, H3. subst s'. repeat split; reflexivity.
Qed.

Lemma dblclick_col3_slides_left_witness :
  let s := jumped_picker "/a/b/c" in
  let item := first_row (col3 s) in
  let r := handleDoubleClickItem Col3 item s in
  node_path item = Some "/a/b/c/d" /\
  completed r = true /\ selectedPath (after r) = Some "/a/b/c/d" /\
  col3 (after r) = children_or_empty (findNode (fullTree s) (Some "/a/b/c/d")).
Proof.
  intros s item r.
  assert (Hfile : is_file item = false) by (vm_compute; reflexivity).
  assert (Hpath : node_path item = Some "/a/b/c/d") by (vm_compute; reflexivity).
  assert (Hnorm : normalize (Some "/a/b/c/d") = "/a/b/c/d") by reflexivity.
  assert (Hnode : findNode (fullTree s) (Some "/a/b/c/d") = Some item)
    by (vm_compute; reflexivity).
  destruct (dblclick_col3_slides_left s item "/a/b/c/d" item
              Hfile Hpath Hnorm Hnode) as (Hc & Hsel & _ & _ & H3).
  split; [exact Hpath|]. split; [exact Hc|]. split; [exact Hsel|]. exact H3.
Defined.

(** C3 (as stated) fails: after double clicks on [/a] and [/a/b], column
    3 lists [/a/b/c]; a double click on it slides to the children of
    [/a], [/a/b] and [/a/b/c], while [jumpToPath] on [/a/b/c] lists the
    root in column 1. *)
Lemma dblclick_col3_is_not_a_jump :
  let s := drilled_picker in
  let slid := after (step (RowDblClick Col3 0) s) in
  let jumped := after (jumpToPath (Some "/a/b/c") true s) in
  option_map node_path (nth_error (col3 s) 0) = Some (Some "/a/b/c") /\
  map node_path (col1 slid) = [Some "/a/b"; Some "/a/x"] /\
  map node_path (col2 slid) = [Some "/a/b/c"] /\
  map node_path (col3 slid) = [Some "/a/b/c/d"] /\
  map node_path (col1 jumped) = [Some "/a"; Some "/y"] /\
  map node_path (col2 jumped) = [Some "/a/b/c"] /\
  map node_path (col3 jumped) = [Some "/a/b/c/d"] /\
  columns slid <> columns jumped.
Proof.
  cbv zeta. repeat split; try (vm_compute; reflexivity).
  vm_compute. discriminate.
Qed.
(** C4 (amended).  [normalize] is a total function, and it is idempotent
    on a missing argument, on the empty string and on every string that
    does not end in two slashes (["//"] itself included): a second call
    changes nothing there. *)
Theorem normalize_idempotent_without_double_slash (path : option string) :
  double_trailing_slash path = false ->
  normalize (Some (normalize path)) = normalize path.
Proof.
  destruct path as [s|]; [|reflexivity].
  unfold double_trailing_slash. intros H.
  apply normalize_idempotent_on.
  apply andb_false_iff in H. destruct H as [H | H]; [now left | right].
  apply negb_false_iff in H. now apply String.eqb_eq.
Qed.

Lemma normalize_idempotent_without_double_slash_witness :
  double_trailing_slash (Some "abc/def/") = false /\
  normalize (Some (normalize (Some "abc/def/"))) = normalize (Some "abc/def/").
Proof.
  split; [reflexivity|].
  apply (normalize_idempotent_without_double_slash (Some "abc/def/")).
  reflexivity.
Defined.

(** C4 (as stated) fails: ["a//"] normalizes to ["/a/"], which normalizes
    to ["/a"]. *)
Lemma normalize_not_idempotent :
  normalize (Some "a//") = "/a/" /\
  normalize (Some (normalize (Some "a//"))) = "/a" /\
  normalize (Some (normalize (Some "a//"))) <> normalize (Some "a//").
Proof. repeat split; try reflexivity. discriminate. Qed.

(* ================================================================== *)
(** ** The back history                                                *)
(* ================================================================== *)

(** C5.  From an empty history, after [push(a); push(b); back()] the
    entry under [historyIndex], which is also the path displayed
    (normalized) as [selectedPath], is [a]; after a further [push(c)] the
    log is [[a; c]], the forward entry [b] being dropped, and one more
    [back()] is on [a] again. *)
Theorem history_back_after_push (a b c : string) (s : Picker) :
  let s1 := after (pushHistory a s) in
  let s2 := after (pushHistory b s1) in
  let s3 := after (back s2) in
  let s4 := after (pushHistory c s3) in
  let s5 := after (back s4) in
  history s = [] -> historyIndex s = -1 ->
  (history s3 = [a; b] /\
   at_index (history s3) (historyIndex s3) = Some a /\
   selectedPath s3 = Some (normalize (Some a))) /\
  history s4 = [a; c] /\
  (history s5 = [a; c] /\
   at_index (history s5) (historyIndex s5) = Some a /\
   selectedPath s5 = Some (normalize (Some a))).
Proof.
  intros s1 s2 s3 s4 s5 Hh Hi.
  assert (H1 : history s1 = [a] /\ historyIndex s1 = 0).
  { destruct (pushHistory_history a s) as [E1 E2];
      [rewrite Hh, Hi; simpl; lia|].
    subst s1. rewrite E1, E2, Hh, Hi. split; reflexivity. }
  destruct H1 as [Hh1 Hi1].
  assert (H2 : history s2 = [a; b] /\ historyIndex s2 = 1).
  { destruct (pushHistory_history b s1) as [E1 E2];
      [rewrite Hh1, Hi1; simpl; lia|].
    subst s2. rewrite E1, E2, Hh1, Hi1. split; reflexivity. }
  destruct H2 as [Hh2 Hi2].
  assert (H3 : history s3 = [a; b] /\ historyIndex s3 = 0 /\
               selectedPath s3 = Some (normalize (Some a))).
  { destruct (back_history s2) as (E1 & E2 & E3); [rewrite Hi2; lia|].
    subst s3. rewrite E1, E2, E3, Hh2, Hi2. repeat split; reflexivity. }
  destruct H3 as (Hh3 & Hi3 & Hs3).
  assert (H4 : history s4 = [a; c] /\ historyIndex s4 = 1).
  { destruct (pushHistory_history c s3) as [E1 E2];
      [rewrite Hh3, Hi3; simpl; lia|].
    subst s4. rewrite E1, E2, Hh3, Hi3. split; reflexivity. }
  destruct H4 as [Hh4 Hi4].
  assert (H5 : history s5 = [a; c] /\ historyIndex s5 = 0 /\
               selectedPath s5 = Some (normalize (Some a))).
  { destruct (back_history s4) as (E1 & E2 & E3); [rewrite Hi4; lia|].
    subst s5. rewrite E1, E2, E3, Hh4, Hi4. repeat split; reflexivity. }
  destruct H5 as (Hh5 & Hi5 & Hs5).
  repeat split; try assumption.
  - rewrite Hh3, Hi3. reflexivity.
  - rewrite Hh5, Hi5. reflexivity.
Qed.

Lemma history_back_after_push_witness :
  let s1 := after (pushHistory "/a" constructor) in
  let s2 := after (pushHistory "/a/b" s1) in
  let s3 := after (back s2) in
  let s4 := after (pushHistory "/y" s3) in
  let s5 := after (back s4) in
  history constructor = [] /\ historyIndex constructor = -1 /\
  at_index (history s3) (historyIndex s3) = Some "/a" /\
  history s4 = ["/a"; "/y"] /\
  at_index (history s5) (historyIndex s5) = Some "/a".
Proof.
  cbv zeta.
  destruct (history_back_after_push "/a" "/a/b" "/y" constructor
              eq_refl eq_refl) as ((_ & H3 & _) & H4 & (_ & H5 & _)).
  split; [reflexivity|]. split; [reflexivity|].
  split; [exact H3|]. split; [exact H4 | exact H5].
Defined.

(* ================================================================== *)
(** ** findNode on a snapshot                                          *)
(* ================================================================== *)

(** C6.  On the snapshot that [dirtree("/")] builds from a storage whose
    directories hold valid, pairwise different names, [findNode] applied
    to any path whose normal form is the path of a node of the snapshot
    returns that very node, so a node whose [.path] is [normalize(path)].
    On any tree, [findNode] returns [null] as soon as the walk reaches a
    node that is a file, or that has no child named by the next segment.
    [findNode] is a total function on the tree: it raises nothing and
    touches no storage. *)
Theorem findNode_on_snapshot (root : list (string * Handle)) (tree : TreeNode) :
  dirtree root "/" = Some tree ->
  wf_handle (FileSystemDirectoryHandle root) = true ->
  (forall (path : option string) (n : TreeNode),
      present tree n -> node_path n = Some (normalize path) ->
      findNode tree path = Some n) /\
  (forall (t : TreeNode) (path : option string) (before rest : list string)
          (missing : string) (m : TreeNode),
      segments (normalize path) = (before ++ missing :: rest)%list ->
      descend t before = Some m ->
      is_file m = true \/
      (forall c, In c (or_empty (node_children m)) ->
                 node_name c <> Some missing) ->
      findNode t path = None).
Proof.
  intros Htree Hwf. rewrite dirtree_root in Htree. injection Htree as <-.
  split.
  - intros path n Hpresent Hpath.
    destruct (walk_present _ Hwf "" [] (Forall_nil _) n Hpresent)
      as (more & Hmore & Hdesc & Hn).
    cbn [app] in Hn. rewrite Hn in Hpath. injection Hpath as Hpath.
    change (path_of []) with "/" in Hdesc.
    destruct path as [p|].
    + rewrite findNode_descend, <- (segments_normalize p), <- Hpath.
      now rewrite segments_path_of.
    + cbn [normalize] in Hpath. apply (path_of_root_iff _ Hmore) in Hpath.
      subst more. simpl in Hdesc. rewrite findNode_null. exact Hdesc.
  - intros t path before rest missing m Hsegs Hm Hstop.
    assert (Hnone : forall c, In c (or_empty (node_children m)) ->
                              node_name c <> Some missing).
    { destruct Hstop as [Hfile | Hnone]; [|exact Hnone].
      destruct m; try discriminate. intros c []. }
    assert (Hwalk : findNode t path = descend t (segments (normalize path))).
    { destruct path as [p|].
      - now rewrite findNode_descend, segments_normalize.
      - reflexivity. }
    rewrite Hwalk, Hsegs. now apply (descend_missing t m).
Qed.

Lemma findNode_on_snapshot_witness :
  let tree := fullTree sample_picker in
  (exists n, findNode tree (Some "a/b/") = Some n /\
             node_path n = Some "/a/b") /\
  findNode tree (Some "/a/x/z") = None /\
  findNode tree (Some "/a/q/z") = None.
Proof.
  intros tree.
  assert (Htree : dirtree sample_storage "/" = Some tree) by reflexivity.
  assert (Hwf : wf_handle (FileSystemDirectoryHandle sample_storage) = true)
    by reflexivity.
  destruct (findNode_on_snapshot sample_storage tree Htree Hwf)
    as [Hfound Hnull].
  split; [|split].
  - destruct (descend tree ["a"; "b"]) as [n|] eqn:Hn;
      [|vm_compute in Hn; discriminate].
    exists n.
    assert (Hpath : node_path n = Some "/a/b").
    { vm_compute in Hn. injection Hn as <-. reflexivity. }
    split; [|exact Hpath].
    apply Hfound; [exact (descend_present _ _ _ Hn) | exact Hpath].
  - destruct (descend tree ["a"; "x"]) as [m|] eqn:Hm;
      [|vm_compute in Hm; discriminate].
    apply (Hnull tree (Some "/a/x/z") ["a"; "x"] [] "z" m);
      [reflexivity | exact Hm |].
    left. vm_compute in Hm. injection Hm as <-. reflexivity.
  - destruct (descend tree ["a"]) as [m|] eqn:Hm;
      [|vm_compute in Hm; discriminate].
    apply (Hnull tree (Some "/a/q/z") ["a"] ["z"] "q" m);
      [reflexivity | exact Hm |].
    right. vm_compute in Hm. injection Hm as <-.
    intros c [<- | [<- | []]]; discriminate.
Defined.

(** C7.  The invariant [0 <= historyIndex < history.length] whenever the
    history is non-empty holds of the freshly constructed picker, of
    every state reached from it by user actions, and is preserved by
    [pushHistory], by [back] and by every user action, whether the
    handler completes or throws. *)
Theorem history_invariant (actions : list Action) (s : Picker) :
  hist_inv constructor /\
  hist_inv (run actions constructor) /\
  (hist_inv s ->
   (forall p, hist_inv (after (pushHistory p s))) /\
   hist_inv (after (back s)) /\
   (forall a, hist_inv (after (step a s))) /\
   hist_inv (run actions s)).
Proof.
  assert (H0 : hist_inv constructor) by (intros H; now contradiction H).
  split; [exact H0|]. split; [now apply run_hist_inv|].
  intros Hinv.
  split; [|split; [|split]].
  - intros p. exact (kept_hist_inv _ _ (pushHistory_kept p s) Hinv).
  - now apply back_hist_inv.
  - intros a. now apply step_hist_inv.
  - now apply run_hist_inv.
Qed.

Lemma history_invariant_witness :
  let s := jumped_picker "/a/b" in
  let actions :=
    [LoadCompleted sample_storage; PathKeydown "Enter" " /a/b/c ";
     RowDblClick Col3 0; BackClick; UpClick; BackClick; BackClick] in
  hist_inv s /\
  hist_inv (after (pushHistory "/y" s)) /\
  hist_inv (after (back s)) /\
  hist_inv (after (step (RowDblClick Col2 0) s)) /\
  hist_inv (run actions constructor).
Proof.
  intros s actions.
  assert (Hs : hist_inv s).
  { unfold hist_inv.
    replace (history s) with ["/a/b"] by (vm_compute; reflexivity).
    replace (historyIndex s) with 0 by (vm_compute; reflexivity).
    intros _. simpl. lia. }
  destruct (history_invariant actions s) as (_ & Hrun & Hstep).
  destruct (Hstep Hs) as (Hpush & Hback & Hact & _).
  split; [exact Hs|]. split; [apply Hpush|]. split; [exact Hback|].
  split; [apply Hact | exact Hrun].
Defined.

(* ================================================================== *)
(** ** Signals                                                         *)
(* ================================================================== *)

(** C8.  A double click on a file row, in any column and any state,
    completes, dispatches exactly one [open-file] event carrying the
    file's path made absolute by [normalize], and leaves the whole object
    (columns, selection, history, index, breadcrumb) as it was.  For a
    file of a snapshot built by [dirtree] the event carries the file's
    [path] as it stands. *)
Theorem file_double_click_opens (colId : ColId) (name path : string)
        (s : Picker) :
  let r := handleDoubleClickItem colId (File name path) s in
  completed r = true /\
  emitted r = [OpenFile (normalize (Some path))] /\
  after r = s /\
  columns (after r) = columns s /\
  selectedPath (after r) = selectedPath s /\
  history (after r) = history s /\
  historyIndex (after r) = historyIndex s /\
  (forall root tree,
      dirtree root "/" = Some tree ->
      wf_handle (FileSystemDirectoryHandle root) = true ->
      present tree (File name path) ->
      emitted r = [OpenFile path]).
Proof.
  repeat split; try reflexivity.
  intros root tree Htree Hwf Hpresent.
  change (emitted (handleDoubleClickItem colId (File name path) s))
    with [OpenFile (normalize (Some path))].
  now rewrite (snapshot_paths_normal root tree (File name path) path
                 Htree Hwf Hpresent eq_refl).
Qed.

Lemma file_double_click_opens_witness :
  let s := jumped_picker "/a/b" in
  let r := handleDoubleClickItem Col2 (File "x" "/a/x") s in
  present (fullTree s) (File "x" "/a/x") /\
  emitted r = [OpenFile "/a/x"] /\ after r = s.
Proof.
  intros s r.
  assert (Hpresent : present (fullTree s) (File "x" "/a/x")).
  { apply (descend_present ["a"; "x"]). vm_compute. reflexivity. }
  destruct (file_double_click_opens Col2 "x" "/a/x" s)
    as (_ & _ & Hsame & _ & _ & _ & _ & Hsnap).
  split; [exact Hpresent|]. split; [|exact Hsame].
  apply (Hsnap sample_storage (fullTree s)); [reflexivity | reflexivity|].
  exact Hpresent.
Defined.

(** C9.  In every state that user actions can reach from the freshly
    constructed picker, the Open button on a selection [p] completes,
    dispatches exactly one [opfs-file] event whose [filePath] is [p] and
    leaves the object as it was; with no selection it does nothing.  (A
    selection is never the empty string there, the one string that the
    handler's truthiness test would treat as no selection.) *)
Theorem open_button_emits_selection (actions : list Action) :
  let s := run actions constructor in
  (forall p, selectedPath s = Some p ->
             p <> "" /\ openBtn_onclick s = (Normal tt, s, [OpfsFile p])) /\
  (selectedPath s = None -> openBtn_onclick s = (Normal tt, s, [])).
Proof.
  intros s. split.
  - intros p Hp.
    assert (Hsel : selectable s)
      by (apply run_selectable, constructor_selectable).
    assert (Hne : p <> "").
    { destruct Hsel as (_ & _ & _ & _ & Hsel). congruence. }
    split; [exact Hne | now apply openBtn_run].
  - intros Hnone. unfold openBtn_onclick. now rewrite bind_gets, Hnone.
Qed.

Lemma open_button_emits_selection_witness :
  let s := run [LoadCompleted sample_storage; RowClick Col1 1] constructor in
  selectedPath s = Some "/y" /\
  openBtn_onclick s = (Normal tt, s, [OpfsFile "/y"]) /\
  openBtn_onclick (run [] constructor) = (Normal tt, run [] constructor, []).
Proof.
  intros s.
  assert (Hsel : selectedPath s = Some "/y") by (vm_compute; reflexivity).
  split; [exact Hsel|]. split.
  - exact (proj2 (proj1 (open_button_emits_selection
                           [LoadCompleted sample_storage; RowClick Col1 1])
                        "/y" Hsel)).
  - exact (proj2 (open_button_emits_selection []) eq_refl).
Defined.

(** C10.  With no selection, or a selection that normalizes to the root,
    the Up button does nothing at all: the handler completes, dispatches
    nothing, and the object (columns, selection, history, index) is
    unchanged, because [parentOf] returns [null]. *)
Theorem up_at_root_is_noop (s : Picker) :
  selectedPath s = None \/ normalize (selectedPath s) = "/" ->
  parentOf (Some (Js.or_else (selectedPath s) "/")) = None /\
  upBtn_onclick s = (Normal tt, s, []).
Proof.
  intros H.
  assert (Hp : parentOf (Some (Js.or_else (selectedPath s) "/")) = None).
  { destruct (selectedPath s) as [p|] eqn:E; [|reflexivity].
    destruct H as [H | H]; [discriminate|].
    unfold Js.or_else. destruct (Js.truthy p); [|reflexivity].
    unfold parentOf. now rewrite H. }
  split; [exact Hp|].
  unfold upBtn_onclick. rewrite bind_gets, Hp. reflexivity.
Qed.

Lemma up_at_root_is_noop_witness :
  upBtn_onclick sample_picker = (Normal tt, sample_picker, []) /\
  upBtn_onclick (jumped_picker "/") = (Normal tt, jumped_picker "/", []).
Proof.
  split.
  - apply (up_at_root_is_noop sample_picker). left. reflexivity.
  - apply (up_at_root_is_noop (jumped_picker "/")). right.
    vm_compute. reflexivity.
Defined.

(* ================================================================== *)
(** ** More on normalize and parentOf                                  *)
(* ================================================================== *)

Section PathShape.

Lemma normalize_absolute (p : option string) :
  Js.startsWith (normalize p) "/" = true.
Proof.
  destruct p as [s|]; [|reflexivity].
  destruct (string_dec s "") as [-> | Hs]; [reflexivity|].
  destruct (normalize_cases s Hs)
    as (p1 & Hp1 & Hst & _ & [[Hn _] | (q & Hq & Hqne & Hn)]).
  - now rewrite Hn.
  - rewrite Hn, <- (startsWith_append q "/" Hqne), <- Hq. exact Hst.
Qed.

(** One call strips the slash that ends an absolute path. *)
Lemma normalize_trailing (r : string) :
  r <> "" -> Js.startsWith r "/" = true -> normalize (Some (r ++ "/")) = r.
Proof.
  intros Hr Hrs. unfold normalize.
  assert (Ht : Js.truthy (r ++ "/") = true)
    by (apply truthy_iff; destruct r; discriminate).
  rewrite Ht. cbn [negb].
  rewrite (startsWith_append r "/" Hr), Hrs. cbn [negb].
  rewrite endsWith_append, andb_true_r.
  replace (Z.of_nat (String.length (r ++ "/")) >? 1) with true.
  - apply slice_drop_last.
  - symmetry. rewrite Z.gtb_ltb. apply Z.ltb_lt.
    rewrite length_append. simpl. destruct r; [congruence | simpl; lia].
Qed.

Lemma normalize_no_trailing_slash (p : option string) :
  double_trailing_slash p = false ->
  normalize p = "/" \/ Js.endsWith (normalize p) "/" = false.
Proof.
  intros Hd.
  destruct (Js.endsWith (normalize p) "/") eqn:E; [left | now right].
  destruct (endsWith_inv _ _ E) as [r Hr].
  destruct r as [|c r']; [exact Hr | exfalso].
  assert (Hidem : normalize (Some (normalize p)) = normalize p).
  { destruct p as [s|]; [|reflexivity].
    apply normalize_idempotent_on. unfold double_trailing_slash in Hd.
    apply andb_false_iff in Hd. destruct Hd as [H | H]; [now left | right].
    apply negb_false_iff in H. now apply String.eqb_eq. }
  pose proof (normalize_absolute p) as Hst. rewrite Hr in Hst, Hidem.
  rewrite (startsWith_append (String c r') "/") in Hst by discriminate.
  rewrite (normalize_trailing (String c r')) in Hidem
    by (discriminate || exact Hst).
  revert Hidem. apply append_length_neq. discriminate.
Qed.

Lemma prefix_append (a b : string) : String.prefix a (a ++ b) = true.
Proof.
  induction a as [|c a IH]; simpl.
  - now destruct b.
  - destruct (ascii_dec c c) as [_ | n]; [exact IH | congruence].
Qed.

(** The parent returned by [parentOf] is never the empty string, so the
    guards [|| "/"] and [if (parent)] only ever react to [null]. *)
Lemma parentOf_truthy (p : option string) (q : string) :
  parentOf p = Some q -> Js.truthy q = true.
Proof.
  intros H. destruct (string_dec (normalize p) "/") as [E | Hne].
  - unfold parentOf in H. rewrite E in H. discriminate.
  - destruct (parentOf_cut p Hne) as (pre & post & _ & _ & Hq).
    rewrite Hq in H. injection H as <-. destruct pre; reflexivity.
Qed.

Lemma parentOf_null_iff (p : option string) :
  parentOf p = None <-> normalize p = "/".
Proof.
  split.
  - intros H. destruct (string_dec (normalize p) "/") as [E | Hne]; [exact E|].
    destruct (parentOf_cut p Hne) as (pre & post & _ & _ & Hq). congruence.
  - intros E. unfold parentOf. now rewrite E.
Qed.

End PathShape.

(** X1.  Whatever its argument, [normalize] returns a non-empty path
    that starts with a slash and has the segments of its argument; unless
    the argument ended in two slashes, the result is the root or does not
    end in a slash. *)
Theorem normalize_shape (path : option string) :
  normalize path <> "" /\
  Js.startsWith (normalize path) "/" = true /\
  segments (normalize path)
  = match path with Some s => segments s | None => [] end /\
  (double_trailing_slash path = false ->
   normalize path = "/" \/ Js.endsWith (normalize path) "/" = false).
Proof.
  split; [apply normalize_truthy|]. split; [apply normalize_absolute|].
  split; [|apply normalize_no_trailing_slash].
  destruct path as [s|]; [apply segments_normalize | reflexivity].
Qed.

Lemma normalize_shape_witness :
  segments (normalize (Some "abc//def/")) = ["abc"; "def"] /\
  (normalize (Some "abc//def/") = "/"
   \/ Js.endsWith (normalize (Some "abc//def/")) "/" = false).
Proof.
  destruct (normalize_shape (Some "abc//def/")) as (_ & _ & Hseg & Hend).
  split; [exact Hseg | apply Hend; reflexivity].
Defined.

(** X2.  For a path whose normal form is neither the root nor ends in a
    slash, [parentOf] returns a non-empty string that is a prefix of the
    normal form and whose segments are those of the path without the last
    one; the normal form is that prefix, a slash and the last segment, or
    just a slash and the last segment when the path has a single one. *)
Theorem parentOf_drops_last_segment (path : option string) :
  normalize path <> "/" ->
  Js.endsWith (normalize path) "/" = false ->
  exists q,
    parentOf path = Some q /\ q <> "" /\
    String.prefix q (normalize path) = true /\
    segments q = removelast (segments (normalize path)) /\
    (normalize path = q ++ "/" ++ last (segments (normalize path)) "" \/
     (q = "/" /\
      normalize path = "/" ++ last (segments (normalize path)) "")).
Proof.
  intros Hroot Hend.
  destruct (parentOf_cut path Hroot) as (pre & post & Hn & Hpost & Hq).
  assert (Hpne : post <> "").
  { intros ->. rewrite Hn, endsWith_append in Hend. discriminate. }
  assert (Hseg : segments (normalize path) = (segments pre ++ [post])%list).
  { rewrite Hn, segments_append_slash. f_equal.
    apply segments_valid_name. unfold valid_name.
    rewrite (proj2 (truthy_iff post) Hpne), Hpost. reflexivity. }
  exists (if String.eqb pre "" then "/" else pre).
  split; [exact Hq|]. rewrite Hseg, removelast_last, last_last.
  destruct pre as [|c pre'].
  - cbn [String.eqb]. rewrite Hn.
    split; [discriminate|].
    split; [apply (prefix_append "/" post)|]. split; [reflexivity|].
    right. split; reflexivity.
  - replace (String.eqb (String c pre') "") with false by reflexivity.
    split; [discriminate|]. split; [rewrite Hn; apply prefix_append|].
    split; [reflexivity|]. left. exact Hn.
Qed.

Lemma parentOf_drops_last_segment_witness :
  exists q,
    parentOf (Some "abc/efg/hjk/") = Some q /\
    segments q = ["abc"; "efg"].
Proof.
  destruct (parentOf_drops_last_segment (Some "abc/efg/hjk/"))
    as (q & Hq & _ & _ & Hseg & _); [discriminate | reflexivity|].
  exists q. split; [exact Hq | exact Hseg].
Defined.

(* ================================================================== *)
(** ** Lookup, parents and children                                    *)
(* ================================================================== *)

Section ParentLookup.

Lemma parent_segments_removelast (p : option string) :
  normalize p <> "/" -> Js.endsWith (normalize p) "/" = false ->
  exists x,
    segments (normalize p)
    = (segments (Js.or_else (parentOf p) "/") ++ [x])%list.
Proof.
  intros Hroot Hend.
  destruct (parentOf_cut p Hroot) as (pre & post & Hn & Hpost & Hq).
  assert (Hpne : post <> "").
  { intros ->. rewrite Hn, endsWith_append in Hend. discriminate. }
  exists post. rewrite Hq, Hn, segments_append_slash. f_equal.
  - destruct pre; reflexivity.
  - apply segments_valid_name. unfold valid_name.
    rewrite (proj2 (truthy_iff post) Hpne), Hpost. reflexivity.
Qed.

Lemma find_child_spec (cs : list TreeNode) (x : string) (c : TreeNode) :
  find_child cs x = Some c -> In c cs /\ node_name c = Some x.
Proof.
  unfold find_child. intros H. apply find_some in H. destruct H as [Hin Hn].
  split; [exact Hin|]. destruct (node_name c) as [y|]; [|discriminate].
  apply String.eqb_eq in Hn. now subst.
Qed.

(** The last step of a walk picks a child, by its name. *)
Lemma descend_last (t n : TreeNode) (l : list string) (x : string) :
  descend t (l ++ [x]) = Some n ->
  exists m cs,
    descend t l = Some m /\ node_children m = Some cs /\
    In n cs /\ node_name n = Some x.
Proof.
  rewrite descend_app. destruct (descend t l) as [m|]; [|discriminate].
  simpl. destruct (node_children m) as [cs|] eqn:Hcs; [|discriminate].
  destruct (find_child cs x) as [c|] eqn:Hc; [|discriminate].
  intros [= <-]. destruct (find_child_spec cs x c Hc) as [Hin Hname].
  exists m, cs. split; [reflexivity|]. split; [exact Hcs|].
  split; assumption.
Qed.

Lemma includes_append_slash (a p : string) :
  Js.includes (a ++ String "/" p) "/" = true.
Proof.
  induction a as [|c a IH]; simpl; [reflexivity|].
  rewrite IH. apply orb_true_r.
Qed.

(** A string is cut at its last slash in one way only. *)
Lemma last_slash_unique (a b p q : string) :
  a ++ String "/" p = b ++ String "/" q ->
  Js.includes p "/" = false -> Js.includes q "/" = false ->
  a = b /\ p = q.
Proof.
  revert b. induction a as [|c a IH]; intros b H Hp Hq.
  - destruct b as [|d b]; simpl in H.
    + injection H as ->. auto.
    + injection H as <- ->. rewrite includes_append_slash in Hp. discriminate.
  - destruct b as [|d b]; simpl in H.
    + injection H as -> <-. rewrite includes_append_slash in Hq. discriminate.
    + injection H as -> H. destruct (IH b H Hp Hq) as [-> ->]. auto.
Qed.

(** [parentOf] undoes the way [walk] builds the path of a child. *)
Lemma parentOf_path_of (segs : list string) (x : string) :
  Forall (fun y => valid_name y = true) segs -> valid_name x = true ->
  parentOf (Some (path_of (segs ++ [x]))) = Some (path_of segs).
Proof.
  intros Hsegs Hx.
  assert (Hall : Forall (fun y => valid_name y = true) (segs ++ [x]))
    by (apply Forall_app; split; [exact Hsegs | now constructor]).
  pose proof (normalize_path_of _ Hall) as Hnorm.
  assert (Hroot : normalize (Some (path_of (segs ++ [x]))) <> "/").
  { rewrite Hnorm. intros E. apply (path_of_root_iff _ Hall) in E.
    destruct segs; discriminate. }
  destruct (parentOf_cut _ Hroot) as (pre & post & Hn & Hpost & ->).
  rewrite Hnorm in Hn. f_equal.
  unfold valid_name in Hx. apply andb_true_iff in Hx. destruct Hx as [_ Hx].
  apply negb_true_iff in Hx.
  pose proof (child_path_of segs x Hsegs) as Hchild.
  destruct (String.eqb (path_of segs) "/") eqn:E.
  - apply String.eqb_eq in E. rewrite E.
    rewrite <- Hchild in Hn.
    destruct (last_slash_unique "" pre x post Hn Hx Hpost) as [<- _].
    reflexivity.
  - rewrite <- Hchild in Hn.
    destruct (last_slash_unique (path_of segs) pre x post Hn Hx Hpost)
      as [<- _].
    destruct (path_of segs) eqn:Ep; [|reflexivity].
    destruct segs; discriminate.
Qed.

(** In a snapshot, the node that a walk reaches carries the path of the
    segments walked. *)
Lemma descend_snapshot_path (segs : list string) :
  forall h name pre n,
    wf_handle h = true ->
    Forall (fun y => valid_name y = true) pre ->
    descend (walk h name (path_of pre)) segs = Some n ->
    node_path n = Some (path_of (pre ++ segs)) /\
    Forall (fun y => valid_name y = true) segs.
Proof.
  induction segs as [|x rest IH]; intros h name pre n Hwf Hpre Hd.
  - simpl in Hd. injection Hd as <-. rewrite app_nil_r.
    split; [destruct h; reflexivity | constructor].
  - destruct h as [|entries]; [discriminate|].
    rewrite walk_children in Hd. cbn [descend node_children] in Hd.
    destruct (find_child (map (child_node (path_of pre)) entries) x)
      as [c|] eqn:Hc; [|discriminate].
    destruct (find_child_spec _ _ _ Hc) as [Hin Hname].
    apply in_map_iff in Hin. destruct Hin as (e & He & Hin).
    rewrite <- He, child_node_name in Hname. injection Hname as Hname.
    destruct (wf_handle_entries entries Hwf) as [_ Hentries].
    destruct (Hentries e Hin) as [Hvalid Hsub]. rewrite Hname in Hvalid.
    assert (Hpre' : Forall (fun y => valid_name y = true) (pre ++ [x]))
      by (apply Forall_app; split; [exact Hpre | now constructor]).
    assert (Hchild :
      c = match snd e with
          | FileSystemFileHandle => File x (path_of (pre ++ [x]))
          | FileSystemDirectoryHandle _ =>
              walk (snd e) x (path_of (pre ++ [x]))
          end).
    { rewrite <- He. unfold child_node. rewrite Hname.
      now rewrite (child_path_of pre x Hpre). }
    destruct (snd e) as [|sub] eqn:Hkind.
    + rewrite Hchild in Hd.
      destruct rest as [|y rest']; [|simpl in Hd; discriminate].
      simpl in Hd. injection Hd as <-.
      split; [reflexivity | now constructor].
    + rewrite Hchild in Hd.
      destruct (IH _ _ _ _ Hsub Hpre' Hd) as [Hpath Hrest].
      split; [now rewrite Hpath, <- app_assoc | now constructor].
Qed.

End ParentLookup.

(** X3.  [findNode] only looks at the segments of its argument: two paths
    with the same segments (missing leading slash, trailing or doubled
    slashes) find the same node, and a path without segments finds the
    root. *)
Theorem findNode_same_segments (tree : TreeNode) (p q : string) :
  (segments p = segments q ->
   findNode tree (Some p) = findNode tree (Some q)) /\
  (segments p = [] -> findNode tree (Some p) = Some tree).
Proof.
  split; intros H; rewrite !findNode_descend, H; reflexivity.
Qed.

Lemma findNode_same_segments_witness :
  findNode (fullTree sample_picker) (Some "a//b/")
  = findNode (fullTree sample_picker) (Some "/a/b") /\
  findNode (fullTree sample_picker) (Some "//")
  = Some (fullTree sample_picker).
Proof.
  split.
  - apply (proj1 (findNode_same_segments _ "a//b/" "/a/b")). reflexivity.
  - apply (proj2 (findNode_same_segments _ "//" "")). reflexivity.
Defined.

(** X4.  A node that [findNode] returns occurs in the tree, its parent
    path resolves too, and when the normal form of the path is neither
    the root nor ends in a slash, the node is one of the children of the
    node found for the parent and is named by the last segment. *)
Theorem findNode_child_of_parent (tree : TreeNode) (p : string) (n : TreeNode) :
  findNode tree (Some p) = Some n ->
  present tree n /\
  exists m,
    findNode tree (Some (Js.or_else (parentOf (Some p)) "/")) = Some m /\
    (normalize (Some p) <> "/" ->
     Js.endsWith (normalize (Some p)) "/" = false ->
     In n (children_or_empty (Some m)) /\
     node_name n = Some (last (segments p) "")).
Proof.
  intros Hn.
  assert (Hd : descend tree (segments p) = Some n)
    by (now rewrite <- findNode_descend).
  split; [exact (descend_present _ _ _ Hd)|].
  destruct (findNode_parent tree p n Hn) as [m Hm].
  exists m. split; [exact Hm|]. intros Hroot Hend.
  destruct (parent_segments_removelast (Some p) Hroot Hend) as [x Hx].
  rewrite segments_normalize in Hx. rewrite Hx in Hd |- *.
  destruct (descend_last _ _ _ _ Hd) as (m' & cs & Hm' & Hcs & Hin & Hname).
  rewrite findNode_descend, Hm' in Hm. injection Hm as <-.
  rewrite last_last. split; [|exact Hname].
  unfold children_or_empty. now rewrite Hcs.
Qed.

Lemma findNode_child_of_parent_witness :
  exists n m,
    findNode (fullTree sample_picker) (Some "/a/b/c") = Some n /\
    findNode (fullTree sample_picker) (Some "/a/b") = Some m /\
    In n (children_or_empty (Some m)) /\ node_name n = Some "c".
Proof.
  destruct (findNode (fullTree sample_picker) (Some "/a/b/c")) as [n|] eqn:Hn;
    [|vm_compute in Hn; discriminate].
  destruct (findNode_child_of_parent _ "/a/b/c" n Hn) as (_ & m & Hm & Hchild).
  exists n, m. split; [reflexivity|]. split; [exact Hm|].
  apply Hchild; [discriminate | reflexivity].
Defined.

(* ================================================================== *)
(** ** dirtree against the storage                                     *)
(* ================================================================== *)

Section DirtreeStorage.

Lemma find_child_map (cp : string) (entries : list (string * Handle))
      (p : string) :
  find_child (map (child_node cp) entries) p
  = option_map (child_node cp)
      (find (fun e => String.eqb (fst e) p) entries).
Proof.
  induction entries as [|e rest IH]; [reflexivity|].
  unfold find_child in *. cbn [map find]. rewrite child_node_name.
  destruct (String.eqb (fst e) p); [reflexivity | exact IH].
Qed.

Lemma last_cons (rest : list string) :
  forall p d, last (p :: rest) d = last rest p.
Proof.
  induction rest as [|y rest IH]; intros p d; [reflexivity|].
  change (last (p :: y :: rest) d) with (last (y :: rest) d).
  now rewrite !IH.
Qed.

(** [dirtree] resolves the segments of its argument and walks from
    there, whether or not the argument is literally ["/"]. *)
Lemma dirtree_unfold (root : list (string * Handle)) (path : string) :
  dirtree root path
  = option_map
      (fun start =>
         walk start (last (segments path) "") (path_of (segments path)))
      (resolve (FileSystemDirectoryHandle root) (segments path)).
Proof.
  unfold dirtree. destruct (String.eqb path "/") eqn:E.
  - apply String.eqb_eq in E. subst path. reflexivity.
  - destruct (resolve _ (segments path)) as [start|]; [|reflexivity].
    cbn [option_map]. destruct (segments path); reflexivity.
Qed.

(** Resolving handles in the storage and walking names in the snapshot
    go the same way. *)
Lemma resolve_descend (clean : list string) :
  forall h name pre start,
    Forall (fun y => valid_name y = true) pre ->
    Forall (fun y => valid_name y = true) clean ->
    resolve h clean = Some start ->
    descend (walk h name (path_of pre)) clean
    = Some (walk start (last clean name) (path_of (pre ++ clean))).
Proof.
  induction clean as [|p rest IH]; intros h name pre start Hpre Hclean Hres.
  - simpl in Hres. injection Hres as <-. now rewrite app_nil_r.
  - simpl in Hres. destruct h as [|entries]; [discriminate|].
    cbn [getDirectoryHandle] in Hres.
    destruct (find (fun e => String.eqb (fst e) p) entries)
      as [[n [|sub]]|] eqn:Hfind; try discriminate.
    apply find_some in Hfind as Hin. destruct Hin as [_ Hname].
    cbn [fst] in Hname. apply String.eqb_eq in Hname. subst n.
    inversion Hclean as [|? ? Hp Hrest]; subst.
    assert (Hpre' : Forall (fun y => valid_name y = true) (pre ++ [p]))
      by (apply Forall_app; split; [exact Hpre | now constructor]).
    rewrite walk_children. cbn [descend node_children].
    rewrite find_child_map, Hfind. cbn [option_map].
    unfold child_node. cbn [fst snd].
    rewrite (child_path_of pre p Hpre).
    rewrite (IH _ p (pre ++ [p])%list start Hpre' Hrest Hres).
    now rewrite last_cons, <- app_assoc.
Qed.

Lemma descend_resolve (clean : list string) :
  forall h name cp n,
    descend (walk h name cp) clean = Some n -> is_file n = false ->
    exists start, resolve h clean = Some start.
Proof.
  induction clean as [|p rest IH]; intros h name cp n Hd Hfile.
  - now exists h.
  - destruct h as [|entries]; [discriminate|].
    rewrite walk_children in Hd. cbn [descend node_children] in Hd.
    rewrite find_child_map in Hd. cbn [resolve getDirectoryHandle].
    destruct (find (fun e => String.eqb (fst e) p) entries)
      as [[x [|sub]]|]; cbn [option_map] in Hd; try discriminate.
    + unfold child_node in Hd. cbn [fst snd] in Hd.
      destruct rest; simpl in Hd; [|discriminate].
      injection Hd as <-. discriminate.
    + unfold child_node in Hd. cbn [fst snd] in Hd.
      exact (IH _ _ _ _ Hd Hfile).
Qed.

End DirtreeStorage.

(** X5.  [dirtree(path)] and [findNode] on the full snapshot agree: when
    [dirtree(path)] resolves, it is the very node that [findNode] returns
    for [path] in [dirtree("/")], and whenever [findNode] returns a
    directory there, [dirtree(path)] resolves to it. *)
Theorem dirtree_is_findNode (root : list (string * Handle)) (path : string)
        (full : TreeNode) :
  dirtree root "/" = Some full ->
  (forall t, dirtree root path = Some t ->
             findNode full (Some path) = Some t) /\
  (forall n, findNode full (Some path) = Some n -> is_file n = false ->
             dirtree root path = Some n).
Proof.
  intros Hfull. rewrite dirtree_root in Hfull.
  assert (Efull : full = walk (FileSystemDirectoryHandle root) "" "/")
    by congruence.
  subst full. clear Hfull.
  pose proof (segments_valid path) as Hval.
  rewrite dirtree_unfold, findNode_descend. split.
  - intros t Ht.
    destruct (resolve _ (segments path)) as [start|] eqn:Hres;
      [|discriminate].
    cbn [option_map] in Ht. injection Ht as <-.
    exact (resolve_descend (segments path)
             (FileSystemDirectoryHandle root) "" [] start
             (Forall_nil _) Hval Hres).
  - intros n Hn Hfile.
    destruct (descend_resolve (segments path)
                (FileSystemDirectoryHandle root) "" "/" n Hn Hfile)
      as [start Hres].
    rewrite Hres. cbn [option_map].
    pose proof (resolve_descend (segments path)
                  (FileSystemDirectoryHandle root) "" [] start
                  (Forall_nil _) Hval Hres) as Hd.
    change (path_of []) with "/" in Hd. cbn [app] in Hd.
    rewrite Hd in Hn. exact Hn.
Qed.

Lemma dirtree_is_findNode_witness :
  exists t,
    dirtree sample_storage "a/b/" = Some t /\
    findNode (fullTree sample_picker) (Some "a/b/") = Some t /\
    node_path t = Some "/a/b".
Proof.
  destruct (dirtree sample_storage "a/b/") as [t|] eqn:Ht;
    [|vm_compute in Ht; discriminate].
  exists t. split; [reflexivity|]. split.
  - apply (proj1 (dirtree_is_findNode sample_storage "a/b/"
                    (fullTree sample_picker) eq_refl) t Ht).
  - vm_compute in Ht. injection Ht as <-. reflexivity.
Defined.

(** X6.  [dirtree] lists the entries of a directory as the storage
    yields them: for a path that resolves to a directory handle, the
    children of the node found in the snapshot have the names of the
    entries, in the order of [entries()] (nothing is sorted), and a child
    is a file exactly when its handle is one. *)
Theorem dirtree_children_mirror_entries
        (root entries : list (string * Handle)) (path : string)
        (full : TreeNode) :
  dirtree root "/" = Some full ->
  resolve (FileSystemDirectoryHandle root) (segments path)
  = Some (FileSystemDirectoryHandle entries) ->
  let children := children_or_empty (findNode full (Some path)) in
  map node_name children = map (fun e => Some (fst e)) entries /\
  map is_file children = map (fun e => is_file_handle (snd e)) entries.
Proof.
  intros Hfull. rewrite dirtree_root in Hfull.
  assert (Efull : full = walk (FileSystemDirectoryHandle root) "" "/")
    by congruence.
  subst full. clear Hfull.
  intros Hres children. subst children.
  rewrite findNode_descend.
  pose proof (resolve_descend (segments path)
                (FileSystemDirectoryHandle root) "" [] _ (Forall_nil _)
                (segments_valid path) Hres) as Hd.
  change (path_of []) with "/" in Hd. cbn [app] in Hd. rewrite Hd.
  rewrite walk_children. cbn [children_or_empty node_children].
  rewrite !map_map. split; apply map_ext; intros e.
  - apply child_node_name.
  - unfold child_node. destruct (snd e); reflexivity.
Qed.

Lemma dirtree_children_mirror_entries_witness :
  map node_name
      (children_or_empty (findNode (fullTree sample_picker) (Some "/a")))
  = [Some "b"; Some "x"] /\
  map is_file
      (children_or_empty (findNode (fullTree sample_picker) (Some "/a")))
  = [false; true].
Proof.
  destruct (resolve (FileSystemDirectoryHandle sample_storage)
              (segments "/a")) as [[|entries]|] eqn:Hres;
    [ vm_compute in Hres; discriminate
    | | vm_compute in Hres; discriminate ].
  pose proof (dirtree_children_mirror_entries sample_storage entries "/a"
                (fullTree sample_picker) eq_refl Hres) as H.
  vm_compute in Hres. injection Hres as <-. exact H.
Defined.

(** X7.  In the snapshot of a storage with valid, pairwise different
    names, every node other than the root is named by the last segment of
    its path, [parentOf] of its path is the path of a directory of the
    snapshot, and [findNode] on that parent path returns the directory
    that lists the node among its children. *)
Theorem snapshot_parent_contains_child
        (root : list (string * Handle)) (tree n : TreeNode) (p : string) :
  dirtree root "/" = Some tree ->
  wf_handle (FileSystemDirectoryHandle root) = true ->
  present tree n -> node_path n = Some p -> p <> "/" ->
  node_name n = Some (last (segments p) "") /\
  exists q m,
    parentOf (Some p) = Some q /\
    findNode tree (Some q) = Some m /\
    node_path m = Some q /\
    In n (children_or_empty (Some m)).
Proof.
  intros Hfull. rewrite dirtree_root in Hfull.
  assert (Efull : tree = walk (FileSystemDirectoryHandle root) "" "/")
    by congruence.
  subst tree. clear Hfull.
  intros Hwf Hpresent Hp Hroot.
  destruct (walk_present _ Hwf "" [] (Forall_nil _) n Hpresent)
    as (more & Hmore & Hdesc & Hn).
  cbn [app] in Hn. rewrite Hn in Hp. injection Hp as <-.
  change (path_of []) with "/" in Hdesc.
  destruct more as [|x init] using rev_ind; [now contradiction Hroot|].
  clear IHinit. apply Forall_app in Hmore. destruct Hmore as [Hinit Hx].
  inversion Hx as [|? ? Hxv _]; subst.
  destruct (descend_last _ _ _ _ Hdesc) as (m & cs & Hm & Hcs & Hin & Hname).
  rewrite segments_path_of
    by (apply Forall_app; split; [exact Hinit | now constructor]).
  rewrite last_last. split; [exact Hname|].
  exists (path_of init), m.
  split; [now apply parentOf_path_of|].
  split; [now rewrite findNode_descend, segments_path_of|].
  split.
  - exact (proj1 (descend_snapshot_path init _ "" [] m Hwf (Forall_nil _) Hm)).
  - unfold children_or_empty. now rewrite Hcs.
Qed.

Lemma snapshot_parent_contains_child_witness :
  exists n m,
    node_name n = Some "c" /\
    parentOf (Some "/a/b/c") = Some "/a/b" /\
    findNode (fullTree sample_picker) (Some "/a/b") = Some m /\
    In n (children_or_empty (Some m)).
Proof.
  destruct (descend (fullTree sample_picker) ["a"; "b"; "c"]) as [n|] eqn:Hn;
    [|vm_compute in Hn; discriminate].
  assert (Hp : node_path n = Some "/a/b/c").
  { vm_compute in Hn. injection Hn as <-. reflexivity. }
  destruct (snapshot_parent_contains_child sample_storage
              (fullTree sample_picker) n "/a/b/c" eq_refl eq_refl
              (descend_present _ _ _ Hn) Hp)
    as (Hname & q & m & Hq & Hm & _ & Hin); [discriminate|].
  assert (Eq : q = "/a/b") by (vm_compute in Hq; congruence).
  subst q. exists n, m. repeat split; assumption.
Defined.

(* ================================================================== *)
(** ** The breadcrumb bar                                              *)
(* ================================================================== *)

Section Breadcrumb.

Lemma breadcrumbSegments_exact (parts : list string) :
  forall current s,
    breadcrumbSegments current parts s
    = (Normal (crumb_list (selectedPath s) current parts), s, []).
Proof.
  induction parts as [|p rest IH]; intros current s; [reflexivity|].
  cbn [breadcrumbSegments crumb_list].
  rewrite (bind_silent _ _ _ _ _ (makeBreadcrumbSegment_run _ _ _)).
  rewrite (bind_silent _ _ _ _ _ (IH _ s)). reflexivity.
Qed.

Lemma updateBreadcrumb_exact (p : option string) (s : Picker) :
  updateBreadcrumb p s
  = (Normal tt, set_breadcrumb (crumbs_of (selectedPath s) p) s, []).
Proof.
  unfold updateBreadcrumb, crumbs_of.
  destruct (List.length (segments (normalize p)) =? 0)%nat.
  - rewrite (bind_silent _ _ _ _ _ (makeBreadcrumbSegment_run _ _ _)).
    reflexivity.
  - rewrite (bind_silent _ _ _ _ _ (breadcrumbSegments_exact _ _ _)).
    reflexivity.
Qed.

Lemma bind_updateBreadcrumb_exact {B} p (f : unit -> M B) s :
  bind (updateBreadcrumb p) f s
  = f tt (set_breadcrumb (crumbs_of (selectedPath s) p) s).
Proof. apply bind_silent, updateBreadcrumb_exact. Qed.

Lemma crumb_list_labels sel (parts : list string) :
  forall current, map label (crumb_list sel current parts) = parts.
Proof.
  induction parts as [|p rest IH]; intros current; [reflexivity|].
  cbn [crumb_list map label]. now rewrite IH.
Qed.

Lemma join_cons (p : string) (l : list string) :
  l <> [] -> Js.join "/" (p :: l) = p ++ "/" ++ Js.join "/" l.
Proof. destruct l; [congruence | reflexivity]. Qed.

(** The target of the [i]-th segment is what has been accumulated so
    far: the first [i + 1] segments, joined. *)
Lemma crumb_list_targets sel (parts : list string) :
  forall current,
    map target (crumb_list sel current parts)
    = map (fun i => current ++ "/" ++ Js.join "/" (firstn (S i) parts))
          (seq 0 (List.length parts)).
Proof.
  induction parts as [|p rest IH]; intros current; [reflexivity|].
  cbn [crumb_list map target List.length seq]. f_equal.
  rewrite IH, <- seq_shift, map_map. apply map_ext_in. intros i Hi.
  apply in_seq in Hi.
  change (firstn (S (S i)) (p :: rest)) with (p :: firstn (S i) rest).
  rewrite join_cons by (destruct rest; [simpl in Hi; lia | discriminate]).
  now rewrite !append_assoc.
Qed.

End Breadcrumb.

Ltac exec_exact :=
  repeat first
    [ rewrite bind_gets
    | rewrite bind_modify
    | rewrite bind_ret
    | rewrite bind_renderColumn
    | rewrite bind_updateBreadcrumb_exact ].

Section BreadcrumbAfter.

Lemma pushHistory_breadcrumb (p : string) (s : Picker) :
  breadcrumb (after (pushHistory p s)) = breadcrumb s.
Proof.
  unfold pushHistory, modify, after. simpl.
  destruct (historyIndex s <? _); reflexivity.
Qed.

(** After a jump, the bar is the one of the path just selected. *)
Lemma jumpToPath_breadcrumb (full : option string) (flag : bool) (s : Picker) :
  breadcrumb (after (jumpToPath full flag s))
  = crumbs_of (Some (normalize full)) (Some (normalize full)).
Proof.
  unfold jumpToPath. rewrite bind_gets, bind_renderColumn.
  destruct (2 <=? _)%nat, (3 <=? _)%nat; exec_exact;
    (destruct flag; [apply pushHistory_breadcrumb | reflexivity]).
Qed.

End BreadcrumbAfter.

Section BreadcrumbOfSnapshotPath.

Lemma crumb_list_seq sel (parts : list string) :
  forall current,
    crumb_list sel current parts
    = map (fun i =>
             let t := current ++ "/" ++ Js.join "/" (firstn (S i) parts) in
             mkCrumb (nth i parts "") t
                     (String.eqb (normalize (Some t)) (normalize sel)))
          (seq 0 (List.length parts)).
Proof.
  induction parts as [|p rest IH]; intros current; [reflexivity|].
  cbn [crumb_list List.length seq map]. f_equal.
  rewrite IH, <- seq_shift, map_map. apply map_ext_in. intros i Hi.
  apply in_seq in Hi. cbv zeta.
  change (firstn (S (S i)) (p :: rest)) with (p :: firstn (S i) rest).
  rewrite join_cons by (destruct rest; [simpl in Hi; lia | discriminate]).
  cbn [nth]. now rewrite !append_assoc.
Qed.

Lemma path_of_inj (a b : list string) :
  Forall (fun x => valid_name x = true) a ->
  Forall (fun x => valid_name x = true) b ->
  path_of a = path_of b -> a = b.
Proof.
  intros Ha Hb E. rewrite <- (segments_path_of a Ha), <- (segments_path_of b Hb).
  now rewrite E.
Qed.

Lemma firstn_eq_all {A} (n : nat) (l : list A) :
  (n <= List.length l)%nat -> (firstn n l = l <-> n = List.length l).
Proof.
  intros Hn. split.
  - intros E. apply (f_equal (@List.length A)) in E.
    rewrite length_firstn in E. lia.
  - intros ->. apply firstn_all.
Qed.

(** The bar of a snapshot path: one segment per level, each pointing at
    the path of that level, the last one active. *)
Lemma crumbs_of_path_of (segs : list string) :
  Forall (fun x => valid_name x = true) segs -> segs <> [] ->
  crumbs_of (Some (path_of segs)) (Some (path_of segs))
  = map (fun i => mkCrumb (nth i segs "") (path_of (firstn (S i) segs))
                          (S i =? List.length segs)%nat)
        (seq 0 (List.length segs)).
Proof.
  intros Hval Hne. unfold crumbs_of.
  rewrite (normalize_path_of segs Hval), (segments_path_of segs Hval).
  destruct (List.length segs =? 0)%nat eqn:E.
  { apply Nat.eqb_eq in E. destruct segs; [congruence | discriminate]. }
  rewrite crumb_list_seq. apply map_ext_in. intros i Hi. apply in_seq in Hi.
  cbv zeta.
  assert (Ht : "" ++ "/" ++ Js.join "/" (firstn (S i) segs)
               = path_of (firstn (S i) segs)).
  { destruct segs; [congruence | reflexivity]. }
  rewrite Ht.
  assert (Hvi : Forall (fun x => valid_name x = true) (firstn (S i) segs))
    by (now apply Forall_firstn_skipn).
  rewrite (normalize_path_of _ Hvi), (normalize_path_of segs Hval). f_equal.
  destruct (S i =? List.length segs)%nat eqn:Ei.
  - apply Nat.eqb_eq in Ei. apply String.eqb_eq. f_equal.
    apply firstn_eq_all; lia.
  - apply Nat.eqb_neq in Ei. apply String.eqb_neq. intros Ep.
    apply path_of_inj in Ep; try assumption.
    apply firstn_eq_all in Ep; lia.
Qed.

End BreadcrumbOfSnapshotPath.

(** X8.  After [jumpToPath] on any path the breadcrumb bar has one
    segment per path segment, labelled by it and targeting the first
    segments joined up to it ([/] alone for a path without segments).
    After a jump to a path made of valid names the last segment, and only
    that one, is marked active. *)
Theorem jumpToPath_breadcrumb_bar (full : string) (flag : bool) (s : Picker) :
  let bar := breadcrumb (after (jumpToPath (Some full) flag s)) in
  let parts := segments full in
  (parts = [] -> map label bar = ["/"] /\ map target bar = ["/"]) /\
  (parts <> [] ->
   map label bar = parts /\
   map target bar
   = map (fun i => path_of (firstn (S i) parts)) (seq 0 (List.length parts))) /\
  (forall segs,
      Forall (fun x => valid_name x = true) segs -> segs <> [] ->
      full = path_of segs ->
      map active bar
      = map (fun i => (S i =? List.length segs)%nat)
            (seq 0 (List.length segs))).
Proof.
  intros bar parts. subst bar. rewrite jumpToPath_breadcrumb.
  split; [|split].
  - intros Hp. unfold crumbs_of. rewrite !segments_normalize.
    fold parts. rewrite Hp. split; reflexivity.
  - intros Hp. unfold crumbs_of. rewrite !segments_normalize. fold parts.
    destruct (List.length parts =? 0)%nat eqn:E.
    { apply Nat.eqb_eq in E. destruct parts; [congruence | discriminate]. }
    split; [apply crumb_list_labels|].
    rewrite crumb_list_targets. apply map_ext_in. intros i Hi.
    destruct parts; [congruence | reflexivity].
  - intros segs Hval Hne ->.
    rewrite (normalize_path_of segs Hval), (crumbs_of_path_of segs Hval Hne).
    rewrite map_map. reflexivity.
Qed.

Lemma jumpToPath_breadcrumb_bar_witness :
  let bar := breadcrumb (after (jumpToPath (Some "/a/b/c") true sample_picker)) in
  map label bar = ["a"; "b"; "c"] /\
  map target bar = ["/a"; "/a/b"; "/a/b/c"] /\
  map active bar = [false; false; true].
Proof.
  destruct (jumpToPath_breadcrumb_bar "/a/b/c" true sample_picker)
    as (_ & Hparts & Hactive).
  destruct Hparts as [Hl Ht]; [discriminate|].
  split; [exact Hl|]. split; [exact Ht|].
  apply (Hactive ["a"; "b"; "c"]); [|discriminate | reflexivity].
  repeat constructor.
Defined.

(* ================================================================== *)
(** ** Breadcrumb navigation                                           *)
(* ================================================================== *)

Section NavigateFromBreadcrumb.

Lemma findNode_optional_parent (tree : TreeNode) (x : option string) :
  findNode tree (parentOf x)
  = findNode tree (Some (Js.or_else (parentOf x) "/")).
Proof.
  destruct (parentOf x) as [g|] eqn:E; [|reflexivity].
  unfold Js.or_else. now rewrite (parentOf_truthy x g E).
Qed.

Variables (s : Picker) (p : string).

Let tree := fullTree s.
Let path := normalize (Some p).
Let parent := Js.or_else (parentOf (Some path)) "/".

(** The columns that [navigateFromBreadcrumb] leaves. *)
Let shown : Picker :=
  if String.eqb parent "/" then
    set_column Col3 []
      (set_column Col2 (children_or_empty (findNode tree (Some path)))
         (set_column Col1 (children_or_empty (findNode tree (Some parent))) s))
  else
    match findNode tree (Some path) with
    | Some _ =>
        set_column Col3 (children_or_empty (findNode tree (Some path)))
          (set_column Col2 (children_or_empty (findNode tree (Some parent)))
             (set_column Col1
                (children_or_empty (findNode tree (parentOf (Some parent))))
                s))
    | None => set_column Col3 [] s
    end.

(** [navigateFromBreadcrumb] never throws: below a node that resolves,
    the parent and the grandparent resolve. *)
Lemma navigateFromBreadcrumb_exact :
  navigateFromBreadcrumb p s
  = pushHistory path
      (set_breadcrumb (crumbs_of (Some path) (Some path))
         (set_pathParts (Js.split "/" path)
            (set_selectedPath (Some path) shown))).
Proof.
  unfold navigateFromBreadcrumb. fold path. fold parent.
  rewrite bind_gets. fold tree.
  assert (Hcols :
    (if String.eqb parent "/" then
       renderColumn Col1 (children_or_empty (findNode tree (Some parent))) ;;
       renderColumn Col2 (children_or_empty (findNode tree (Some path))) ;;
       renderColumn Col3 []
     else
       match findNode tree (Some path) with
       | Some _ =>
           cs1 <- children_of (findNode tree (parentOf (Some parent))) ;;
           renderColumn Col1 (or_empty cs1) ;;
           cs2 <- children_of (findNode tree (Some parent)) ;;
           renderColumn Col2 (or_empty cs2) ;;
           cs3 <- children_of (findNode tree (Some path)) ;;
           renderColumn Col3 (or_empty cs3)
       | None => renderColumn Col3 []
       end) s = (Normal tt, shown, [])).
  { unfold shown. destruct (String.eqb parent "/"); [reflexivity|].
    destruct (findNode tree (Some path)) as [node|] eqn:Hnode; [|reflexivity].
    destruct (findNode_parent tree path node Hnode) as [m Hm].
    fold parent in Hm.
    destruct (findNode_parent tree parent m Hm) as [g Hg].
    rewrite <- findNode_optional_parent in Hg.
    rewrite Hm, Hg. reflexivity. }
  rewrite (bind_silent _ _ _ _ _ Hcols).
  exec_exact. reflexivity.
Qed.

End NavigateFromBreadcrumb.

(* ================================================================== *)
(** ** Double clicks on any item                                       *)
(* ================================================================== *)

Section SlidingAnyPath.

Variables (s : Picker) (p : string) (node : TreeNode).

Let tree := fullTree s.
Let path := normalize (Some p).
Let parent := Js.or_else (parentOf (Some path)) "/".
Let grandparent := Js.or_else (parentOf (Some parent)) "/".

Hypothesis p_resolves : findNode tree (Some p) = Some node.

Lemma slide_nodes_resolve :
  findNode tree (Some path) = Some node /\
  (exists m, findNode tree (Some parent) = Some m) /\
  (exists g, findNode tree (Some grandparent) = Some g).
Proof.
  assert (Hpath : findNode tree (Some path) = Some node)
    by (unfold path; now rewrite findNode_normalize).
  destruct (findNode_parent tree path node Hpath) as [m Hm].
  fold parent in Hm.
  destruct (findNode_parent tree parent m Hm) as [g Hg].
  fold grandparent in Hg. eauto.
Qed.

Lemma slideLeft_exact :
  slideLeft p s
  = (Normal tt,
     set_column Col3 (children_or_empty (findNode tree (Some path)))
       (set_column Col2 (children_or_empty (findNode tree (Some parent)))
          (set_column Col1
             (children_or_empty (findNode tree (Some grandparent))) s)),
     []).
Proof.
  destruct slide_nodes_resolve as (Hn & [m Hm] & [g Hg]).
  unfold slideLeft. fold path. fold parent. fold grandparent.
  rewrite bind_gets. fold tree. rewrite Hn, Hm, Hg. reflexivity.
Qed.

Lemma slideRight_exact :
  slideRight p s
  = (Normal tt,
     (if String.eqb parent "/"
      then set_column Col3 []
             (set_column Col2 (children_or_empty (findNode tree (Some path)))
                (set_column Col1
                   (children_or_empty (findNode tree (Some parent))) s))
      else set_column Col3 (children_or_empty (findNode tree (Some path)))
             (set_column Col2 (children_or_empty (findNode tree (Some parent)))
                (set_column Col1
                   (children_or_empty (findNode tree (Some grandparent))) s))),
     []).
Proof.
  destruct slide_nodes_resolve as (Hn & [m Hm] & [g Hg]).
  unfold slideRight. fold path. fold parent. fold grandparent.
  rewrite bind_gets. fold tree. rewrite Hn, Hm, Hg.
  destruct (String.eqb parent "/"); reflexivity.
Qed.

End SlidingAnyPath.

Section DoubleClickAnyItem.

Variables (colId : ColId) (item : TreeNode) (s : Picker).

Let path := normalize (node_path item).

Lemma handleDoubleClickItem_unresolved :
  is_file item = false -> findNode (fullTree s) (Some path) = None ->
  handleDoubleClickItem colId item s = (Normal tt, s, []).
Proof.
  intros Hfile Hnone. unfold handleDoubleClickItem. fold path.
  now rewrite Hfile, bind_gets, Hnone.
Qed.

(** A double click on a row that is not a file and resolves: the slide
    of its column never throws, and the selection, the bar and the
    history follow. *)
Lemma handleDoubleClickItem_exact (node : TreeNode) :
  is_file item = false -> findNode (fullTree s) (Some path) = Some node ->
  exists shown,
    match colId with
    | Col1 => slideRight path s
    | Col2 => renderColumn Col3 (children_or_empty (Some node)) s
    | Col3 => slideLeft path s
    end = (Normal tt, shown, []) /\
    handleDoubleClickItem colId item s
    = pushHistory path
        (set_breadcrumb (crumbs_of (Some path) (Some path))
           (set_selectedPath (Some path) shown)).
Proof.
  intros Hfile Hnode. unfold handleDoubleClickItem. fold path.
  rewrite Hfile, bind_gets, Hnode.
  destruct colId.
  - pose proof (slideRight_exact s path node Hnode) as Hrun.
    cbv zeta in Hrun.
    rewrite (bind_silent _ _ _ _ _ Hrun). exec_exact.
    eexists. split; [exact Hrun | reflexivity].
  - assert (Hrun :
      (cs <- children_of (Some node) ;; renderColumn Col3 (or_empty cs)) s
      = (Normal tt, set_column Col3 (children_or_empty (Some node)) s, []))
      by reflexivity.
    rewrite (bind_silent _ _ _ _ _ Hrun). exec_exact.
    eexists. split; reflexivity.
  - pose proof (slideLeft_exact s path node Hnode) as Hrun.
    cbv zeta in Hrun.
    rewrite (bind_silent _ _ _ _ _ Hrun). exec_exact.
    eexists. split; [exact Hrun | reflexivity].
Qed.

End DoubleClickAnyItem.

Section NoThrow.

Lemma pushHistory_completed (p : string) (s : Picker) :
  completed (pushHistory p s) = true.
Proof. reflexivity. Qed.

Lemma jumpToPath_completed (full : option string) (flag : bool) (s : Picker) :
  completed (jumpToPath full flag s) = true.
Proof.
  destruct (jumpToPath_run full flag s) as [bar Hrun]. cbv zeta in Hrun.
  rewrite Hrun. destruct flag; reflexivity.
Qed.

Lemma handleDoubleClickItem_completed colId item (s : Picker) :
  completed (handleDoubleClickItem colId item s) = true.
Proof.
  destruct (is_file item) eqn:Hfile.
  - unfold handleDoubleClickItem. now rewrite Hfile.
  - destruct (findNode (fullTree s) (Some (normalize (node_path item))))
      as [node|] eqn:Hnode.
    + destruct (handleDoubleClickItem_exact colId item s node Hfile Hnode)
        as (shown & _ & ->).
      apply pushHistory_completed.
    + now rewrite (handleDoubleClickItem_unresolved colId item s Hfile Hnode).
Qed.

Lemma back_completed (s : Picker) : completed (back s) = true.
Proof.
  destruct (Z.le_gt_cases (historyIndex s) 0) as [Hle | Hgt].
  - now rewrite (back_at_start s Hle).
  - rewrite (back_run s Hgt). apply jumpToPath_completed.
Qed.

End NoThrow.

(** X9.  No user action makes a handler throw: loading, clicks and
    double clicks on rows, double clicks on breadcrumb segments, the
    Close, Open, Back and Up buttons and key presses in the path input
    all complete, in every state of the picker and for every tree. *)
Theorem no_action_throws (a : Action) (s : Picker) :
  completed (step a s) = true.
Proof.
  destruct a; cbn [step].
  - unfold loadTree. rewrite dirtree_root.
    rewrite bind_modify, bind_renderColumn.
    now rewrite updateBreadcrumb_exact.
  - rewrite bind_gets. destruct (nth_error (column col s) row); reflexivity.
  - rewrite bind_gets. destruct (nth_error (column col s) row) as [item|];
      [apply handleDoubleClickItem_completed | reflexivity].
  - rewrite bind_gets. destruct (nth_error (breadcrumb s) segment) as [c|];
      [|reflexivity].
    rewrite navigateFromBreadcrumb_exact. apply pushHistory_completed.
  - reflexivity.
  - unfold openBtn_onclick. rewrite bind_gets.
    destruct (selectedPath s) as [p|]; [|reflexivity].
    destruct (negb (Js.truthy p)); reflexivity.
  - apply back_completed.
  - unfold upBtn_onclick. rewrite bind_gets.
    destruct (parentOf _) as [p|]; [|reflexivity].
    destruct (Js.truthy p); [apply jumpToPath_completed | reflexivity].
  - unfold pathInput_keydown. destruct (String.eqb key "Enter"); [|reflexivity].
    destruct (Js.truthy (Js.trim value));
      [apply jumpToPath_completed | reflexivity].
Qed.

(** X10.  For a directory whose normalized path resolves, a breadcrumb
    jump to that path and a double click on the directory in column 1
    end in the same picker (columns, selection, breadcrumb, history and
    index), except that only the breadcrumb jump records [pathParts]; both
    complete and dispatch nothing. *)
Theorem breadcrumb_jump_is_col1_double_click
        (s : Picker) (item : TreeNode) (p : string) (node : TreeNode) :
  is_file item = false ->
  node_path item = Some p ->
  normalize (Some p) = p ->
  findNode (fullTree s) (Some p) = Some node ->
  navigateFromBreadcrumb p s
  = (Normal tt,
     set_pathParts (Js.split "/" p)
       (after (handleDoubleClickItem Col1 item s)),
     []) /\
  completed (handleDoubleClickItem Col1 item s) = true /\
  emitted (handleDoubleClickItem Col1 item s) = [].
Proof.
  intros Hfile Hpath Hnorm Hnode.
  assert (Hnode' :
    findNode (fullTree s) (Some (normalize (node_path item))) = Some node)
    by (now rewrite Hpath, Hnorm).
  destruct (handleDoubleClickItem_exact Col1 item s node Hfile Hnode')
    as (shown & Hslide & Hdbl).
  rewrite Hpath, Hnorm in Hslide, Hdbl.
  pose proof (slideRight_exact s p node Hnode) as Hright.
  cbv zeta in Hright. rewrite !Hnorm in Hright.
  assert (Eshown : shown
    = (if String.eqb (Js.or_else (parentOf (Some p)) "/") "/"
       then set_column Col3 []
              (set_column Col2 (children_or_empty (findNode (fullTree s) (Some p)))
                 (set_column Col1
                    (children_or_empty
                       (findNode (fullTree s)
                          (Some (Js.or_else (parentOf (Some p)) "/")))) s))
       else set_column Col3 (children_or_empty (findNode (fullTree s) (Some p)))
              (set_column Col2
                 (children_or_empty
                    (findNode (fullTree s)
                       (Some (Js.or_else (parentOf (Some p)) "/"))))
                 (set_column Col1
                    (children_or_empty
                       (findNode (fullTree s)
                          (Some (Js.or_else
                                   (parentOf
                                      (Some (Js.or_else (parentOf (Some p)) "/")))
                                   "/")))) s))))
    by congruence.
  rewrite Hdbl, navigateFromBreadcrumb_exact. cbv zeta.
  rewrite !Hnorm, findNode_optional_parent, Eshown, !Hnode.
  clear Hdbl Hslide Hright Eshown.
  unfold pushHistory, modify, after, completed, emitted.
  cbn [fst snd].
  destruct (String.eqb (Js.or_else (parentOf (Some p)) "/") "/");
    cbn -[Js.aslice Js.split crumbs_of children_or_empty Z.sub Z.add Z.ltb
          Js.or_else parentOf findNode];
    destruct (historyIndex s <? Z.of_nat (List.length (history s)) - 1);
    repeat split; reflexivity.
Qed.

Lemma breadcrumb_jump_is_col1_double_click_witness :
  let s := jumped_picker "/a/b/c/d" in
  let item := first_row (col1 s) in
  node_path item = Some "/a/b" /\
  columns (after (navigateFromBreadcrumb "/a/b" s))
  = columns (after (handleDoubleClickItem Col1 item s)) /\
  history (after (navigateFromBreadcrumb "/a/b" s))
  = history (after (handleDoubleClickItem Col1 item s)).
Proof.
  intros s item.
  assert (Hfile : is_file item = false) by (vm_compute; reflexivity).
  assert (Hpath : node_path item = Some "/a/b") by (vm_compute; reflexivity).
  assert (Hnode : findNode (fullTree s) (Some "/a/b") = Some item)
    by (vm_compute; reflexivity).
  destruct (breadcrumb_jump_is_col1_double_click s item "/a/b" item
              Hfile Hpath eq_refl Hnode) as (Hnav & _ & _).
  split; [exact Hpath|]. rewrite Hnav. split; reflexivity.
Defined.

Section PushedLast.

(** Whatever the log looked like, after [pushHistory(p)] the entry under
    the index is [p] and it is the last one. *)
Lemma pushHistory_last (p : string) (s : Picker) :
  exists kept,
    history (after (pushHistory p s)) = (kept ++ [p])%list /\
    historyIndex (after (pushHistory p s)) = Z.of_nat (List.length kept) /\
    (kept = Js.aslice (history s) 0 (historyIndex s + 1) \/ kept = history s).
Proof.
  unfold pushHistory, modify, after. simpl.
  destruct (historyIndex s <? Z.of_nat (List.length (history s)) - 1); simpl.
  - exists (Js.aslice (history s) 0 (historyIndex s + 1)).
    rewrite length_app. simpl. split; [reflexivity|]. split; [lia | now left].
  - exists (history s).
    rewrite length_app. simpl. split; [reflexivity|]. split; [lia | now right].
Qed.

Lemma at_index_last {A} (kept : list A) (x : A) :
  at_index (kept ++ [x]) (Z.of_nat (List.length kept)) = Some x.
Proof.
  unfold at_index.
  replace (Z.of_nat (List.length kept) <? 0) with false
    by (symmetry; apply Z.ltb_ge; lia).
  rewrite Nat2Z.id, nth_error_app2 by lia.
  now rewrite Nat.sub_diag.
Qed.

Lemma pushHistory_current (p : string) (s : Picker) :
  at_index (history (after (pushHistory p s)))
           (historyIndex (after (pushHistory p s))) = Some p.
Proof.
  destruct (pushHistory_last p s) as (kept & -> & -> & _).
  apply at_index_last.
Qed.

End PushedLast.

(** X11.  A breadcrumb jump to a path that normalizes to the root
    completes, lists the root's children in column 1 and again in column
    2, empties column 3, selects ["/"], records [pathParts] as the two
    empty strings of ["/".split("/")] and pushes ["/"] as the current
    history entry. *)
Theorem breadcrumb_jump_to_root (p : string) (s : Picker) :
  normalize (Some p) = "/" ->
  let r := navigateFromBreadcrumb p s in
  completed r = true /\ emitted r = [] /\
  col1 (after r) = children_or_empty (Some (fullTree s)) /\
  col2 (after r) = children_or_empty (Some (fullTree s)) /\
  col3 (after r) = [] /\
  selectedPath (after r) = Some "/" /\
  pathParts (after r) = [""; ""] /\
  at_index (history (after r)) (historyIndex (after r)) = Some "/".
Proof.
  intros Hroot r. subst r. rewrite navigateFromBreadcrumb_exact. cbv zeta.
  rewrite !Hroot.
  change (Js.or_else (parentOf (Some "/")) "/") with "/".
  change (String.eqb "/" "/") with true. cbv iota.
  change (findNode (fullTree s) (Some "/")) with (Some (fullTree s)).
  destruct (pushHistory_frame "/"
              (set_breadcrumb (crumbs_of (Some "/") (Some "/"))
                 (set_pathParts (Js.split "/" "/")
                    (set_selectedPath (Some "/")
                       (set_column Col3 []
                          (set_column Col2 (children_or_empty (Some (fullTree s)))
                             (set_column Col1
                                (children_or_empty (Some (fullTree s))) s)))))))
    as (Hc & He & H1 & H2 & H3 & Hsel & _).
  split; [exact Hc|]. split; [exact He|].
  split; [exact H1|]. split; [exact H2|]. split; [exact H3|].
  split; [exact Hsel|]. split; [|apply pushHistory_current].
  unfold pushHistory, modify, after. simpl.
  destruct (historyIndex s <? _); reflexivity.
Qed.

Lemma breadcrumb_jump_to_root_witness :
  let r := navigateFromBreadcrumb "/" (jumped_picker "/a/b/c") in
  map node_path (col1 (after r)) = [Some "/a"; Some "/y"] /\
  map node_path (col2 (after r)) = [Some "/a"; Some "/y"] /\
  col3 (after r) = [].
Proof.
  destruct (breadcrumb_jump_to_root "/" (jumped_picker "/a/b/c") eq_refl)
    as (_ & _ & H1 & H2 & H3 & _).
  cbv zeta. rewrite H1, H2, H3. repeat split; vm_compute; reflexivity.
Defined.

(** X12.  A breadcrumb jump to a path that does not resolve and whose
    parent is not the root still completes, selects the normalized path
    and pushes it as the current history entry; it empties column 3 and
    leaves columns 1 and 2 showing what they showed before. *)
Theorem breadcrumb_jump_to_missing_path (p : string) (s : Picker) :
  Js.or_else (parentOf (Some (normalize (Some p)))) "/" <> "/" ->
  findNode (fullTree s) (Some p) = None ->
  let r := navigateFromBreadcrumb p s in
  completed r = true /\ emitted r = [] /\
  col1 (after r) = col1 s /\
  col2 (after r) = col2 s /\
  col3 (after r) = [] /\
  selectedPath (after r) = Some (normalize (Some p)) /\
  at_index (history (after r)) (historyIndex (after r))
  = Some (normalize (Some p)).
Proof.
  intros Hdeep Hnone r. subst r. rewrite navigateFromBreadcrumb_exact.
  cbv zeta. rewrite findNode_normalize, Hnone.
  apply String.eqb_neq in Hdeep. rewrite Hdeep.
  destruct (pushHistory_frame (normalize (Some p))
              (set_breadcrumb
                 (crumbs_of (Some (normalize (Some p)))
                            (Some (normalize (Some p))))
                 (set_pathParts (Js.split "/" (normalize (Some p)))
                    (set_selectedPath (Some (normalize (Some p)))
                       (set_column Col3 [] s)))))
    as (Hc & He & H1 & H2 & H3 & Hsel & _).
  split; [exact Hc|]. split; [exact He|].
  split; [exact H1|]. split; [exact H2|]. split; [exact H3|].
  split; [exact Hsel | apply pushHistory_current].
Qed.

Lemma breadcrumb_jump_to_missing_path_witness :
  let s := jumped_picker "/a/b/c" in
  let r := navigateFromBreadcrumb "/a/q" s in
  col1 (after r) = col1 s /\ col2 (after r) = col2 s /\
  col3 (after r) = [] /\ selectedPath (after r) = Some "/a/q".
Proof.
  destruct (breadcrumb_jump_to_missing_path "/a/q" (jumped_picker "/a/b/c"))
    as (_ & _ & H1 & H2 & H3 & Hsel & _);
    [vm_compute; discriminate | vm_compute; reflexivity |].
  cbv zeta. repeat split; assumption.
Defined.

(** X13.  After a jump to a path made of valid names, a double click on
    the [i]-th breadcrumb segment completes, selects the path of the
    first [i + 1] segments, makes it the current history entry and
    repaints the bar with exactly those segments. *)
Theorem breadcrumb_segment_round_trip
        (segs : list string) (flag : bool) (s : Picker) (i : nat) :
  Forall (fun x => valid_name x = true) segs ->
  (i < List.length segs)%nat ->
  let s1 := after (jumpToPath (Some (path_of segs)) flag s) in
  let r := step (BreadcrumbDblClick i) s1 in
  let up := path_of (firstn (S i) segs) in
  completed r = true /\
  selectedPath (after r) = Some up /\
  at_index (history (after r)) (historyIndex (after r)) = Some up /\
  map label (breadcrumb (after r)) = firstn (S i) segs.
Proof.
  intros Hval Hi s1 r up.
  assert (Hne : segs <> []) by (destruct segs; [simpl in Hi; lia | discriminate]).
  assert (Hbar : nth_error (breadcrumb s1) i
                 = Some (mkCrumb (nth i segs "") up (S i =? List.length segs)%nat)).
  { unfold s1. rewrite jumpToPath_breadcrumb.
    rewrite (normalize_path_of segs Hval), (crumbs_of_path_of segs Hval Hne).
    rewrite nth_error_map, nth_error_seq.
    replace (i <? List.length segs)%nat with true
      by (symmetry; apply Nat.ltb_lt; exact Hi).
    reflexivity. }
  assert (Hup : Forall (fun x => valid_name x = true) (firstn (S i) segs))
    by (now apply Forall_firstn_skipn).
  assert (Hnorm : normalize (Some up) = up) by (now apply normalize_path_of).
  subst r. cbn [step]. rewrite bind_gets, Hbar. cbn [target].
  rewrite navigateFromBreadcrumb_exact. cbv zeta. rewrite !Hnorm.
  match goal with
  | |- context [pushHistory up ?x] =>
      destruct (pushHistory_frame up x) as (Hc & _ & _ & _ & _ & Hsel & _ & Hb)
  end.
  split; [exact Hc|]. split; [exact Hsel|].
  split; [apply pushHistory_current|].
  rewrite Hb. cbn [breadcrumb set_breadcrumb].
  unfold crumbs_of. rewrite Hnorm. subst up.
  rewrite (segments_path_of _ Hup).
  destruct (List.length (firstn (S i) segs) =? 0)%nat eqn:E.
  - apply Nat.eqb_eq in E. rewrite length_firstn in E. lia.
  - apply crumb_list_labels.
Qed.

Lemma breadcrumb_segment_round_trip_witness :
  let s1 := after (jumpToPath (Some "/a/b/c") true sample_picker) in
  let r := step (BreadcrumbDblClick 1) s1 in
  selectedPath (after r) = Some "/a/b" /\
  map label (breadcrumb (after r)) = ["a"; "b"].
Proof.
  assert (Hval : Forall (fun x => valid_name x = true) ["a"; "b"; "c"])
    by (repeat constructor).
  destruct (breadcrumb_segment_round_trip ["a"; "b"; "c"] true sample_picker 1
              Hval) as (_ & Hsel & _ & Hbar); [simpl; lia|].
  split; [exact Hsel | exact Hbar].
Defined.

(* ================================================================== *)
(** ** More on the back log                                            *)
(* ================================================================== *)



Lemma jumpToPath_columns_emitted (full : option string) (s : Picker) :
  emitted (jumpToPath full false s) = [].
Proof.
  destruct (jumpToPath_run full false s) as [bar Hrun]. cbv zeta in Hrun.
  now rewrite Hrun.
Qed.

(** X15.  [back()] never changes the log and never dispatches or throws.
    With the index at 0 or below it changes nothing at all; otherwise it
    moves the index one entry down and selects that entry, normalized,
    leaving the snapshot alone. *)
Theorem back_moves_the_index_only (s : Picker) :
  completed (back s) = true /\ emitted (back s) = [] /\
  history (after (back s)) = history s /\
  (historyIndex s <= 0 -> after (back s) = s) /\
  (0 < historyIndex s ->
   historyIndex (after (back s)) = historyIndex s - 1 /\
   selectedPath (after (back s))
   = Some (normalize (at_index (history s) (historyIndex s - 1))) /\
   fullTree (after (back s)) = fullTree s).
Proof.
  destruct (Z.le_gt_cases (historyIndex s) 0) as [Hle | Hgt].
  - rewrite (back_at_start s Hle).
    split; [reflexivity|]. split; [reflexivity|]. split; [reflexivity|].
    split; [reflexivity|]. intros Hgt. lia.
  - split; [apply back_completed|].
    destruct (back_history s Hgt) as (Hh & Hi & Hsel).
    split; [|split; [exact Hh|split]].
    + rewrite (back_run s Hgt).
      apply jumpToPath_columns_emitted.
    + intros Hle. lia.
    + intros _. split; [exact Hi|]. split; [exact Hsel|].
      rewrite (back_run s Hgt).
      exact (proj1 (proj2 (jumpToPath_history _ false _))).
Qed.

Lemma back_moves_the_index_only_witness :
  let s := after (jumpToPath (Some "/a/b") true (jumped_picker "/a")) in
  history s = ["/a"; "/a/b"] /\
  history (after (back s)) = history s /\
  historyIndex (after (back s)) = 0 /\
  selectedPath (after (back s)) = Some "/a" /\
  after (back (jumped_picker "/a")) = jumped_picker "/a".
Proof.
  intros s.
  destruct (back_moves_the_index_only s) as (_ & _ & Hh & _ & Hdown).
  destruct Hdown as (Hi & Hsel & _); [vm_compute; reflexivity|].
  split; [vm_compute; reflexivity|]. split; [exact Hh|].
  split; [rewrite Hi; vm_compute; reflexivity|].
  split; [rewrite Hsel; vm_compute; reflexivity|].
  destruct (back_moves_the_index_only (jumped_picker "/a"))
    as (_ & _ & _ & Hstay & _).
  apply Hstay. vm_compute. discriminate.
Defined.

(** X16.  With the index on an entry of the log, [pushHistory(p)]
    followed by [back()] puts the index back where it was and selects the
    entry that was current before the push, normalized; the entries up to
    the index are unchanged and [p] stays in the log as the one forward
    entry. *)
Theorem push_then_back_returns (p : string) (s : Picker) :
  0 <= historyIndex s < Z.of_nat (List.length (history s)) ->
  let s' := after (back (after (pushHistory p s))) in
  historyIndex s' = historyIndex s /\
  selectedPath s'
  = Some (normalize (at_index (history s) (historyIndex s))) /\
  at_index (history s') (historyIndex s')
  = at_index (history s) (historyIndex s) /\
  history s'
  = (firstn (Z.to_nat (historyIndex s + 1)) (history s) ++ [p])%list.
Proof.
  intros Hi s'.
  destruct (pushHistory_history p s) as [Hh Hidx]; [lia|].
  destruct (back_history (after (pushHistory p s))) as (Hbh & Hbi & Hbs);
    [rewrite Hidx; lia|].
  fold s' in Hbh, Hbi, Hbs.
  assert (Hkeep : at_index (history (after (pushHistory p s))) (historyIndex s)
                  = at_index (history s) (historyIndex s)).
  { rewrite Hh. unfold at_index.
    replace (historyIndex s <? 0) with false by (symmetry; apply Z.ltb_ge; lia).
    rewrite nth_error_app1 by (rewrite length_firstn; lia).
    rewrite nth_error_firstn.
    replace (Z.to_nat (historyIndex s) <? Z.to_nat (historyIndex s + 1))%nat
      with true by (symmetry; apply Nat.ltb_lt; lia).
    reflexivity. }
  assert (Hsame : historyIndex s' = historyIndex s) by (rewrite Hbi, Hidx; lia).
  split; [exact Hsame|]. split; [|split].
  - rewrite Hbs, Hidx.
    replace (historyIndex s + 1 - 1) with (historyIndex s) by lia.
    now rewrite Hkeep.
  - now rewrite Hsame, Hbh, Hkeep.
  - now rewrite Hbh, Hh.
Qed.

Lemma push_then_back_returns_witness :
  let s := jumped_picker "/a/b" in
  let s' := after (back (after (pushHistory "/y" s))) in
  historyIndex s' = 0 /\ selectedPath s' = Some "/a/b" /\
  history s' = ["/a/b"; "/y"].
Proof.
  destruct (push_then_back_returns "/y" (jumped_picker "/a/b"))
    as (Hi & Hsel & _ & Hh); [vm_compute; split; [discriminate | reflexivity]|].
  cbv zeta. split; [rewrite Hi; vm_compute; reflexivity|].
  split; [rewrite Hsel; vm_compute; reflexivity|].
  rewrite Hh. vm_compute. reflexivity.
Defined.

(* ================================================================== *)
(** ** The Up button and the path input                                *)
(* ================================================================== *)

(** X17.  Whenever [parentOf] finds a parent for the selection, the Up
    button does exactly what [jumpToPath(parent)] does: it completes,
    selects the normalized parent and makes it the current history
    entry.  From a snapshot path it selects the path of the containing
    directory. *)
Theorem up_jumps_to_parent (s : Picker) (q : string) :
  parentOf (Some (Js.or_else (selectedPath s) "/")) = Some q ->
  let r := upBtn_onclick s in
  r = jumpToPath (Some q) true s /\
  completed r = true /\
  selectedPath (after r) = Some (normalize (Some q)) /\
  at_index (history (after r)) (historyIndex (after r))
  = Some (normalize (Some q)) /\
  (forall segs x,
      Forall (fun y => valid_name y = true) segs -> valid_name x = true ->
      selectedPath s = Some (path_of (segs ++ [x])) ->
      selectedPath (after r) = Some (path_of segs)).
Proof.
  intros Hq r.
  assert (Hr : r = jumpToPath (Some q) true s).
  { subst r. unfold upBtn_onclick. rewrite bind_gets, Hq.
    now rewrite (parentOf_truthy _ q Hq). }
  split; [exact Hr|]. rewrite Hr.
  destruct (jumpToPath_history (Some q) true s) as (Hsel & _ & _ & Hpush).
  destruct (Hpush eq_refl) as [Hh Hi].
  split; [apply jumpToPath_completed|]. split; [exact Hsel|]. split.
  - rewrite Hh, Hi. apply pushHistory_current.
  - intros segs x Hsegs Hx Hs. rewrite Hsel. f_equal.
    rewrite Hs in Hq.
    assert (Ht : Js.or_else (Some (path_of (segs ++ [x]))) "/"
                 = path_of (segs ++ [x])).
    { unfold Js.or_else, path_of. destruct (segs ++ [x])%list; reflexivity. }
    rewrite Ht, (parentOf_path_of segs x Hsegs Hx) in Hq.
    injection Hq as <-. now apply normalize_path_of.
Qed.

Lemma up_jumps_to_parent_witness :
  let s := jumped_picker "/a/b/c" in
  selectedPath s = Some "/a/b/c" /\
  selectedPath (after (upBtn_onclick s)) = Some "/a/b" /\
  map node_path (col2 (after (upBtn_onclick s))) = [Some "/a/b/c"].
Proof.
  intros s.
  destruct (up_jumps_to_parent s "/a/b") as (Hr & _ & Hsel & _);
    [vm_compute; reflexivity|].
  split; [vm_compute; reflexivity|]. split; [exact Hsel|].
  rewrite Hr. vm_compute. reflexivity.
Defined.

Section Trim.






End Trim.



(** X19.  In a state reached by user actions, a click on a rendered row
    changes the selection to the row's path and nothing else, and Open
    pressed right after dispatches one [opfs-file] event with that path
    and changes nothing. *)
Theorem click_then_open (actions : list Action) (col : ColId) (row : nat)
        (item : TreeNode) (p : string) :
  let s := run actions constructor in
  nth_error (column col s) row = Some item ->
  node_path item = Some p ->
  let clicked := step (RowClick col row) s in
  clicked = (Normal tt, set_selectedPath (Some p) s, []) /\
  step OpenClick (after clicked) = (Normal tt, after clicked, [OpfsFile p]).
Proof.
  intros s Hrow Hp clicked.
  assert (Hclick : clicked = (Normal tt, set_selectedPath (Some p) s, [])).
  { subst clicked. cbn [step]. rewrite bind_gets, Hrow.
    unfold row_click, modify. now rewrite Hp. }
  split; [exact Hclick|]. rewrite Hclick. cbn [step].
  apply openBtn_run; [reflexivity|].
  assert (Hsel : selectable s)
    by (apply run_selectable, constructor_selectable).
  pose proof (selectable_row s col row item Hsel Hrow) as Hne.
  congruence.
Qed.

Lemma click_then_open_witness :
  let s := run [LoadCompleted sample_storage] constructor in
  emitted (step OpenClick (after (step (RowClick Col1 0) s)))
  = [OpfsFile "/a"].
Proof.
  intros s.
  destruct (nth_error (column Col1 s) 0) as [item|] eqn:Hrow;
    [|vm_compute in Hrow; discriminate].
  assert (Hp : node_path item = Some "/a").
  { vm_compute in Hrow. injection Hrow as <-. reflexivity. }
  destruct (click_then_open [LoadCompleted sample_storage] Col1 0 item "/a"
              Hrow Hp) as [_ Hopen].
  fold s in Hopen. now rewrite Hopen.
Defined.

(* ================================================================== *)
(** ** What the back log holds                                         *)
(* ================================================================== *)

Section AbsoluteHistory.

Lemma absolute_refl (s : Picker) : keeps_absolute s s.
Proof. intros H. exact H. Qed.

Lemma absolute_trans (s1 s2 s3 : Picker) :
  keeps_absolute s1 s2 -> keeps_absolute s2 s3 -> keeps_absolute s1 s3.
Proof. unfold keeps_absolute. auto. Qed.

Lemma Forall_aslice {A} (P : A -> Prop) (l : list A) (b e : Z) :
  Forall P l -> Forall P (Js.aslice l b e).
Proof.
  intros H. unfold Js.aslice.
  apply Forall_firstn_skipn. now apply Forall_firstn_skipn.
Qed.

Lemma pushHistory_absolute (p : string) :
  Js.startsWith p "/" = true -> respects keeps_absolute (pushHistory p).
Proof.
  intros Hp s Habs. unfold history_absolute, pushHistory, modify, after in *.
  simpl.
  destruct (historyIndex s <? Z.of_nat (List.length (history s)) - 1); simpl;
    apply Forall_app; split; try (now repeat constructor); try assumption.
  now apply Forall_aslice.
Qed.

End AbsoluteHistory.

Ltac absolute_steps :=
  repeat first
    [ progress cbv zeta
    | apply (respects_ret _ absolute_refl)
    | apply (respects_gets _ absolute_refl)
    | apply (respects_dispatchEvent _ absolute_refl)
    | apply (respects_throw _ absolute_refl)
    | apply pushHistory_absolute; apply normalize_absolute
    | apply respects_updateBreadcrumb;
        let H := fresh in intros ? ? H; exact H
    | apply respects_modify; let H := fresh in intros ? H; exact H
    | apply (respects_bind_children_of _ absolute_refl); intros
    | apply (respects_bind _ absolute_trans); [|intros]
    | match goal with
      | |- respects _ (if ?c then _ else _) => destruct c
      | |- respects _ (match ?x with _ => _ end) => destruct x
      end ].

Section AbsoluteHandlers.

Lemma jumpToPath_absolute (full : option string) (flag : bool) :
  respects keeps_absolute (jumpToPath full flag).
Proof. unfold jumpToPath. absolute_steps. Qed.

Lemma navigateFromBreadcrumb_absolute (p : string) :
  respects keeps_absolute (navigateFromBreadcrumb p).
Proof. unfold navigateFromBreadcrumb. absolute_steps. Qed.

Lemma handleDoubleClickItem_absolute (colId : ColId) (item : TreeNode) :
  respects keeps_absolute (handleDoubleClickItem colId item).
Proof. unfold handleDoubleClickItem. absolute_steps. Qed.

Lemma back_absolute : respects keeps_absolute back.
Proof.
  intros s Habs.
  destruct (Z.le_gt_cases (historyIndex s) 0) as [Hle | Hgt].
  - now rewrite (back_at_start s Hle).
  - destruct (back_history s Hgt) as (Hh & _).
    unfold history_absolute. now rewrite Hh.
Qed.

Lemma step_absolute (a : Action) : respects keeps_absolute (step a).
Proof.
  destruct a; cbn [step]; try apply back_absolute;
    unfold loadTree, row_click, closeBtn_onclick, openBtn_onclick,
           upBtn_onclick, pathInput_keydown;
    absolute_steps;
    first [ apply handleDoubleClickItem_absolute
          | apply navigateFromBreadcrumb_absolute
          | apply jumpToPath_absolute ].
Qed.

Lemma run_absolute (actions : list Action) :
  forall s, history_absolute s -> history_absolute (run actions s).
Proof.
  induction actions as [|a rest IH]; intros s H; simpl; [exact H|].
  apply IH. now apply step_absolute.
Qed.

End AbsoluteHandlers.

(** X20.  Every entry that user actions put in the back log starts with
    a slash (so none is empty): this holds of every state reached from
    the freshly constructed picker, and every action preserves it,
    whether its handler completes or not. *)
Theorem history_entries_are_absolute (actions : list Action) (s : Picker) :
  history_absolute (run actions constructor) /\
  (forall e, In e (history (run actions constructor)) ->
             Js.startsWith e "/" = true /\ e <> "") /\
  (history_absolute s -> forall a, history_absolute (after (step a s))).
Proof.
  assert (H0 : history_absolute (run actions constructor))
    by (apply run_absolute; constructor).
  split; [exact H0|]. split.
  - intros e He. pose proof (proj1 (Forall_forall _ _) H0 e He) as Hs.
    split; [exact Hs|]. intros ->. discriminate.
  - intros Habs a. now apply step_absolute.
Qed.

Lemma history_entries_are_absolute_witness :
  let actions :=
    [LoadCompleted sample_storage; PathKeydown "Enter" "a/b";
     RowDblClick Col2 0; UpClick; BackClick] in
  history (run actions constructor) = ["/a/b"; "/a/b/c"; "/a/b"] /\
  history_absolute (run actions constructor) /\
  history_absolute (after (step UpClick (jumped_picker "/a/b"))).
Proof.
  intros actions.
  destruct (history_entries_are_absolute actions (jumped_picker "/a/b"))
    as (Hrun & _ & Hstep).
  split; [vm_compute; reflexivity|]. split; [exact Hrun|].
  apply Hstep. unfold history_absolute.
  replace (history (jumped_picker "/a/b")) with ["/a/b"]
    by (vm_compute; reflexivity).
  now repeat constructor.
Defined.

(* ================================================================== *)
(** ** More on jumpToPath                                              *)
(* ================================================================== *)

(** X21.  [jumpToPath] is permissive: on any tree and any path it
    completes, dispatches nothing, keeps the snapshot, selects the
    normalized path and, when asked to push, makes it the current history
    entry, also when the path does not resolve; in that case the column
    that would list the target (column 2 for two segments, column 3 for
    three) is empty. *)
Theorem jumpToPath_is_permissive (full : string) (flag : bool) (s : Picker) :
  let r := jumpToPath (Some full) flag s in
  completed r = true /\ emitted r = [] /\
  fullTree (after r) = fullTree s /\
  selectedPath (after r) = Some (normalize (Some full)) /\
  (flag = true ->
   at_index (history (after r)) (historyIndex (after r))
   = Some (normalize (Some full))) /\
  (flag = false ->
   history (after r) = history s /\ historyIndex (after r) = historyIndex s) /\
  (findNode (fullTree s) (Some full) = None ->
   (List.length (segments full) = 2%nat -> col2 (after r) = []) /\
   (List.length (segments full) = 3%nat -> col3 (after r) = [])).
Proof.
  intros r. subst r.
  destruct (jumpToPath_columns full flag s) as (Hc & He & Hsel & _ & H2 & H3).
  destruct (jumpToPath_history (Some full) flag s) as (_ & Ht & Hkeep & Hpush).
  split; [exact Hc|]. split; [exact He|]. split; [exact Ht|].
  split; [exact Hsel|]. split; [|split; [exact Hkeep|]].
  - intros Hflag. destruct (Hpush Hflag) as [Hh Hi]. rewrite Hh, Hi.
    apply pushHistory_current.
  - intros Hnone. rewrite findNode_descend in Hnone. split; intros Hk.
    + rewrite H2. repeat (rewrite Hk; cbn [Nat.leb]).
      rewrite firstn_all2 by lia. now rewrite Hnone.
    + rewrite H3. repeat (rewrite Hk; cbn [Nat.leb]).
      rewrite firstn_all2 by lia. now rewrite Hnone.
Qed.

Lemma jumpToPath_is_permissive_witness :
  let r := jumpToPath (Some "/a/nowhere") true sample_picker in
  findNode (fullTree sample_picker) (Some "/a/nowhere") = None /\
  selectedPath (after r) = Some "/a/nowhere" /\
  at_index (history (after r)) (historyIndex (after r)) = Some "/a/nowhere" /\
  col2 (after r) = [].
Proof.
  destruct (jumpToPath_is_permissive "/a/nowhere" true sample_picker)
    as (_ & _ & _ & Hsel & Hpush & _ & Hmissing).
  assert (Hnone : findNode (fullTree sample_picker) (Some "/a/nowhere") = None)
    by (vm_compute; reflexivity).
  split; [exact Hnone|]. split; [exact Hsel|].
  split; [exact (Hpush eq_refl)|].
  exact (proj1 (Hmissing Hnone) eq_refl).
Defined.

(** X22.  For a path with more than three segments, [jumpToPath] lists
    in column 1 the children of the ancestor at all but the last three
    segments, but looks columns 2 and 3 up from the root of the snapshot,
    walking the first two and all three of the last three segments; when
    the root has no child named like the third segment from the end, both
    are empty. *)
Theorem jumpToPath_deep_path_columns (full : string) (flag : bool) (s : Picker) :
  let tree := fullTree s in
  let parts := segments full in
  let k := List.length parts in
  let visible := skipn (k - 3) parts in
  let r := jumpToPath (Some full) flag s in
  (3 < k)%nat ->
  col1 (after r) = children_or_empty (descend tree (firstn (k - 3) parts)) /\
  col2 (after r) = children_or_empty (descend tree (firstn 2 visible)) /\
  col3 (after r) = children_or_empty (descend tree visible) /\
  (descend tree (firstn 1 visible) = None ->
   col2 (after r) = [] /\ col3 (after r) = []).
Proof.
  intros tree parts k visible r Hk. subst r.
  destruct (jumpToPath_columns full flag s) as (_ & _ & _ & H1 & H2 & H3).
  fold tree parts k in H1, H2, H3.
  replace (k <=? 3)%nat with false in H2, H3
    by (symmetry; apply Nat.leb_gt; exact Hk).
  fold visible in H2, H3.
  assert (Hlen : List.length visible = 3%nat)
    by (unfold visible; rewrite length_skipn; fold k; lia).
  rewrite Hlen in H2, H3. cbn [Nat.leb] in H2, H3.
  rewrite (firstn_all2 (n := 3) visible) in H3 by lia.
  split; [exact H1|]. split; [exact H2|]. split; [exact H3|].
  intros Hnone. rewrite H2, H3.
  assert (Hsplit2 : firstn 2 visible = (firstn 1 visible ++ skipn 1 (firstn 2 visible))%list).
  { destruct visible as [|a [|b l]]; reflexivity. }
  assert (Hsplit3 : visible = (firstn 1 visible ++ skipn 1 visible)%list)
    by (symmetry; apply firstn_skipn).
  rewrite Hsplit2, descend_app, Hnone.
  rewrite Hsplit3, descend_app, Hnone. split; reflexivity.
Qed.

Lemma jumpToPath_deep_path_columns_witness :
  let r := jumpToPath (Some "/a/b/c/d") true sample_picker in
  map node_path (col1 (after r)) = [Some "/a/b"; Some "/a/x"] /\
  col2 (after r) = [] /\ col3 (after r) = [].
Proof.
  destruct (jumpToPath_deep_path_columns "/a/b/c/d" true sample_picker)
    as (H1 & _ & _ & Hempty); [simpl; lia|].
  cbv zeta. split; [rewrite H1; vm_compute; reflexivity|].
  apply Hempty. vm_compute. reflexivity.
Defined.

(* ================================================================== *)
(** ** listdir                                                         *)
(* ================================================================== *)

Lemma clean_segments (path : string) :
  (if String.eqb (Js.or_else (Some path) "/") "/" then []
   else segments (Js.or_else (Some path) "/"))
  = segments path.
Proof.
  destruct path as [|c rest]; [reflexivity|].
  change (Js.or_else (Some (String c rest)) "/") with (String c rest).
  destruct (String.eqb (String c rest) "/") eqn:E; [|reflexivity].
  apply String.eqb_eq in E. now rewrite E.
Qed.

Section SortFacts.

Context {A : Type} (comparefn : A -> A -> Z).

Lemma sort_insert_perm (x : A) (l : list A) :
  Permutation (sort_insert comparefn x l) (x :: l).
Proof.
  induction l as [|y rest IH]; simpl; [reflexivity|].
  destruct (comparefn x y <? 0); [reflexivity|].
  rewrite IH. apply perm_swap.
Qed.

Lemma fold_insert_perm (a : list A) :
  forall acc,
    Permutation
      (fold_left (fun sorted x => sort_insert comparefn x sorted) a acc)
      (acc ++ a).
Proof.
  induction a as [|x rest IH]; intros acc; simpl.
  - now rewrite app_nil_r.
  - rewrite IH, sort_insert_perm. apply Permutation_middle.
Qed.

(** Sorting only reorders. *)
Lemma array_sort_perm (a : list A) : Permutation (array_sort comparefn a) a.
Proof. unfold array_sort. now rewrite fold_insert_perm. Qed.

End SortFacts.

Section ListdirLoop.

Lemma listdir_loop_names (entries : list (string * Handle)) :
  forall path,
    map (fun e => (entry_name e, entry_type e)) (listdir_loop path entries)
    = map (fun e => (fst e, kind (snd e))) entries.
Proof.
  induction entries as [|[n h] rest IH]; intros path; [reflexivity|].
  cbn [listdir_loop map fst snd entry_name entry_type]. now rewrite IH.
Qed.

(** What the loop has in [path] when it reaches the [k]-th entry: the
    directory path and the names of all the entries seen so far. *)
Lemma listdir_loop_nth (entries : list (string * Handle)) :
  Forall (fun e => Js.truthy (fst e) = true) entries ->
  forall path k,
    nth_error (listdir_loop path entries) k
    = option_map
        (fun e =>
           mkDirEntry (fst e) (kind (snd e))
             ((if String.eqb path "/" then "" else path) ++ "/"
              ++ Js.join "/" (map fst (firstn (S k) entries))))
        (nth_error entries k).
Proof.
  induction 1 as [|[n h] rest Hn Hrest IH]; intros path k.
  - now destruct k.
  - cbn [fst] in Hn. cbn [listdir_loop].
    set (base := if String.eqb path "/" then "" else path).
    assert (Hnext : (if String.eqb path "/" then "/" ++ n
                     else path ++ "/" ++ n) = base ++ "/" ++ n)
      by (unfold base; destruct (String.eqb path "/"); reflexivity).
    rewrite Hnext.
    destruct k as [|k]; [reflexivity|].
    cbn [nth_error]. rewrite IH.
    assert (Hnotroot : String.eqb (base ++ "/" ++ n) "/" = false).
    { apply String.eqb_neq. intros E.
      apply truthy_iff in Hn. apply (f_equal String.length) in E.
      rewrite !length_append in E. destruct n; [congruence|].
      simpl in E. lia. }
    rewrite Hnotroot.
    destruct (nth_error rest k) as [e|] eqn:He; [|reflexivity].
    cbn [option_map]. f_equal. f_equal.
    change (firstn (S (S k)) ((n, h) :: rest))
      with ((n, h) :: firstn (S k) rest).
    cbn [map fst]. rewrite join_cons.
    + now rewrite !append_assoc.
    + destruct rest; [destruct k; discriminate | discriminate].
Qed.

End ListdirLoop.

Lemma resolve_directory (clean : list string) :
  forall entries h,
    resolve (FileSystemDirectoryHandle entries) clean = Some h ->
    exists sub, h = FileSystemDirectoryHandle sub.
Proof.
  induction clean as [|p rest IH]; intros entries h Hres.
  - simpl in Hres. injection Hres as <-. now exists entries.
  - simpl in Hres.
    destruct (find (fun e => String.eqb (fst e) p) entries)
      as [[n [|sub]]|]; try discriminate.
    exact (IH _ _ Hres).
Qed.

(** [listdir] walks the segments of its path as [dirtree] does. *)
Lemma listdir_unfold (localeCompare : string -> string -> Z)
      (root : list (string * Handle)) (path : string) :
  listdir localeCompare root (Some path)
  = option_map
      (fun dir =>
         array_sort (listdir_compare localeCompare)
           (listdir_loop (Js.or_else (Some path) "/")
              (match dir with
               | FileSystemDirectoryHandle entries => entries
               | FileSystemFileHandle => []
               end)))
      (resolve (FileSystemDirectoryHandle root) (segments path)).
Proof.
  unfold listdir.
  assert (Hclean :
            (if String.eqb (Js.or_else (Some path) "/") "/" then []
             else segments (Js.or_else (Some path) "/"))
            = segments path).
  { destruct path as [|c rest]; [reflexivity|].
    change (Js.or_else (Some (String c rest)) "/") with (String c rest).
    destruct (String.eqb (String c rest) "/") eqn:E; [|reflexivity].
    apply String.eqb_eq in E. now rewrite E. }
  rewrite Hclean.
  destruct (resolve (FileSystemDirectoryHandle root) (segments path))
    as [h|] eqn:Hres; [|reflexivity].
  destruct (resolve_directory _ _ _ Hres) as [sub ->]. reflexivity.
Qed.

(** A handle reached from a well-formed one is well formed. *)
Lemma resolve_wf (clean : list string) :
  forall h h',
    resolve h clean = Some h' -> wf_handle h = true -> wf_handle h' = true.
Proof.
  induction clean as [|p rest IH]; intros h h' Hres Hwf.
  - simpl in Hres. now injection Hres as <-.
  - simpl in Hres. destruct h as [|es]; [discriminate|].
    cbn [getDirectoryHandle] in Hres.
    destruct (find (fun e => String.eqb (fst e) p) es)
      as [[n [|sub]]|] eqn:Hfind; try discriminate.
    apply find_some in Hfind. destruct Hfind as [Hin _].
    apply (IH _ _ Hres).
    exact (proj2 (proj2 (wf_handle_entries es Hwf) _ Hin)).
Qed.

(** X23.  [listdir] returns one element per entry of the directory, with
    the entry's name and kind, in some order; but the loop builds each
    path on top of the previous one: the entry that [entries()] yields in
    position [k] gets the directory path followed by the names of all the
    entries yielded up to it, so of two or more entries only the first
    yielded carries its own path. *)
Theorem listdir_paths_accumulate
        (localeCompare : string -> string -> Z)
        (root : list (string * Handle)) (path : string)
        (result : list DirEntry) :
  wf_handle (FileSystemDirectoryHandle root) = true ->
  listdir localeCompare root (Some path) = Some result ->
  exists entries,
    resolve (FileSystemDirectoryHandle root) (segments path)
    = Some (FileSystemDirectoryHandle entries) /\
    List.length result = List.length entries /\
    forall k name handle,
      nth_error entries k = Some (name, handle) ->
      In (mkDirEntry name (kind handle)
            ((if String.eqb path "/" then "" else path) ++ "/"
             ++ Js.join "/" (map fst (firstn (S k) entries))))
         result.
Proof.
  intros Hwf Hlist. rewrite listdir_unfold in Hlist.
  destruct (resolve (FileSystemDirectoryHandle root) (segments path))
    as [[|entries]|] eqn:Hres; try discriminate.
  { destruct (resolve_directory _ _ _ Hres) as [sub Hsub]. discriminate. }
  cbn [option_map] in Hlist.
  set (start := Js.or_else (Some path) "/") in Hlist.
  assert (Eresult : result
                    = array_sort (listdir_compare localeCompare)
                        (listdir_loop start entries)) by congruence.
  subst result. clear Hlist.
  exists entries. split; [reflexivity|].
  assert (Hbase : (if String.eqb start "/" then "" else start)
                  = (if String.eqb path "/" then "" else path))
    by (destruct path; reflexivity).
  pose proof (array_sort_perm (listdir_compare localeCompare)
                (listdir_loop start entries)) as Hperm.
  split.
  - rewrite (Permutation_length Hperm).
    rewrite <- (length_map (fun e => (entry_name e, entry_type e))).
    now rewrite listdir_loop_names, length_map.
  - intros k name handle Hk.
    apply (Permutation_in _ (Permutation_sym Hperm)).
    assert (Htruthy : Forall (fun e => Js.truthy (fst e) = true) entries).
    { assert (Hwf' : wf_handle (FileSystemDirectoryHandle entries) = true)
        by exact (resolve_wf _ _ _ Hres Hwf).
      apply Forall_forall. intros e He.
      destruct (proj2 (wf_handle_entries entries Hwf') e He) as [Hv _].
      unfold valid_name in Hv. now apply andb_true_iff in Hv. }
    eapply nth_error_In with (n := k).
    rewrite (listdir_loop_nth entries Htruthy), Hk, Hbase. reflexivity.
Qed.

Lemma listdir_paths_accumulate_witness :
  exists result,
    listdir (fun a b => 0) sample_storage (Some "/a") = Some result /\
    In (mkDirEntry "b" "directory" "/a/b") result /\
    In (mkDirEntry "x" "file" "/a/b/x") result.
Proof.
  destruct (listdir (fun a b => 0) sample_storage (Some "/a")) as [result|]
    eqn:Hlist; [|vm_compute in Hlist; discriminate].
  exists result. split; [reflexivity|].
  destruct (listdir_paths_accumulate (fun a b => 0) sample_storage "/a" result
              eq_refl Hlist) as (entries & Hres & _ & Hin).
  vm_compute in Hres. injection Hres as <-. split.
  - exact (Hin 0%nat _ _ eq_refl).
  - exact (Hin 1%nat _ _ eq_refl).
Defined.

(** X24.  [listdir] and [dirtree] agree on what a directory holds: for
    every path string, [listdir(path)] rejects exactly when
    [dirtree(path)] does, and otherwise the names and kinds that [listdir]
    returns are, up to the order, those of the children of the node that
    [dirtree] returns. *)
Theorem listdir_agrees_with_dirtree
        (localeCompare : string -> string -> Z)
        (root : list (string * Handle)) (path : string) :
  match listdir localeCompare root (Some path), dirtree root path with
  | Some result, Some node =>
      Permutation
        (map (fun e => (Some (entry_name e), String.eqb (entry_type e) "file"))
             result)
        (map (fun c => (node_name c, is_file c))
             (children_or_empty (Some node)))
  | None, None => True
  | _, _ => False
  end.
Proof.
  rewrite listdir_unfold, dirtree_unfold.
  destruct (resolve (FileSystemDirectoryHandle root) (segments path))
    as [h|] eqn:Hres; [|exact I].
  destruct (resolve_directory _ _ _ Hres) as [entries ->].
  cbn [option_map]. rewrite walk_children.
  cbn [children_or_empty node_children].
  rewrite (Permutation_map _ (array_sort_perm _ _)).
  rewrite map_map.
  set (start := Js.or_else (Some path) "/"). clearbody start.
  clear Hres. revert start.
  induction entries as [|[n h] rest IH]; intros start; [reflexivity|].
  cbn [listdir_loop map entry_name entry_type].
  rewrite child_node_name. cbn [fst].
  replace (is_file (child_node (path_of (segments path)) (n, h)))
    with (String.eqb (kind h) "file")
    by (unfold child_node; destruct h; reflexivity).
  apply perm_skip. apply IH.
Qed.

Section DirectoriesFirst.

Context {A : Type} (comparefn : A -> A -> Z) (D F : A -> Prop).

Hypothesis D_before_F : forall a b, D a -> F b -> comparefn a b < 0.
Hypothesis F_after_D : forall a b, F a -> D b -> ~ comparefn a b < 0.

Lemma sort_insert_two_blocks (x : A) (files : list A) :
  D x \/ F x -> Forall F files ->
  forall dirs, Forall D dirs ->
    exists dirs' files',
      sort_insert comparefn x (dirs ++ files) = (dirs' ++ files')%list /\
      Forall D dirs' /\ Forall F files'.
Proof.
  intros Hx Hfiles. induction dirs as [|d ds IH]; intros Hdirs.
  - cbn [app]. destruct Hx as [Hx|Hx].
    + exists [x], files. split; [|split; [now constructor | assumption]].
      destruct files as [|y rest]; [reflexivity|].
      cbn [sort_insert].
      pose proof (D_before_F x y Hx (Forall_inv Hfiles)) as Hlt.
      apply Z.ltb_lt in Hlt. now rewrite Hlt.
    + exists [], (sort_insert comparefn x files).
      split; [reflexivity|]. split; [constructor|].
      apply (Permutation_Forall
               (Permutation_sym (sort_insert_perm comparefn x files))).
      now constructor.
  - cbn [app sort_insert].
    destruct (comparefn x d <? 0) eqn:Hlt.
    + apply Z.ltb_lt in Hlt.
      destruct Hx as [Hx|Hx].
      * exists (x :: d :: ds), files.
        split; [reflexivity|]. split; [now constructor | assumption].
      * exfalso. exact (F_after_D x d Hx (Forall_inv Hdirs) Hlt).
    + destruct (IH (Forall_inv_tail Hdirs)) as (dirs' & files' & E & Hd & Hf).
      exists (d :: dirs'), files'. rewrite E.
      split; [reflexivity|]. split; [|assumption].
      constructor; [exact (Forall_inv Hdirs) | assumption].
Qed.

Lemma array_sort_two_blocks (a : list A) :
  Forall (fun x => D x \/ F x) a ->
  exists dirs files,
    array_sort comparefn a = (dirs ++ files)%list /\
    Forall D dirs /\ Forall F files.
Proof.
  unfold array_sort. intros Ha.
  assert (Hgen : forall acc,
             (exists dirs files, acc = (dirs ++ files)%list /\
                                 Forall D dirs /\ Forall F files) ->
             exists dirs files,
               fold_left (fun sorted x => sort_insert comparefn x sorted) a acc
               = (dirs ++ files)%list /\ Forall D dirs /\ Forall F files).
  { induction Ha as [|x rest Hx Hrest IH]; intros acc Hacc; [exact Hacc|].
    cbn [fold_left]. apply IH.
    destruct Hacc as (dirs & files & -> & Hd & Hf).
    exact (sort_insert_two_blocks x files Hx Hf dirs Hd). }
  apply Hgen. exists [], []. repeat split; constructor.
Qed.

End DirectoriesFirst.

Lemma listdir_loop_kinds (entries : list (string * Handle)) :
  forall path,
    Forall (fun e => entry_type e = "directory" \/ entry_type e = "file")
           (listdir_loop path entries).
Proof.
  induction entries as [|[n h] rest IH]; intros path; [constructor|].
  cbn [listdir_loop]. constructor; [|apply IH].
  cbn [entry_type]. destruct h; [now right | now left].
Qed.

(** X25.  [listdir] puts the directories first: when [localeCompare]
    orders the word "directory" before the word "file", the array that
    [listdir] returns is a block of directories followed by a block of
    files, whatever the names are. *)
Theorem listdir_directories_first
        (localeCompare : string -> string -> Z)
        (root : list (string * Handle)) (path : option string)
        (result : list DirEntry) :
  localeCompare "directory" "file" < 0 ->
  0 < localeCompare "file" "directory" ->
  listdir localeCompare root path = Some result ->
  exists dirs files,
    result = (dirs ++ files)%list /\
    Forall (fun e => entry_type e = "directory") dirs /\
    Forall (fun e => entry_type e = "file") files.
Proof.
  intros Hdf Hfd Hlist. unfold listdir in Hlist.
  destruct (resolve _ _) as [[|entries]|]; try discriminate.
  injection Hlist as <-.
  apply array_sort_two_blocks.
  - intros a b Ha Hb. unfold listdir_compare. rewrite Ha, Hb.
    destruct (localeCompare "directory" "file" =? 0) eqn:E; [|exact Hdf].
    apply Z.eqb_eq in E. lia.
  - intros a b Ha Hb. unfold listdir_compare. rewrite Ha, Hb.
    destruct (localeCompare "file" "directory" =? 0) eqn:E; [|lia].
    apply Z.eqb_eq in E. lia.
  - apply listdir_loop_kinds.
Qed.

Lemma listdir_directories_first_witness :
  exists result dirs files,
    listdir (fun a b => match String.compare a b with
                        | Lt => -1 | Eq => 0 | Gt => 1
                        end)
            [("y", FileSystemFileHandle);
             ("b", FileSystemDirectoryHandle []);
             ("x", FileSystemFileHandle);
             ("a", FileSystemDirectoryHandle [])] None = Some result /\
    result = (dirs ++ files)%list /\
    map entry_name result = ["a"; "b"; "x"; "y"] /\
    Forall (fun e => entry_type e = "directory") dirs /\
    Forall (fun e => entry_type e = "file") files.
Proof.
  set (lc := fun a b => match String.compare a b with
                        | Lt => -1 | Eq => 0 | Gt => 1
                        end).
  set (st := [("y", FileSystemFileHandle);
              ("b", FileSystemDirectoryHandle []);
              ("x", FileSystemFileHandle);
              ("a", FileSystemDirectoryHandle [])]).
  destruct (listdir lc st None) as [result|] eqn:Hlist;
    [|vm_compute in Hlist; discriminate].
  destruct (listdir_directories_first lc st None result eq_refl eq_refl Hlist)
    as (dirs & files & E & Hd & Hf).
  exists result, dirs, files. split; [reflexivity|].
  split; [exact E|]. split; [|split; assumption].
  vm_compute in Hlist. injection Hlist as <-. reflexivity.
Defined.

(* ================================================================== *)
(** ** mkdir                                                           *)
(* ================================================================== *)

Section MkdirFacts.

Variable validFileName : string -> bool.

Lemma find_set_entry_same (p : string) (h : Handle)
      (entries : list (string * Handle)) :
  find (fun e => String.eqb (fst e) p) (set_entry p h entries)
  = option_map (fun e => (fst e, h))
      (find (fun e => String.eqb (fst e) p) entries).
Proof.
  induction entries as [|[n old] rest IH]; [reflexivity|].
  cbn [set_entry find fst].
  destruct (String.eqb n p) eqn:E; cbn [find fst]; rewrite E;
    [reflexivity | exact IH].
Qed.

Lemma find_set_entry_other (p q : string) (h : Handle)
      (entries : list (string * Handle)) :
  String.eqb q p = false ->
  find (fun e => String.eqb (fst e) q) (set_entry p h entries)
  = find (fun e => String.eqb (fst e) q) entries.
Proof.
  intros Hqp. induction entries as [|[n old] rest IH]; [reflexivity|].
  cbn [set_entry find fst].
  destruct (String.eqb n p) eqn:E; cbn [find fst].
  - apply String.eqb_eq in E. subst n.
    rewrite String.eqb_sym, Hqp. reflexivity.
  - destruct (String.eqb n q); [reflexivity | exact IH].
Qed.

Lemma find_app_new (p q : string) (h : Handle)
      (entries : list (string * Handle)) :
  find (fun e => String.eqb (fst e) p) entries = None ->
  find (fun e => String.eqb (fst e) q) (entries ++ [(p, h)])
  = if String.eqb q p then Some (p, h)
    else find (fun e => String.eqb (fst e) q) entries.
Proof.
  intros Hnone. induction entries as [|[n old] rest IH].
  - cbn [app find fst]. rewrite (String.eqb_sym p q).
    now destruct (String.eqb q p).
  - cbn [app find fst] in *.
    destruct (String.eqb n p) eqn:Enp; [discriminate|].
    destruct (String.eqb n q) eqn:Enq.
    + apply String.eqb_eq in Enq. subst n. now rewrite Enp.
    + exact (IH Hnone).
Qed.

Lemma is_directory_nil (entries : list (string * Handle)) :
  is_directory entries [] = true.
Proof. reflexivity. Qed.

Lemma is_directory_cons (entries : list (string * Handle)) (q : string)
      (segs : list string) :
  is_directory entries (q :: segs)
  = match find (fun e => String.eqb (fst e) q) entries with
    | Some (_, FileSystemDirectoryHandle sub) => is_directory sub segs
    | _ => false
    end.
Proof.
  unfold is_directory. cbn [resolve getDirectoryHandle].
  now destruct (find _ entries) as [[n [|sub]]|].
Qed.

Lemma is_directory_empty (segs : list string) :
  is_directory [] segs = match segs with [] => true | _ => false end.
Proof. now destruct segs. Qed.

Lemma is_prefix_nil (segs : list string) :
  is_prefix segs [] = match segs with [] => true | _ => false end.
Proof. now destruct segs. Qed.

Lemma is_prefix_refl (segs : list string) : is_prefix segs segs = true.
Proof.
  induction segs as [|x rest IH]; [reflexivity|].
  cbn [is_prefix]. now rewrite String.eqb_refl.
Qed.

Lemma is_prefix_firstn (k : nat) (segs : list string) :
  is_prefix (firstn k segs) segs = true.
Proof.
  revert segs. induction k as [|k IH]; intros [|x rest]; try reflexivity.
  cbn [firstn is_prefix]. now rewrite String.eqb_refl, IH.
Qed.

(** The directories of the storage after the loop of [mkdir]: those it
    had, and those of the first [k] segments, where [k] counts the
    iterations that went through; the next segment, if there is one, is a
    name that the user agent refuses or the name of a file. *)
Lemma mkdir_loop_spec (clean : list string) :
  forall entries ok entries',
    mkdir_loop validFileName clean entries = (ok, entries') ->
    exists k,
      (k <= List.length clean)%nat /\
      (ok = true <-> k = List.length clean) /\
      (forall segs,
          is_directory entries' segs
          = is_directory entries segs || is_prefix segs (firstn k clean)) /\
      (forall p, nth_error clean k = Some p ->
                 validFileName p = false \/
                 entry_at (FileSystemDirectoryHandle entries)
                          (firstn (S k) clean)
                 = Some FileSystemFileHandle).
Proof.
  assert (Hstop : forall (entries : list (string * Handle)) (l : list string),
             forall segs,
               is_directory entries segs
               = is_directory entries segs || is_prefix segs (firstn 0 l)).
  { intros entries l segs. cbn [firstn]. rewrite is_prefix_nil.
    destruct segs; [reflexivity | now rewrite orb_false_r]. }
  induction clean as [|p rest IH]; intros entries ok entries' Hloop.
  - cbn [mkdir_loop] in Hloop.
    assert (ok = true) by congruence. assert (entries' = entries) by congruence.
    subst. exists 0%nat. repeat split; auto.
    intros q Hq. discriminate.
  - cbn [mkdir_loop] in Hloop.
    destruct (validFileName p) eqn:Hvalid.
    + destruct (find (fun e => String.eqb (fst e) p) entries)
        as [[n [|sub]]|] eqn:Hfind.
      * assert (ok = false) by congruence.
        assert (entries' = entries) by congruence. subst.
        exists 0%nat. split; [cbn; lia|]. split; [split; discriminate|].
        split; [apply Hstop|].
        intros q Hq. right. cbn [firstn entry_at]. now rewrite Hfind.
      * destruct (mkdir_loop validFileName rest sub) as [ok1 sub'] eqn:Hrec.
        assert (ok1 = ok) by congruence.
        assert (entries'
                = set_entry p (FileSystemDirectoryHandle sub') entries)
          by congruence.
        subst ok1 entries'.
        destruct (IH _ _ _ Hrec) as (k & Hk & Hok & Hdirs & Hnext).
        exists (S k). split; [cbn; lia|].
        split; [cbn [List.length]; rewrite Hok; lia|]. split.
        -- intros [|q segs]; [reflexivity|].
           rewrite !is_directory_cons. cbn [firstn is_prefix].
           destruct (String.eqb q p) eqn:Eqp.
           ++ apply String.eqb_eq in Eqp. subst q.
              rewrite find_set_entry_same, Hfind. cbn [option_map fst andb].
              apply Hdirs.
           ++ rewrite (find_set_entry_other p q _ entries Eqp).
              cbn [andb]. now rewrite orb_false_r.
        -- intros q Hq. cbn [nth_error] in Hq.
           destruct (Hnext q Hq) as [Hbad|Hfile]; [now left | right].
           change (firstn (S (S k)) (p :: rest))
             with (p :: firstn (S k) rest).
           cbn [entry_at]. rewrite Hfind. exact Hfile.
      * destruct (mkdir_loop validFileName rest []) as [ok1 sub'] eqn:Hrec.
        assert (ok1 = ok) by congruence.
        assert (entries'
                = (entries ++ [(p, FileSystemDirectoryHandle sub')])%list)
          by congruence.
        subst ok1 entries'.
        destruct (IH _ _ _ Hrec) as (k & Hk & Hok & Hdirs & Hnext).
        exists (S k). split; [cbn; lia|].
        split; [cbn [List.length]; rewrite Hok; lia|]. split.
        -- intros [|q segs]; [reflexivity|].
           rewrite !is_directory_cons. cbn [firstn is_prefix].
           rewrite (find_app_new p q _ entries Hfind).
           destruct (String.eqb q p) eqn:Eqp.
           ++ apply String.eqb_eq in Eqp. subst q. rewrite Hfind.
              cbn [andb orb]. rewrite Hdirs, is_directory_empty.
              destruct segs; reflexivity.
           ++ cbn [andb]. now rewrite orb_false_r.
        -- intros q Hq. cbn [nth_error] in Hq.
           destruct (Hnext q Hq) as [Hbad|Hfile]; [now left | exfalso].
           destruct (firstn (S k) rest) eqn:Ef; [|discriminate Hfile].
           discriminate Hfile.
    + assert (ok = false) by congruence.
      assert (entries' = entries) by congruence. subst.
      exists 0%nat. split; [cbn; lia|]. split; [split; discriminate|].
      split; [apply Hstop|].
      intros q Hq. left. cbn in Hq. congruence.
Qed.

(** The loop changes nothing where the directories are there already. *)
Lemma mkdir_loop_existing (clean : list string) :
  forall entries,
    forallb validFileName clean = true ->
    is_directory entries clean = true ->
    mkdir_loop validFileName clean entries = (true, entries).
Proof.
  assert (Hset : forall p sub (entries : list (string * Handle)) n,
             find (fun e => String.eqb (fst e) p) entries
             = Some (n, FileSystemDirectoryHandle sub) ->
             set_entry p (FileSystemDirectoryHandle sub) entries = entries).
  { intros p sub entries n. induction entries as [|[m old] rest IH];
      [discriminate|].
    cbn [find fst set_entry]. destruct (String.eqb m p).
    - intros E. congruence.
    - intros E. now rewrite (IH E). }
  induction clean as [|p rest IH]; intros entries Hvalid Hdir; [reflexivity|].
  cbn [forallb] in Hvalid. apply andb_true_iff in Hvalid.
  destruct Hvalid as [Hp Hrest].
  rewrite is_directory_cons in Hdir. cbn [mkdir_loop]. rewrite Hp.
  destruct (find (fun e => String.eqb (fst e) p) entries)
    as [[n [|sub]]|] eqn:Hfind; try discriminate.
  rewrite (IH sub Hrest Hdir). f_equal. exact (Hset _ _ _ _ Hfind).
Qed.

(** A loop that went through met accepted names only. *)
Lemma mkdir_loop_valid (clean : list string) :
  forall entries entries',
    mkdir_loop validFileName clean entries = (true, entries') ->
    forallb validFileName clean = true.
Proof.
  induction clean as [|p rest IH]; intros entries entries' Hloop;
    [reflexivity|].
  cbn [mkdir_loop] in Hloop. cbn [forallb].
  destruct (validFileName p); [|discriminate]. cbn [andb].
  destruct (find (fun e => String.eqb (fst e) p) entries)
    as [[n [|sub]]|]; [discriminate | |].
  - destruct (mkdir_loop validFileName rest sub) as [ok1 sub'] eqn:Hrec.
    assert (ok1 = true) by congruence. subst. exact (IH _ _ Hrec).
  - destruct (mkdir_loop validFileName rest []) as [ok1 sub'] eqn:Hrec.
    assert (ok1 = true) by congruence. subst. exact (IH _ _ Hrec).
Qed.

Lemma mkdir_unfold (root : list (string * Handle)) (path : string) :
  mkdir validFileName root (Some path)
  = let (ok, root') := mkdir_loop validFileName (segments path) root in
    ((if ok then Some "ok" else None), root').
Proof. unfold mkdir. now rewrite clean_segments. Qed.

Lemma mkdir_resolved (root root' : list (string * Handle)) (path : string) :
  mkdir validFileName root (Some path) = (Some "ok", root') ->
  forallb validFileName (segments path) = true /\
  is_directory root' (segments path) = true.
Proof.
  rewrite mkdir_unfold.
  destruct (mkdir_loop validFileName (segments path) root) as [ok r] eqn:Hloop.
  intros Hres. assert (r = root') by congruence. subst r.
  destruct ok; [|discriminate]. split.
  - exact (mkdir_loop_valid _ _ _ Hloop).
  - destruct (mkdir_loop_spec _ _ _ _ Hloop) as (k & _ & Hok & Hdirs & _).
    rewrite Hdirs, (proj1 Hok eq_refl), firstn_all, is_prefix_refl.
    apply orb_true_r.
Qed.

End MkdirFacts.

(** X26.  When [mkdir(path)] resolves, the storage has the directories it
    had and one for every prefix of the segments of [path], and no other:
    a path leads to a directory afterwards exactly when it did before or
    when it is the path cut after some segment. *)
Theorem mkdir_creates_the_missing_prefixes
        (validFileName : string -> bool)
        (root root' : list (string * Handle)) (path : string) :
  mkdir validFileName root (Some path) = (Some "ok", root') ->
  forall segs,
    is_directory root' segs
    = is_directory root segs || is_prefix segs (segments path).
Proof.
  rewrite mkdir_unfold.
  destruct (mkdir_loop validFileName (segments path) root) as [ok r] eqn:Hloop.
  intros Hres. assert (r = root') by congruence. subst r.
  destruct ok; [|discriminate].
  destruct (mkdir_loop_spec validFileName _ _ _ _ Hloop)
    as (k & _ & Hok & Hdirs & _).
  rewrite (proj1 Hok eq_refl), firstn_all in Hdirs. exact Hdirs.
Qed.

Lemma mkdir_creates_the_missing_prefixes_witness :
  exists root',
    mkdir no_dot_names sample_storage (Some "/a/new/dir") = (Some "ok", root') /\
    is_directory root' ["a"; "new"; "dir"] = true /\
    is_directory root' ["a"; "b"; "c"] = true /\
    is_directory root' ["a"; "dir"] = false.
Proof.
  destruct (mkdir no_dot_names sample_storage (Some "/a/new/dir"))
    as [res root'] eqn:Hmk.
  assert (Hres : res = Some "ok") by (vm_compute in Hmk; congruence).
  subst res. exists root'. split; [reflexivity|].
  pose proof (mkdir_creates_the_missing_prefixes _ _ _ _ Hmk) as H.
  rewrite !H. vm_compute. repeat split.
Defined.

(** X27.  [mkdir] does not undo what it did when it rejects: it stops at
    the first segment that the user agent refuses as a name or that names
    a file, and the directories of the segments before that one exist
    afterwards (and nothing else has changed among the directories). *)
Theorem mkdir_rejected_keeps_created
        (validFileName : string -> bool)
        (root root' : list (string * Handle)) (path : string) :
  mkdir validFileName root (Some path) = (None, root') ->
  exists k p,
    nth_error (segments path) k = Some p /\
    (validFileName p = false \/
     entry_at (FileSystemDirectoryHandle root) (firstn (S k) (segments path))
     = Some FileSystemFileHandle) /\
    forall segs,
      is_directory root' segs
      = is_directory root segs || is_prefix segs (firstn k (segments path)).
Proof.
  rewrite mkdir_unfold.
  destruct (mkdir_loop validFileName (segments path) root) as [ok r] eqn:Hloop.
  intros Hres. assert (r = root') by congruence. subst r.
  destruct ok; [discriminate|].
  destruct (mkdir_loop_spec validFileName _ _ _ _ Hloop)
    as (k & Hk & Hok & Hdirs & Hnext).
  assert (Hlt : (k < List.length (segments path))%nat).
  { destruct (Nat.eq_dec k (List.length (segments path))) as [E|E];
      [|lia].
    apply Hok in E. discriminate. }
  destruct (nth_error (segments path) k) as [p|] eqn:Hp;
    [|apply nth_error_None in Hp; lia].
  exists k, p. split; [exact Hp|]. split; [exact (Hnext p eq_refl)|].
  exact Hdirs.
Qed.

Lemma mkdir_rejected_keeps_created_witness :
  exists root',
    mkdir no_dot_names sample_storage (Some "/new/../dir") = (None, root') /\
    is_directory root' ["new"] = true /\
    is_directory root' ["new"; ".."] = false.
Proof.
  destruct (mkdir no_dot_names sample_storage (Some "/new/../dir"))
    as [res root'] eqn:Hmk.
  assert (Hres : res = None) by (vm_compute in Hmk; congruence).
  subst res. exists root'. split; [reflexivity|].
  destruct (mkdir_rejected_keeps_created _ _ _ _ Hmk)
    as (k & p & Hp & _ & Hdirs).
  assert (Hk : k = 1%nat).
  { destruct k as [|[|k]]; [exfalso | reflexivity | exfalso].
    - pose proof (Hdirs []) as H0.
      pose proof (Hdirs ["new"]) as H1.
      vm_compute in Hmk. injection Hmk as <-. vm_compute in H1.
      discriminate.
    - pose proof (Hdirs ["new"; ".."]) as H1.
      vm_compute in Hmk. injection Hmk as <-. vm_compute in H1.
      discriminate. }
  subst k. rewrite !Hdirs. vm_compute. split; reflexivity.
Defined.

(** X28.  [mkdir] twice is [mkdir] once: after [mkdir(path)] has
    resolved, a second call resolves as well and leaves the storage as the
    first one left it. *)
Theorem mkdir_twice
        (validFileName : string -> bool)
        (root root' : list (string * Handle)) (path : string) :
  mkdir validFileName root (Some path) = (Some "ok", root') ->
  mkdir validFileName root' (Some path) = (Some "ok", root').
Proof.
  intros Hmk.
  destruct (mkdir_resolved validFileName root root' path Hmk)
    as [Hvalid Hdir].
  rewrite mkdir_unfold.
  now rewrite (mkdir_loop_existing validFileName _ _ Hvalid Hdir).
Qed.

Lemma mkdir_twice_witness :
  exists root',
    mkdir no_dot_names sample_storage (Some "a/new/") = (Some "ok", root') /\
    mkdir no_dot_names root' (Some "a/new/") = (Some "ok", root').
Proof.
  destruct (mkdir no_dot_names sample_storage (Some "a/new/"))
    as [res root'] eqn:Hmk.
  assert (Hres : res = Some "ok") by (vm_compute in Hmk; congruence).
  subst res. exists root'. split; [reflexivity|].
  exact (mkdir_twice _ _ _ _ Hmk).
Defined.

(* ================================================================== *)
(** ** getFileHandle                                                   *)
(* ================================================================== *)

Section GetFileHandleFacts.

Variable validFileName : string -> bool.

Lemma set_entry_same (p : string) (sub : list (string * Handle))
      (entries : list (string * Handle)) (n : string) :
  find (fun e => String.eqb (fst e) p) entries
  = Some (n, FileSystemDirectoryHandle sub) ->
  set_entry p (FileSystemDirectoryHandle sub) entries = entries.
Proof.
  induction entries as [|[m old] rest IH]; [discriminate|].
  cbn [find fst set_entry]. destruct (String.eqb m p).
  - intros E. congruence.
  - intros E. now rewrite (IH E).
Qed.

(** Without [create] the loop looks the path up and changes nothing. *)
Lemma getFileHandle_loop_plain (clean : list string) :
  forall entries,
    clean <> [] ->
    forallb validFileName clean = true ->
    getFileHandle_loop validFileName false clean entries
    = (file_or_rejected (entry_at (FileSystemDirectoryHandle entries) clean),
       entries).
Proof.
  induction clean as [|p rest IH]; intros entries Hne Hvalid; [congruence|].
  cbn [forallb] in Hvalid. apply andb_true_iff in Hvalid.
  destruct Hvalid as [Hp Hrest].
  destruct rest as [|x r].
  - cbn [getFileHandle_loop entry_at]. rewrite Hp.
    now destruct (find (fun e => String.eqb (fst e) p) entries)
      as [[n [|sub]]|].
  - change (getFileHandle_loop validFileName false (p :: x :: r) entries)
      with (if validFileName p then
              match find (fun e => String.eqb (fst e) p) entries with
              | Some (_, FileSystemFileHandle) => (None, entries)
              | Some (_, FileSystemDirectoryHandle sub) =>
                  let (file, sub') :=
                    getFileHandle_loop validFileName false (x :: r) sub in
                  (file, set_entry p (FileSystemDirectoryHandle sub') entries)
              | None => (None, entries)
              end
            else (None, entries)).
    rewrite Hp.
    change (entry_at (FileSystemDirectoryHandle entries) (p :: x :: r))
      with (match find (fun e => String.eqb (fst e) p) entries with
            | Some (_, child) => entry_at child (x :: r)
            | None => None
            end).
    destruct (find (fun e => String.eqb (fst e) p) entries)
      as [[n [|sub]]|] eqn:Hfind; try reflexivity.
    rewrite (IH sub) by (assumption || discriminate).
    now rewrite (set_entry_same _ _ _ _ Hfind).
Qed.

(** The node that the snapshot has at a path is a file exactly when the
    storage has a file there. *)
Lemma descend_child_is_file (segs : list string) :
  forall e cp,
    match descend (child_node cp e) segs with
    | Some n => is_file n
    | None => false
    end
    = match entry_at (snd e) segs with
      | Some FileSystemFileHandle => true
      | _ => false
      end.
Proof.
  induction segs as [|p rest IH]; intros [name h] cp.
  - unfold child_node. cbn [fst snd descend entry_at].
    destruct h; reflexivity.
  - unfold child_node. cbn [fst snd]. destruct h as [|entries].
    + reflexivity.
    + rewrite walk_children. cbn [descend node_children entry_at].
      rewrite find_child_map.
      destruct (find (fun e => String.eqb (fst e) p) entries) as [[n c]|];
        [|reflexivity].
      cbn [option_map]. exact (IH (n, c) _).
Qed.

Lemma descend_root_is_file (root : list (string * Handle))
      (segs : list string) :
  match descend (walk (FileSystemDirectoryHandle root) "" "/") segs with
  | Some n => is_file n
  | None => false
  end
  = match entry_at (FileSystemDirectoryHandle root) segs with
    | Some FileSystemFileHandle => true
    | _ => false
    end.
Proof.
  destruct segs as [|p rest]; [reflexivity|].
  rewrite walk_children. cbn [descend node_children entry_at].
  rewrite find_child_map.
  destruct (find (fun e => String.eqb (fst e) p) root) as [[n c]|];
    [|reflexivity].
  cbn [option_map]. exact (descend_child_is_file rest (n, c) _).
Qed.

Lemma is_prefix_nil_only (entries : list (string * Handle))
      (segs : list string) :
  is_directory entries segs
  = is_directory entries segs || is_prefix segs [].
Proof.
  rewrite is_prefix_nil.
  destruct segs; [reflexivity | now rewrite orb_false_r].
Qed.

(** With [create], a loop that ends with a file has made the directories
    of the segments before the last one, where they were missing, and
    nothing else among the directories. *)
Lemma getFileHandle_loop_create (clean : list string) :
  forall entries file entries',
    getFileHandle_loop validFileName true clean entries
    = (Some file, entries') ->
    match clean with
    | [] => file = None
    | _ => file = Some FileSystemFileHandle
    end /\
    (clean <> [] ->
     entry_at (FileSystemDirectoryHandle entries') clean
     = Some FileSystemFileHandle) /\
    forall segs,
      is_directory entries' segs
      = is_directory entries segs || is_prefix segs (removelast clean).
Proof.
  induction clean as [|p rest IH]; intros entries file entries' Hloop.
  - cbn in Hloop. assert (file = None) by congruence.
    assert (entries' = entries) by congruence. subst.
    split; [reflexivity|]. split; [congruence|]. apply is_prefix_nil_only.
  - destruct rest as [|x r].
    + cbn [getFileHandle_loop] in Hloop.
      destruct (validFileName p); [|discriminate].
      destruct (find (fun e => String.eqb (fst e) p) entries)
        as [[n [|sub]]|] eqn:Hfind; [ | discriminate | ].
      * assert (file = Some FileSystemFileHandle) by congruence.
        assert (entries' = entries) by congruence. subst.
        split; [reflexivity|]. split.
        -- intros _. cbn [entry_at]. now rewrite Hfind.
        -- apply is_prefix_nil_only.
      * assert (file = Some FileSystemFileHandle) by congruence.
        assert (entries' = (entries ++ [(p, FileSystemFileHandle)])%list)
          by congruence. subst.
        split; [reflexivity|]. split.
        -- intros _. cbn [entry_at].
           now rewrite (find_app_new p p _ entries Hfind), String.eqb_refl.
        -- intros [|q segs]; [reflexivity|].
           cbn [removelast]. rewrite !is_directory_cons.
           rewrite (find_app_new p q _ entries Hfind).
           destruct (String.eqb q p) eqn:Eqp.
           ++ apply String.eqb_eq in Eqp. subst q. now rewrite Hfind.
           ++ now rewrite orb_false_r.
    + change (getFileHandle_loop validFileName true (p :: x :: r) entries)
        with (if validFileName p then
                match find (fun e => String.eqb (fst e) p) entries with
                | Some (_, FileSystemFileHandle) => (None, entries)
                | Some (_, FileSystemDirectoryHandle sub) =>
                    let (file, sub') :=
                      getFileHandle_loop validFileName true (x :: r) sub in
                    (file,
                     set_entry p (FileSystemDirectoryHandle sub') entries)
                | None =>
                    let (file, sub') :=
                      getFileHandle_loop validFileName true (x :: r) [] in
                    (file,
                     (entries ++ [(p, FileSystemDirectoryHandle sub')])%list)
                end
              else (None, entries)) in Hloop.
      destruct (validFileName p); [|discriminate].
      change (removelast (p :: x :: r)) with (p :: removelast (x :: r)).
      destruct (find (fun e => String.eqb (fst e) p) entries)
        as [[n [|sub]]|] eqn:Hfind; [discriminate | | ].
      * destruct (getFileHandle_loop validFileName true (x :: r) sub)
          as [f1 sub'] eqn:Hrec.
        assert (f1 = Some file) by congruence.
        assert (entries'
                = set_entry p (FileSystemDirectoryHandle sub') entries)
          by congruence.
        subst f1 entries'.
        destruct (IH _ _ _ Hrec) as (Hfile & Hat & Hdirs).
        split; [exact Hfile|]. split.
        -- intros _.
           change (entry_at (FileSystemDirectoryHandle
                               (set_entry p (FileSystemDirectoryHandle sub')
                                          entries)) (p :: x :: r))
             with (match find (fun e => String.eqb (fst e) p)
                              (set_entry p (FileSystemDirectoryHandle sub')
                                         entries) with
                   | Some (_, child) => entry_at child (x :: r)
                   | None => None
                   end).
           rewrite find_set_entry_same, Hfind. cbn [option_map].
           apply Hat. discriminate.
        -- intros [|q segs]; [reflexivity|].
           rewrite !is_directory_cons. cbn [is_prefix].
           destruct (String.eqb q p) eqn:Eqp.
           ++ apply String.eqb_eq in Eqp. subst q.
              rewrite find_set_entry_same, Hfind. cbn [option_map fst andb].
              apply Hdirs.
           ++ rewrite (find_set_entry_other p q _ entries Eqp).
              cbn [andb]. now rewrite orb_false_r.
      * destruct (getFileHandle_loop validFileName true (x :: r) [])
          as [f1 sub'] eqn:Hrec.
        assert (f1 = Some file) by congruence.
        assert (entries'
                = (entries ++ [(p, FileSystemDirectoryHandle sub')])%list)
          by congruence.
        subst f1 entries'.
        destruct (IH _ _ _ Hrec) as (Hfile & Hat & Hdirs).
        split; [exact Hfile|]. split.
        -- intros _.
           change (entry_at (FileSystemDirectoryHandle
                               (entries
                                ++ [(p, FileSystemDirectoryHandle sub')]))
                            (p :: x :: r))
             with (match find (fun e => String.eqb (fst e) p)
                              (entries
                               ++ [(p, FileSystemDirectoryHandle sub')]) with
                   | Some (_, child) => entry_at child (x :: r)
                   | None => None
                   end).
           rewrite (find_app_new p p _ entries Hfind), String.eqb_refl.
           apply Hat. discriminate.
        -- intros [|q segs]; [reflexivity|].
           rewrite !is_directory_cons. cbn [is_prefix].
           rewrite (find_app_new p q _ entries Hfind).
           destruct (String.eqb q p) eqn:Eqp.
           ++ apply String.eqb_eq in Eqp. subst q. rewrite Hfind.
              cbn [andb orb]. rewrite Hdirs, is_directory_empty.
              destruct segs; reflexivity.
           ++ cbn [andb]. now rewrite orb_false_r.
Qed.

Lemma getFileHandle_unfold (create : bool) (root : list (string * Handle))
      (path : string) :
  getFileHandle validFileName create root (Some path)
  = getFileHandle_loop validFileName create (segments path) root.
Proof. unfold getFileHandle. now rewrite clean_segments. Qed.

End GetFileHandleFacts.

(** X29.  Without the [create] option, [getFileHandle] opens exactly the
    files that the picker shows, and leaves the storage alone: for a path
    whose segments are names that the user agent accepts, it resolves with a
    file handle when [findNode] finds a file node at that path in the
    snapshot, with [undefined] when the path has no segment, and it
    rejects in every other case (a directory, or nothing, at the path). *)
Theorem getFileHandle_opens_the_files_of_the_snapshot
        (validFileName : string -> bool)
        (root : list (string * Handle)) (path : string) (full : TreeNode) :
  dirtree root "/" = Some full ->
  forallb validFileName (segments path) = true ->
  getFileHandle validFileName false root (Some path)
  = (match findNode full (Some path) with
     | Some n =>
         if is_file n then Some (Some FileSystemFileHandle)
         else match segments path with
              | [] => Some None
              | _ => None
              end
     | None => None
     end, root).
Proof.
  intros Hfull Hvalid. rewrite dirtree_root in Hfull.
  assert (Efull : full = walk (FileSystemDirectoryHandle root) "" "/")
    by congruence.
  subst full. clear Hfull.
  rewrite getFileHandle_unfold, findNode_descend.
  destruct (segments path) as [|p rest] eqn:Hsegs; [reflexivity|].
  rewrite (getFileHandle_loop_plain validFileName (p :: rest) root)
    by (assumption || discriminate).
  f_equal.
  pose proof (descend_root_is_file root (p :: rest)) as Hfile.
  destruct (descend (walk (FileSystemDirectoryHandle root) "" "/") (p :: rest))
    as [n|];
    destruct (entry_at (FileSystemDirectoryHandle root) (p :: rest))
      as [[|sub]|]; cbn [file_or_rejected];
    try rewrite Hfile; try reflexivity; try discriminate.
Qed.

Lemma getFileHandle_opens_the_files_of_the_snapshot_witness :
  getFileHandle no_dot_names false sample_storage (Some "/a/x")
  = (Some (Some FileSystemFileHandle), sample_storage) /\
  getFileHandle no_dot_names false sample_storage (Some "/a/b")
  = (None, sample_storage) /\
  getFileHandle no_dot_names false sample_storage (Some "//")
  = (Some None, sample_storage).
Proof.
  split; [|split].
  - rewrite (getFileHandle_opens_the_files_of_the_snapshot no_dot_names
               sample_storage "/a/x" (fullTree sample_picker) eq_refl eq_refl).
    vm_compute. reflexivity.
  - rewrite (getFileHandle_opens_the_files_of_the_snapshot no_dot_names
               sample_storage "/a/b" (fullTree sample_picker) eq_refl eq_refl).
    vm_compute. reflexivity.
  - rewrite (getFileHandle_opens_the_files_of_the_snapshot no_dot_names
               sample_storage "//" (fullTree sample_picker) eq_refl eq_refl).
    vm_compute. reflexivity.
Defined.

(** X30.  With the [create] option, as [writeFile] sets it,
    [getFileHandle] makes the whole path: when it resolves with a handle,
    the storage has a file at the path afterwards, and its directories are
    those it had and one for every proper prefix of the segments of the
    path, and no other. *)
Theorem getFileHandle_create_makes_the_path
        (validFileName : string -> bool)
        (root root' : list (string * Handle)) (path : string)
        (file : Handle) :
  getFileHandle validFileName true root (Some path) = (Some (Some file), root') ->
  file = FileSystemFileHandle /\
  entry_at (FileSystemDirectoryHandle root') (segments path)
  = Some FileSystemFileHandle /\
  forall segs,
    is_directory root' segs
    = is_directory root segs || is_prefix segs (removelast (segments path)).
Proof.
  rewrite getFileHandle_unfold. intros Hloop.
  destruct (getFileHandle_loop_create validFileName _ _ _ _ Hloop)
    as (Hfile & Hat & Hdirs).
  destruct (segments path) as [|p rest] eqn:Hsegs; [discriminate|].
  split; [congruence|]. split; [|exact Hdirs].
  apply Hat. discriminate.
Qed.

Lemma getFileHandle_create_makes_the_path_witness :
  exists root',
    getFileHandle no_dot_names true sample_storage (Some "/a/new/notes.txt")
    = (Some (Some FileSystemFileHandle), root') /\
    entry_at (FileSystemDirectoryHandle root') ["a"; "new"; "notes.txt"]
    = Some FileSystemFileHandle /\
    is_directory root' ["a"; "new"] = true /\
    is_directory root' ["a"; "new"; "notes.txt"] = false.
Proof.
  destruct (getFileHandle no_dot_names true sample_storage
              (Some "/a/new/notes.txt")) as [res root'] eqn:Hget.
  assert (Hres : res = Some (Some FileSystemFileHandle))
    by (vm_compute in Hget; congruence).
  subst res. exists root'. split; [reflexivity|].
  destruct (getFileHandle_create_makes_the_path _ _ _ _ _ Hget)
    as (_ & Hat & Hdirs).
  split; [exact Hat|]. rewrite !Hdirs. vm_compute. split; reflexivity.
Defined.
